(** * jink: lexer, escape segmenter and highlighter of lasseh/jink

    Shallow embedding of [lexer/lexer.go], [lexer/token.go] and
    [highlighter/highlighter.go].

    Conventions of the embedding.
    - A Go [string] is a sequence of bytes: [list ascii].  [len(s)] is
      [length s], [s[i]] is [at_ s i], [s[a:b]] is [substr s a b].
    - A Go [int] that holds a position, a line or a column is a [nat]: every
      such value is bounded by [len(input) + 1].
    - A function of the source that has a loop or indexes a string returns an
      [option]: [None] stands for the two ways in which a Go call fails to
      return, the run-time panic of an index out of range and a loop that
      never ends.  A [for] loop is a [Fixpoint] on a fuel argument that keeps
      the loop test of the source and is [None] when the fuel is used up; the
      function that owns the loop gives it the fuel [len(input)].
    - A method with a pointer receiver [*Lexer] takes the lexer and returns the
      updated lexer next to its result.
    - [regexp] patterns are terms of the type [regex], run by a backtracking
      matcher with the leftmost-first preference order of Go's [regexp]
      package.  Go decodes UTF-8 before matching; the patterns of this
      program name ASCII bytes only and repeat their negated classes without
      a bound, so matching byte by byte selects the same offsets.
    - [strings.ToLower] and [strings.TrimSpace] are modelled on the ASCII
      range. *)

From Stdlib Require Import List Ascii Arith Bool Lia PeanoNat.
From Stdlib Require String ZArith DecimalString.
Import ListNotations.
Import String.StringSyntax.
Delimit Scope string_scope with string.

Local Open Scope list_scope.
Local Open Scope bool_scope.

(* ================================================================== *)
(** * Part I: definitions                                             *)
(* ================================================================== *)

(** ** Go strings *)

Module GoString.

Definition byte := ascii.
Definition gostring := list byte.

(** A literal of the source, as a byte sequence. *)
Definition str (s : String.string) : gostring := String.list_ascii_of_string s.
Arguments str s%_string.

Definition code (b : byte) : nat := nat_of_ascii b.

Definition beq (a b : byte) : bool := Ascii.eqb a b.

(** [lo <= b && b <= hi] on bytes. *)
Definition in_range (lo hi : nat) (b : byte) : bool :=
  (lo <=? code b) && (code b <=? hi).

Fixpoint eqs (s t : gostring) : bool :=
  match s, t with
  | [], [] => true
  | a :: s', b :: t' => beq a b && eqs s' t'
  | _, _ => false
  end.

(** [s[i]], [None] when [i] is out of range. *)
Definition at_ (s : gostring) (i : nat) : option byte := nth_error s i.

(** The bytes of [s] from [lo] up to [hi]. *)
Definition slice (s : gostring) (lo hi : nat) : gostring :=
  firstn (hi - lo) (skipn lo s).

(** [s[lo:hi]], which panics unless [lo <= hi <= len(s)]. *)
Definition substr (s : gostring) (lo hi : nat) : option gostring :=
  if (lo <=? hi) && (hi <=? length s) then Some (slice s lo hi) else None.

(** [strings.HasPrefix(s, prefix)] *)
Fixpoint HasPrefix (s prefix : gostring) : bool :=
  match prefix, s with
  | [], _ => true
  | p :: prefix', c :: s' => beq p c && HasPrefix s' prefix'
  | _ :: _, [] => false
  end.

(** [strings.Contains(s, substr)] *)
Fixpoint Contains (s substr : gostring) : bool :=
  HasPrefix s substr ||
  match s with
  | [] => false
  | _ :: s' => Contains s' substr
  end.

(** [strings.HasSuffix(s, suffix)] *)
Definition HasSuffix (s suffix : gostring) : bool :=
  (length suffix <=? length s) &&
  eqs (skipn (length s - length suffix) s) suffix.

(** [strings.Index(s, substr)], [None] for Go's [-1]. *)
Fixpoint Index_from (s substr : gostring) (i : nat) : option nat :=
  if HasPrefix s substr then Some i
  else match s with
       | [] => None
       | _ :: s' => Index_from s' substr (S i)
       end.

Definition Index (s substr : gostring) : option nat := Index_from s substr 0.

(** [strings.ToLower] on the ASCII range: bytes outside it are left as
    they are, where the library also maps the upper-case letters beyond
    ASCII.  What is proved of the parse-mode detector in general is proved
    for every lower-casing function ([DetectorWith]). *)
Definition lower_byte (b : byte) : byte :=
  if in_range 65 90 b then ascii_of_nat (code b + 32) else b.

Definition ToLower (s : gostring) : gostring := map lower_byte s.

(** The white space of [strings.TrimSpace] on the ASCII range:
    ['\t'], ['\n'], ['\v'], ['\f'], ['\r'], [' ']. *)
Definition isSpace (b : byte) : bool :=
  in_range 9 13 b || (code b =? 32).

Fixpoint TrimLeftFunc (f : byte -> bool) (s : gostring) : gostring :=
  match s with
  | [] => []
  | c :: s' => if f c then TrimLeftFunc f s' else s
  end.

Definition TrimRightFunc (f : byte -> bool) (s : gostring) : gostring :=
  rev (TrimLeftFunc f (rev s)).

(** [strings.TrimSpace(s)] *)
Definition TrimSpace (s : gostring) : gostring :=
  TrimRightFunc isSpace (TrimLeftFunc isSpace s).

(** [strings.TrimRight(s, cutset)] *)
Definition TrimRight (s cutset : gostring) : gostring :=
  TrimRightFunc (fun b => existsb (beq b) cutset) s.

(** Named bytes of the source. *)
Definition ESC : byte := "027"%char.   (* '\033' *)
Definition LF : byte := "010"%char.    (* '\n' *)
Definition TAB : byte := "009"%char.   (* '\t' *)
Definition CR : byte := "013"%char.    (* '\r' *)
Definition NUL : byte := "000"%char.
Definition DQUOTE : byte := "034"%char.

End GoString.

Import GoString.

(** ** Running out of fuel *)

Definition bind {A B : Type} (m : option A) (k : A -> option B) : option B :=
  match m with
  | Some a => k a
  | None => None
  end.

Notation "x <- m ;; k" := (bind m (fun x => k))
  (at level 61, m at next level, right associativity).
Notation "' p <- m ;; k" := (bind m (fun p => k))
  (at level 61, p pattern, m at next level, right associativity).

(** ** Escape segmenter and stripper ([highlighter.go]) *)

Module Escape.

(** [type segment struct { text string; isEscape bool }] *)
Record segment : Type := mkSegment { text : gostring; isEscape : bool }.

Definition csiParamStart : nat := 32.   (* 0x20 *)
Definition csiParamEnd : nat := 63.     (* 0x3F *)
Definition csiFinalStart : nat := 64.   (* 0x40 *)
Definition csiFinalEnd : nat := 126.    (* 0x7E *)
Definition csiIntermEnd : nat := 47.    (* 0x2F *)
Definition escapeChar : byte := ESC.
Definition csiBracket : byte := "["%char.

Definition isCSIParamByte (b : byte) : bool := in_range csiParamStart csiParamEnd b.
Definition isCSIFinalByte (b : byte) : bool := in_range csiFinalStart csiFinalEnd b.
Definition isCSIIntermediateByte (b : byte) : bool := in_range csiParamStart csiIntermEnd b.

(** [for i < len(input) && p(input[i]) { i++ }] *)
Fixpoint skipWhile (fuel : nat) (p : byte -> bool) (input : gostring) (i : nat)
  : option nat :=
  match at_ input i with
  | Some b =>
      if p b then
        match fuel with
        | 0 => None
        | S fuel' => skipWhile fuel' p input (S i)
        end
      else Some i
  | None => Some i
  end.

(** [skipCSISequence(input, i)]: [i] is the position after ["\033["]. *)
Definition skipCSISequence (input : gostring) (i : nat) : option nat :=
  i <- skipWhile (length input) isCSIParamByte input i ;;
  match at_ input i with
  | Some b => if isCSIFinalByte b then Some (S i) else Some i
  | None => Some i
  end.

(** [skipOtherEscapeSequence(input, i)]: [i] is the position after ["\033"]. *)
Definition skipOtherEscapeSequence (input : gostring) (i : nat) : option nat :=
  i <- skipWhile (length input) isCSIIntermediateByte input i ;;
  if i <? length input then Some (S i) else Some i.

(** [input[i] == escapeChar && i+1 < len(input) && input[i+1] == csiBracket] *)
Definition startsCSI (input : gostring) (i : nat) : bool :=
  match at_ input i, at_ input (i + 1) with
  | Some b, Some b' => beq b escapeChar && beq b' csiBracket
  | _, _ => false
  end.

(** The flush of [textBuf] into [segments]; [textBuf.Reset()] is the caller's
    next buffer [[]]. *)
Definition flush (segments : list segment) (textBuf : gostring) : list segment :=
  if 0 <? length textBuf then segments ++ [mkSegment textBuf false] else segments.

(** The loop of [extractSegments], on the loop state [(i, textBuf, segments)]. *)
Fixpoint extractLoop (fuel : nat) (input : gostring) (i : nat)
         (textBuf : gostring) (segments : list segment) : option (list segment) :=
  match at_ input i with
  | None => Some (flush segments textBuf)
  | Some b =>
      match fuel with
      | 0 => None
      | S fuel' =>
          if startsCSI input i then
            let segments := flush segments textBuf in
            let start := i in
            i' <- skipCSISequence input (i + 2) ;;
            seq <- substr input start i' ;;
            extractLoop fuel' input i' [] (segments ++ [mkSegment seq true])
          else extractLoop fuel' input (S i) (textBuf ++ [b]) segments
      end
  end.

Definition extractSegments (input : gostring) : option (list segment) :=
  extractLoop (length input) input 0 [] [].

(** The loop of [StripANSI], on the loop state [(i, buf)]. *)
Fixpoint stripLoop (fuel : nat) (input : gostring) (i : nat) (buf : gostring)
  : option gostring :=
  match at_ input i with
  | None => Some buf
  | Some b =>
      match fuel with
      | 0 => None
      | S fuel' =>
          if startsCSI input i then
            i' <- skipCSISequence input (i + 2) ;;
            stripLoop fuel' input i' buf
          else if beq b escapeChar then
            i' <- skipOtherEscapeSequence input (i + 1) ;;
            stripLoop fuel' input i' buf
          else stripLoop fuel' input (S i) (buf ++ [b])
      end
  end.

Definition StripANSI (input : gostring) : option gostring :=
  stripLoop (length input) input 0 [].

(** [strings.Contains(input, "\033[")] *)
Definition HasANSI (input : gostring) : bool :=
  Contains input [ESC; "["%char].

Definition texts (segments : list segment) : gostring :=
  concat (map text segments).

(** A string without the escape byte. *)
Definition escFree (s : gostring) : Prop :=
  Forall (fun b => beq b escapeChar = false) s.

End Escape.

(** ** Regular expressions ([regexp]) *)

Module Regexp.

(** The syntax of the patterns the program uses. *)
Inductive regex : Type :=
| Empty                              (* the empty pattern *)
| Class (p : byte -> bool)           (* one byte of a class *)
| Cat (r1 r2 : regex)                (* r1 r2 *)
| Alt (r1 r2 : regex)                (* r1|r2, r1 preferred *)
| Star (r : regex)                   (* r*, longest first *)
| LazyStar (r : regex)               (* r*?, shortest first *)
| Group (n : nat) (r : regex)        (* capturing group number n *)
| Bol                                (* ^ *)
| Eol.                               (* $ *)

(** Capture offsets, the most recent binding of a group first. *)
Definition caps := list (nat * (nat * nat)).

(** A continuation: what is left to match, from an offset and the captures
    so far. *)
Definition cont := nat -> caps -> option caps.

(** The repetition of [body], at most [fuel] times, followed by [k].  The
    greedy form tries one more round first, the lazy form tries [k] first.
    A round that consumes nothing is not repeated. *)
Fixpoint iterate (greedy : bool) (body : nat -> caps -> cont -> option caps)
         (k : cont) (fuel : nat) (i : nat) (c : caps) {struct fuel} : option caps :=
  match fuel with
  | 0 => k i c
  | S fuel' =>
      let again : cont :=
        fun j c' => if i <? j then iterate greedy body k fuel' j c' else None in
      if greedy then
        match body i c again with
        | Some res => Some res
        | None => k i c
        end
      else
        match k i c with
        | Some res => Some res
        | None => body i c again
        end
  end.

(** [run r input i c k]: match [r] at offset [i], then go on with [k].  The
    alternatives are tried in the order of preference and the first one
    whose continuation succeeds is the result, as a backtracking search
    finds it. *)
Fixpoint run (r : regex) (input : gostring) (i : nat) (c : caps) (k : cont)
         {struct r} : option caps :=
  match r with
  | Empty => k i c
  | Class p =>
      match at_ input i with
      | Some b => if p b then k (S i) c else None
      | None => None
      end
  | Cat r1 r2 => run r1 input i c (fun j c' => run r2 input j c' k)
  | Alt r1 r2 =>
      match run r1 input i c k with
      | Some res => Some res
      | None => run r2 input i c k
      end
  | Star r1 => iterate true (run r1 input) k (length input) i c
  | LazyStar r1 => iterate false (run r1 input) k (length input) i c
  | Group n r1 => run r1 input i c (fun j c' => k j ((n, (i, j)) :: c'))
  | Bol => if i =? 0 then k i c else None
  | Eol => if i =? length input then k i c else None
  end.

(** The search for the leftmost match: the start offsets [start], [start+1],
    ... are tried in turn, [tries] more of them after [start]. *)
Fixpoint findFrom (tries : nat) (r : regex) (input : gostring) (start : nat)
  : option caps :=
  match run r input start [] (fun j c => Some ((0, (start, j)) :: c)) with
  | Some c => Some c
  | None =>
      match tries with
      | 0 => None
      | S tries' => findFrom tries' r input (S start)
      end
  end.

Definition find (r : regex) (input : gostring) : option caps :=
  findFrom (length input) r input 0.

Fixpoint lookup (n : nat) (c : caps) : option (nat * nat) :=
  match c with
  | [] => None
  | (m, span) :: c' => if m =? n then Some span else lookup n c'
  end.

(** The text of group [n]; a group that took no part in the match is [""]. *)
Definition submatch (input : gostring) (c : caps) (n : nat) : gostring :=
  match lookup n c with
  | Some (a, b) => slice input a b
  | None => []
  end.

(** [re.MatchString(s)] *)
Definition MatchString (r : regex) (s : gostring) : bool :=
  match find r s with
  | Some _ => true
  | None => false
  end.

(** [re.FindStringSubmatch(s)]: [None] is Go's [nil]; otherwise the function
    [n => matches[n]]. *)
Definition FindStringSubmatch (r : regex) (s : gostring) : option (nat -> gostring) :=
  match find r s with
  | Some c => Some (submatch s c)
  | None => None
  end.

(** *** Derived forms *)

Definition Never : regex := Class (fun _ => false).

(** A literal text. *)
Fixpoint lit (s : String.string) : regex :=
  match s with
  | String.EmptyString => Empty
  | String.String a String.EmptyString => Class (beq a)
  | String.String a s' => Cat (Class (beq a)) (lit s')
  end.

(** [r1|r2|...] *)
Fixpoint Alts (rs : list regex) : regex :=
  match rs with
  | [] => Never
  | [r] => r
  | r :: rs' => Alt r (Alts rs')
  end.

(** [a|b|...] for a list of literal texts. *)
Definition words (ws : list String.string) : regex := Alts (map lit ws).

(** [r1 r2 ...] *)
Fixpoint Seq (rs : list regex) : regex :=
  match rs with
  | [] => Empty
  | [r] => r
  | r :: rs' => Cat r (Seq rs')
  end.

Definition Plus (r : regex) : regex := Cat r (Star r).       (* r+ *)
Definition Opt (r : regex) : regex := Alt r Empty.           (* r? *)

(** [r{n}] *)
Fixpoint Rep (n : nat) (r : regex) : regex :=
  match n with
  | 0 => Empty
  | 1 => r
  | S n' => Cat r (Rep n' r)
  end.

(** [r{0,n}] *)
Fixpoint UpTo (n : nat) (r : regex) : regex :=
  match n with
  | 0 => Empty
  | S n' => Opt (Cat r (UpTo n' r))
  end.

Definition Range (lo hi : nat) (r : regex) : regex :=       (* r{lo,hi} *)
  Cat (Rep lo r) (UpTo (hi - lo) r).
Definition AtLeast (n : nat) (r : regex) : regex :=         (* r{n,} *)
  Cat (Rep n r) (Star r).

(** *** Static bounds *)

(** The least number of bytes a match of [r] consumes. *)
Fixpoint minLen (r : regex) : nat :=
  match r with
  | Empty | Bol | Eol => 0
  | Class _ => 1
  | Cat r1 r2 => minLen r1 + minLen r2
  | Alt r1 r2 => Nat.min (minLen r1) (minLen r2)
  | Star _ | LazyStar _ => 0
  | Group _ r1 => minLen r1
  end.

(** [late n m r]: in [r] every group of number [n] stands behind a part
    that consumes [m] bytes or more. *)
Fixpoint late (n m : nat) (r : regex) : bool :=
  match r with
  | Empty | Bol | Eol | Class _ => true
  | Cat r1 r2 => late n m r1 && late n (m - minLen r1) r2
  | Alt r1 r2 => late n m r1 && late n m r2
  | Star r1 | LazyStar r1 => late n m r1
  | Group g r1 => (if g =? n then m =? 0 else true) && late n m r1
  end.

(** The captures of group [n] among [new] start at [i + m] or later and
    end at [j] or before. *)
Definition within (n i m j : nat) (new : caps) : Prop :=
  forall a b, In (n, (a, b)) new -> i + m <= a /\ b <= j.

(** What a successful run from [i] hands to its continuation [k]: an
    offset [j] inside the input, [least] bytes further or more, and new
    captures within the bounds. *)
Definition reaches (n m : nat) (input : gostring) (i least : nat) (c : caps)
           (k : cont) (res : caps) : Prop :=
  exists j new,
    k j (new ++ c) = Some res /\ i + least <= j /\ j <= length input /\
    within n i m j new.

(** *** Classes *)

Definition isDigit (b : byte) : bool := in_range 48 57 b.            (* \d *)
Definition isUpper (b : byte) : bool := in_range 65 90 b.
Definition isLower (b : byte) : bool := in_range 97 122 b.
Definition isWord (b : byte) : bool :=                               (* \w *)
  isDigit b || isUpper b || isLower b || beq b "_"%char.
Definition isReSpace (b : byte) : bool :=                            (* \s *)
  beq b TAB || beq b LF || beq b "012"%char || beq b CR || beq b " "%char.
Definition isHex (b : byte) : bool :=                                (* 0-9a-fA-F *)
  isDigit b || in_range 97 102 b || in_range 65 70 b.
Definition oneOf (s : String.string) (b : byte) : bool := existsb (beq b) (str s).
Definition noneOf (s : String.string) (b : byte) : bool := negb (oneOf s b).
Definition notNewline (b : byte) : bool := negb (beq b LF).          (* . *)

Definition d : regex := Class isDigit.
Definition w : regex := Class isWord.
Definition s : regex := Class isReSpace.
Definition ch (a : byte) : regex := Class (beq a).

End Regexp.

(** ** Keyword sets and patterns ([lexer.go], package variables) *)

Module Tables.

Import Regexp.
Local Open Scope string_scope.

(** A [map[string]bool] literal whose values are all [true], as the list
    of its keys; [m[key]] is [member key m]. *)
Definition member (key : gostring) (m : list String.string) : bool :=
  existsb (fun k => eqs (str k) key) m.

Definition commands : list String.string :=
  ["set"; "delete"; "deactivate"; "activate"; "protect"; "unprotect"; "edit"; "show";
   "request"; "run"; "insert"; "rename"; "copy"; "top"; "up"; "exit"; "quit"; "commit";
   "rollback"; "load"; "save"; "configure"; "cli"; "help"; "clear"; "restart"; "start";
   "stop"; "monitor"; "ping"; "traceroute"; "ssh"; "telnet"].

Definition sections : list String.string :=
  ["system"; "chassis"; "interfaces"; "routing-options"; "routing-instances";
   "protocols"; "policy-options"; "firewall"; "security"; "class-of-service";
   "applications"; "services"; "snmp"; "forwarding-options"; "groups"; "apply-groups";
   "apply-groups-except"; "vlans"; "bridge-domains"; "virtual-chassis";
   "multi-chassis"; "access"; "ethernet-switching-options"; "switch-options"; "poe";
   "event-options"; "accounting-options"; "logical-systems"; "tenants"; "evpn";
   "vxlan"; "mac-vrf"; "virtual-switch"; "overlay"; "underlay"; "dynamic-profiles";
   "subscriber-management"; "unified-edge"; "diameter"; "aaa"; "address-assignment";
   "access-profile"; "openconfig"; "telemetry"; "streaming-telemetry"; "grpc"; "gnmi"].

Definition protocols : list String.string :=
  ["ospf"; "ospf3"; "bgp"; "isis"; "is-is"; "rip"; "ripng"; "ldp"; "rsvp"; "mpls";
   "vpls"; "evpn"; "pim"; "igmp"; "mld"; "msdp"; "bfd"; "lacp"; "lldp"; "lldp-med";
   "rstp"; "mstp"; "vstp"; "stp"; "vrrp"; "dot1x"; "oam"; "cfm"; "tcp"; "udp"; "icmp";
   "icmp6"; "icmpv6"; "gre"; "ipip"; "esp"; "ah"; "sctp"; "inet"; "inet6"; "iso";
   "ccc"; "bridge"; "ethernet-switching"; "inet-vpn"; "inet6-vpn"; "l2vpn"; "ssh";
   "telnet"; "ftp"; "tftp"; "http"; "https"; "ntp"; "dns"; "dhcp"; "radius"; "tacplus";
   "syslog"; "netconf"; "junoscript"; "vxlan"; "vtep"; "vni"; "esi"; "l2circuit";
   "l3vpn"; "mc-lag"; "igmp-snooping"; "mld-snooping"; "l2-learning";
   "source-packet-routing"; "spring"; "srv6"; "segment-routing"; "pcep"; "te"; "sr-te";
   "sr-mpls"; "sr-policy"; "pppoe"; "ppp"; "l2tp"; "dhcpv6"; "diameter"; "gx"; "gy";
   "nasreq"; "subscriber"; "ike"; "ipsec"; "alg"; "sip"; "h323"; "mgcp"; "sccp";
   "rtsp"; "pptp"; "sunrpc"; "msrpc"; "gnmi"; "grpc"; "openconfig"].

Definition actions : list String.string :=
  ["accept"; "reject"; "discard"; "deny"; "permit"; "next"; "next-term"; "count";
   "log"; "syslog"; "sample"; "port-mirror"; "analyzer"; "next-hop"; "self"; "table";
   "policy"; "community"; "local-preference"; "metric"; "origin"; "as-path";
   "as-path-prepend"; "med"; "preference"; "tag"; "color"; "color2"; "load-balance";
   "install-nexthop"; "loss-priority"; "loss-priority-high"; "loss-priority-low";
   "loss-priority-medium-high"; "loss-priority-medium-low"; "forwarding-class";
   "forwarding-class-except"; "policer"; "three-color-policer"; "dscp";
   "traffic-class"; "tunnel"; "ipsec-vpn"; "source-nat"; "destination-nat";
   "static-nat"; "first-fragment"; "fragment-offset"; "fragment-offset-except";
   "is-fragment"; "fragment-flags"; "tcp-initial"; "tcp-established"; "tcp-flags";
   "syn"; "ack"; "fin"; "rst"; "push"; "urgent"; "icmp-type"; "icmp-type-except";
   "icmp-code"; "icmp-code-except"; "packet-length"; "packet-length-except"; "ttl";
   "ttl-except"; "hop-limit"; "hop-limit-except"; "payload-protocol";
   "payload-protocol-except"; "traffic-type"; "traffic-type-except";
   "source-mac-address"; "destination-mac-address"; "ether-type"; "vlan-ether-type";
   "user-vlan-id"; "learn-vlan-id"; "dot1q-tag"; "dot1q-user-priority"; "interface";
   "interface-group"; "interface-group-except"; "interface-set"; "ifl-number";
   "input-interface"; "output-interface"; "next-header"; "next-header-except";
   "extension-header"; "extension-header-except"; "ip-options"; "ip-options-except";
   "flexible-match-mask"; "flexible-match-range"; "loss-priority-except";
   "packet-length-range"; "port-except"; "prefix-list-except"; "source-class";
   "destination-class"; "service-filter-hit"; "policy-map"].

Definition keywords : list String.string :=
  ["version"; "host-name"; "domain-name"; "name-server"; "root-authentication";
   "login"; "user"; "class"; "authentication"; "encrypted-password"; "ssh-rsa";
   "ssh-dsa"; "ssh-ecdsa"; "ssh-ed25519"; "description"; "disable"; "enable";
   "inactive"; "apply-macro"; "apply-path"; "unit"; "family"; "address"; "vlan-id";
   "vlan-tagging"; "flexible-vlan-tagging"; "native-vlan-id"; "mtu"; "speed"; "duplex";
   "auto-negotiation"; "no-auto-negotiation"; "gigether-options"; "ether-options";
   "aggregated-ether-options"; "link-speed"; "minimum-links"; "lacp"; "active";
   "passive"; "fast"; "slow"; "force-up"; "interface-range"; "member"; "members";
   "interface-mode"; "trunk"; "access"; "scripts"; "language"; "synchronize";
   "login-alarms"; "login-tip"; "permissions"; "uid"; "gid"; "password"; "format";
   "port"; "root-login"; "protocol-version"; "auto-snapshot"; "time-zone"; "filter";
   "term"; "from"; "then"; "source-address"; "destination-address"; "source-port";
   "destination-port"; "source-prefix-list"; "destination-prefix-list"; "protocol";
   "prefix-list"; "prefix-list-filter"; "route-filter"; "community-count";
   "as-path-group"; "rib-group"; "rib"; "static"; "route"; "qualified-next-hop";
   "preference"; "tag"; "no-readvertise"; "retain"; "no-retain"; "discard"; "reject";
   "receive"; "aggregate"; "generate"; "martians"; "router-id"; "autonomous-system";
   "confederation"; "instance-type"; "interface-routes"; "area"; "interface";
   "neighbor"; "group"; "type"; "peer-as"; "local-as"; "import"; "export";
   "local-address"; "authentication-key"; "authentication-type";
   "bfd-liveness-detection"; "minimum-interval"; "multiplier"; "hold-time"; "damping";
   "multihop"; "no-client-reflect"; "cluster"; "remove-private"; "default-metric";
   "reference-bandwidth"; "traffic-engineering"; "shortcuts"; "no-nssa-abr"; "stub";
   "nssa"; "default-lsa"; "summaries"; "virtual-link"; "transit-area";
   "label-switched-path"; "path"; "primary"; "secondary"; "standby"; "bandwidth";
   "priority"; "hop-limit"; "record"; "cspf"; "node-link-protection"; "fast-reroute";
   "detour"; "admin-group"; "include"; "include-any"; "exclude"; "optimize-timer";
   "revert-timer"; "signaled-bandwidth"; "zone"; "security-zone"; "address-book";
   "host-inbound-traffic"; "system-services"; "policies"; "policy"; "match";
   "application"; "source-zone"; "destination-zone"; "nat"; "source"; "destination";
   "pool"; "rule-set"; "rule"; "translation-type"; "translated"; "screen";
   "ids-option"; "icmp"; "ip"; "tcp-rst"; "session-close"; "alarm-threshold"; "flow";
   "tcp-session"; "tcp-mss"; "allow-dns-reply"; "allow-embedded-icmp"; "ike";
   "gateway"; "proposal"; "ipsec"; "vpn"; "tunnel"; "establish-tunnels"; "immediately";
   "on-traffic"; "responder-only"; "bind-interface"; "ike-policy"; "ipsec-policy";
   "pre-shared-key"; "ascii-text"; "certificate"; "local-identity"; "remote-identity";
   "dead-peer-detection"; "interval"; "threshold"; "general-ikeid"; "no-anti-replay";
   "trap-group"; "trap-options"; "categories"; "targets"; "community-name";
   "authorization"; "read-only"; "read-write"; "view"; "client-list"; "interface-list";
   "location"; "contact"; "community"; "storm-control-profiles"; "storm-control";
   "analyzer"; "port-mirroring"; "helpers"; "ip-version"; "ip-protocol"; "ipv4";
   "ipv6"; "ip-destination-address"; "ip-source-address"; "ip6-destination-address";
   "ip6-source-address"; "router-advertisement"; "router-solicitation";
   "neighbor-advertisement"; "neighbor-solicitation"; "dhcpv6-client"; "dhcp-client";
   "client-type"; "client-ia-type"; "ia-na"; "ia-pd"; "rapid-commit";
   "client-identifier"; "duid-type"; "duid-llt"; "duid-ll"; "stateful"; "stateless";
   "default"; "inactive:"; "vni"; "vtep-source-interface"; "extended-vni-list";
   "encapsulation"; "multicast-mode"; "ingress-replication"; "route-distinguisher";
   "vrf-target"; "vrf-import"; "vrf-export"; "vrf-table-label"; "auto-export";
   "auto-rt"; "ethernet-segment"; "esi"; "all-active"; "single-active";
   "designated-forwarder-election"; "df-election-type"; "recovery-timer";
   "default-gateway"; "advertise-default-gateway"; "no-arp-suppression"; "proxy-arp";
   "proxy-nd"; "virtual-router"; "vrf"; "layer2-control"; "interconnect";
   "no-vrf-propagate-ttl"; "iccp"; "peer"; "liveness-detection"; "redundancy-group";
   "preempt"; "node-segment"; "index-range"; "srgb"; "srlb"; "sid"; "prefix-segment";
   "adjacency-segment"; "binding-segment"; "tilfa"; "ti-lfa"; "post-convergence-lfa";
   "backup-selection"; "segment-list"; "compute"; "explicit"; "sr-te-template";
   "lsp-external-controller"; "pce-controlled"; "delegate"; "report"; "stateful-pce";
   "pce-peer"; "destination-prefix"; "locator"; "end-sid"; "end-x-sid"; "end-dt";
   "source-routing-header"; "encapsulation-mode"; "demux-source";
   "underlying-interface"; "client-profile"; "server-profile"; "ppp-options";
   "pppoe-options"; "service-name-table"; "max-sessions"; "session-limit";
   "service-profile"; "authentication-order"; "accounting"; "radius-server";
   "tacplus-server"; "secret"; "timeout"; "retry"; "network"; "range"; "low"; "high";
   "dhcp-attributes"; "option"; "option-82"; "relay-option"; "relay-agent-information";
   "subscriber-id"; "agent-circuit-id"; "agent-remote-id"; "lns"; "lac";
   "l2tp-access-profile"; "receive-window"; "retransmit-interval";
   "maximum-receive-window"; "tunnel-group"; "traffic-control";
   "traffic-control-profile"; "scheduler-map"; "shaping-rate"; "guaranteed-rate";
   "sensor"; "sensor-name"; "resource"; "reporting-rate"; "polling-interval";
   "change-update"; "on-change"; "target-defined"; "export-profile"; "local-port";
   "remote-address"; "remote-port"; "transport"; "encoding"; "subscription"; "xpath";
   "sensor-based-stats"; "file"; "commit-script"; "op-script"; "event-script"; "slax";
   "python"; "allow-commands"; "deny-commands"; "extension-service";
   "request-response"; "notification"].

Definition valueKeywords : list String.string :=
  ["description"; "host-name"; "domain-name"; "name-server"; "encrypted-password";
   "authentication-key"; "pre-shared-key"; "ascii-text"; "community-name"; "version"].

Definition statesGood : list String.string :=
  ["up"; "establ"; "established"; "full"; "master"; "primary"; "enabled"; "ok";
   "online"; "running"; "ready"; "complete"].

Definition statesBad : list String.string :=
  ["down"; "idle"; "failed"; "error"; "offline"; "disabled"; "unreachable"; "timeout";
   "active"; "connect"; "opensent"; "openconfirm"].

Definition statesWarning : list String.string :=
  ["init"; "2way"; "exstart"; "exchange"; "loading"; "flapping"; "pending"; "waiting";
   "starting"; "stopping"].

Definition statesNeutral : list String.string :=
  ["inactive"; "standby"; "backup"; "n/a"; "none"].

Definition columnHeaders : list String.string :=
  ["neighbor"; "peer"; "state"; "interface"; "admin"; "link"; "proto"; "local";
   "remote"; "as"; "inpkt"; "outpkt"; "flaps"; "uptime"; "up/dn"; "mtu"; "speed";
   "type"; "area"; "dr"; "bdr"; "metric"; "localpref"; "med"; "nexthop"; "gateway";
   "flags"; "outq"; "prefixes"; "paths"].

Definition statusSymbols : list String.string :=
  ["*"; "+"; "-"; ">"; "B"; "O"; "I"; "S"; "L"; "D"].

Definition dot_number : regex := Cat (lit ".") (Plus d).            (* \.\d+ *)

Definition interfacePattern : regex :=
  Alts
    [Seq [Bol;
          Group 1 (Alts [Cat (Class (oneOf "gx")) (lit "e"); lit "et"; lit "so";
                         lit "fe"; lit "at"; lit "t1"; lit "t3"; lit "e1"; lit "e3";
                         lit "mge"; lit "vcp"; lit "si"; lit "lsq"; lit "rlsq"]);
          lit "-"; Plus d; lit "/"; Plus d; lit "/"; Plus d;
          Opt (Group 2 (Cat (lit ":") (Plus d)));
          Opt (Group 3 dot_number); Eol];
     Seq [Bol;
          Group 4 (words ["ae"; "reth"; "lo"; "em"; "me"; "irb"; "vlan"; "fab"; "gr";
                          "ip"; "vt"; "lt"; "ms"; "sp"; "pp"; "pd"; "pe"; "demux";
                          "dsc"; "mtun"; "pimd"; "pime"; "tap"; "lsi"; "st"; "vtep";
                          "fti"; "jsrv"; "gre"; "ipip"]);
          Star d; Opt (Group 5 dot_number); Eol];
     Seq [Bol; Class (oneOf "efm"); lit "xp"; Plus d; Opt (Group 6 dot_number); Eol];
     Seq [Bol; lit "vme"; Opt (Group 7 dot_number); Eol];
     Seq [Bol; lit "all"; Eol]].

(** [^(\d{1,3}\.){3}\d{1,3}$] *)
Definition ipv4Pattern : regex :=
  Seq [Bol; Rep 3 (Group 1 (Cat (Range 1 3 d) (lit "."))); Range 1 3 d; Eol].

(** [^(\d{1,3}\.){3}\d{1,3}/\d{1,2}$] *)
Definition ipv4PrefixPattern : regex :=
  Seq [Bol; Rep 3 (Group 1 (Cat (Range 1 3 d) (lit "."))); Range 1 3 d;
       lit "/"; Range 1 2 d; Eol].

Definition hexOrColon : regex := Class (fun b => isHex b || beq b ":"%char).
Definition hex : regex := Class isHex.

(** [^[0-9a-fA-F:]+:[0-9a-fA-F:]*$] *)
Definition ipv6Pattern : regex :=
  Seq [Bol; Plus hexOrColon; lit ":"; Star hexOrColon; Eol].

(** [^[0-9a-fA-F:]+:[0-9a-fA-F:]*/\d{1,3}$] *)
Definition ipv6PrefixPattern : regex :=
  Seq [Bol; Plus hexOrColon; lit ":"; Star hexOrColon; lit "/"; Range 1 3 d; Eol].

(** [^([0-9a-fA-F]{2}:){5}[0-9a-fA-F]{2}(/\d{1,2})?$] *)
Definition macPattern : regex :=
  Seq [Bol; Rep 5 (Group 1 (Cat (Rep 2 hex) (lit ":"))); Rep 2 hex;
       Opt (Group 2 (Cat (lit "/") (Range 1 2 d))); Eol].

(** [^\d+[gmkGMK]?$] *)
Definition numberPattern : regex :=
  Seq [Bol; Plus d; Opt (Class (oneOf "gmkGMK")); Eol].

(** [^\d+:\d+$] *)
Definition communityPattern : regex := Seq [Bol; Plus d; lit ":"; Plus d; Eol].

(** [^[Aa][Ss]\d+$] *)
Definition asnPattern : regex :=
  Seq [Bol; Class (oneOf "Aa"); Class (oneOf "Ss"); Plus d; Eol].

(** [^\d+$] *)
Definition unitNumberPattern : regex := Seq [Bol; Plus d; Eol].

(** [^(\d+[wdhms])+$|^\d+:\d{2}(:\d{2})?$] *)
Definition timeDurationPattern : regex :=
  Alt (Seq [Bol; Plus (Group 1 (Cat (Plus d) (Class (oneOf "wdhms")))); Eol])
      (Seq [Bol; Plus d; lit ":"; Rep 2 d; Opt (Group 2 (Cat (lit ":") (Rep 2 d))); Eol]).

(** [^\d+(\.\d+)?%$] *)
Definition percentagePattern : regex :=
  Seq [Bol; Plus d; Opt (Group 1 dot_number); lit "%"; Eol].

(** [^\d+(\.\d+)?[KMGTP][Bb]?$] *)
Definition byteSizePattern : regex :=
  Seq [Bol; Plus d; Opt (Group 1 dot_number); Class (oneOf "KMGTP");
       Opt (Class (oneOf "Bb")); Eol].

(** [^\[(BGP|OSPF|OSPF3|ISIS|RIP|Static|Direct|Local|Aggregate)/\d+\]$] *)
Definition routeProtocolPattern : regex :=
  Seq [Bol; lit "[";
       Group 1 (words ["BGP"; "OSPF"; "OSPF3"; "ISIS"; "RIP"; "Static"; "Direct";
                       "Local"; "Aggregate"]);
       lit "/"; Plus d; lit "]"; Eol].

(** [^(inet|inet6|mpls|bgp|iso|l2vpn)\.\d+:?$] *)
Definition tableNamePattern : regex :=
  Seq [Bol; Group 1 (words ["inet"; "inet6"; "mpls"; "bgp"; "iso"; "l2vpn"]);
       lit "."; Plus d; Opt (lit ":"); Eol].

(** [\w+\s{2,}\w+\s{2,}\w+] *)
Definition tabularPattern : regex :=
  Seq [Plus w; AtLeast 2 s; Plus w; AtLeast 2 s; Plus w].

(** The prompt pattern: [^], then in sequence
    - group 1, optional: [\{[^}]+\}]
    - group 2, optional: [\[edit[^\]]*\]]
    - group 3: [[\s\x00-\x1f]*]
    - group 4: [[\w-]+], then [@]
    - group 5: [[\w.-]+]
    - group 6: [[>#]]
    - group 7: [\s*]
    - group 8: [.*?]
    and then [\n?$]. *)
Definition promptPattern : regex :=
  Seq [Bol;
       Opt (Group 1 (Seq [lit "{"; Plus (Class (noneOf "}")); lit "}"]));
       Opt (Group 2 (Seq [lit "[edit"; Star (Class (noneOf "]")); lit "]"]));
       Group 3 (Star (Class (fun b => isReSpace b || in_range 0 31 b)));
       Group 4 (Plus (Class (fun b => isWord b || beq b "-"%char)));
       lit "@";
       Group 5 (Plus (Class (fun b => isWord b || oneOf ".-" b)));
       Group 6 (Class (oneOf ">#"));
       Group 7 (Star s);
       Group 8 (LazyStar (Class notNewline));
       Opt (ch LF);
       Eol].

End Tables.

(** ** Tokens ([token.go]) *)

Module Token.

Inductive TokenType : Type :=
| TokenText | TokenCommand | TokenSection | TokenProtocol | TokenAction
| TokenInterface | TokenIPv4 | TokenIPv4Prefix | TokenIPv6 | TokenIPv6Prefix
| TokenMAC | TokenNumber | TokenString | TokenComment | TokenAnnotation
| TokenBrace | TokenSemicolon | TokenWildcard | TokenIdentifier | TokenKeyword
| TokenOperator | TokenUnit | TokenASN | TokenCommunity | TokenValue
| TokenStateGood | TokenStateBad | TokenStateWarning | TokenStateNeutral
| TokenColumnHeader | TokenStatusSymbol | TokenTimeDuration | TokenPercentage
| TokenByteSize | TokenRouteProtocol | TokenTableName
| TokenPromptUser | TokenPromptAt | TokenPromptHostOper | TokenPromptHostConf
| TokenPromptOper | TokenPromptConf | TokenPromptEdit
| TokenDiffAdd | TokenDiffRemove | TokenDiffContext.

(** [type Token struct { Type TokenType; Value string; Line int; Column int }];
    the field [Type] is [Type_] here. *)
Record Token : Type := mkToken {
  Type_ : TokenType;
  Value : gostring;
  Line : nat;
  Column : nat
}.

Definition isText (t : TokenType) : bool :=
  match t with
  | TokenText => true
  | _ => false
  end.

Definition withType (tok : Token) (t : TokenType) : Token :=
  mkToken t (Value tok) (Line tok) (Column tok).

Definition withColumn (tok : Token) (c : nat) : Token :=
  mkToken (Type_ tok) (Value tok) (Line tok) c.

(** The concatenation of the values of a token sequence. *)
Definition values (tokens : list Token) : gostring :=
  concat (map Value tokens).

End Token.

(** ** The lexer ([lexer.go]) *)

Module Lex.

Import Regexp Tables.
Export Token.

Definition parseModeDetectionSampleSize : nat := 500.

Inductive ParseMode : Type := ParseModeAuto | ParseModeConfig | ParseModeShow.

Definition isAuto (m : ParseMode) : bool :=
  match m with ParseModeAuto => true | _ => false end.
Definition isShow (m : ParseMode) : bool :=
  match m with ParseModeShow => true | _ => false end.

Record Lexer : Type := mkLexer {
  input : gostring;
  pos : nat;
  line : nat;
  col : nat;
  parseMode : ParseMode;
  detectedMode : bool;
  expectingValue : bool;
  expectingUnit : bool;
  lastToken : gostring
}.

(** Field updates. *)
Definition setCursor (l : Lexer) (p ln c : nat) : Lexer :=
  mkLexer (input l) p ln c (parseMode l) (detectedMode l)
          (expectingValue l) (expectingUnit l) (lastToken l).
Definition setMode (l : Lexer) (m : ParseMode) (detected : bool) : Lexer :=
  mkLexer (input l) (pos l) (line l) (col l) m detected
          (expectingValue l) (expectingUnit l) (lastToken l).
Definition setExpectingValue (l : Lexer) (v : bool) : Lexer :=
  mkLexer (input l) (pos l) (line l) (col l) (parseMode l) (detectedMode l)
          v (expectingUnit l) (lastToken l).
Definition setExpectingUnit (l : Lexer) (v : bool) : Lexer :=
  mkLexer (input l) (pos l) (line l) (col l) (parseMode l) (detectedMode l)
          (expectingValue l) v (lastToken l).
Definition setLastToken (l : Lexer) (t : gostring) : Lexer :=
  mkLexer (input l) (pos l) (line l) (col l) (parseMode l) (detectedMode l)
          (expectingValue l) (expectingUnit l) t.

(** [New(input)] *)
Definition New (input : gostring) : Lexer :=
  mkLexer input 0 1 1 ParseModeAuto false false false [].

(** [l.SetParseMode(mode)] *)
Definition SetParseMode (l : Lexer) (mode : ParseMode) : Lexer :=
  setMode l mode true.

(** [l.GetParseMode()] *)
Definition GetParseMode (l : Lexer) : ParseMode := parseMode l.

(** *** Helper methods *)

(** [l.advance()] *)
Definition advance (l : Lexer) : Lexer :=
  match at_ (input l) (pos l) with
  | Some b =>
      if beq b LF then setCursor l (S (pos l)) (S (line l)) 1
      else setCursor l (S (pos l)) (line l) (S (col l))
  | None => l
  end.

(** [l.peek(offset)] *)
Definition peek (l : Lexer) (offset : nat) : byte :=
  match at_ (input l) (pos l + offset) with
  | Some b => b
  | None => NUL
  end.

Definition isWhitespace (ch : byte) : bool :=
  beq ch " "%char || beq ch TAB || beq ch LF || beq ch CR.

(** [for l.pos < len(l.input) && p(l.input[l.pos]) { l.advance() }] *)
Fixpoint advanceWhile (fuel : nat) (p : byte -> bool) (l : Lexer) : option Lexer :=
  match at_ (input l) (pos l) with
  | Some b =>
      if p b then
        match fuel with
        | 0 => None
        | S fuel' => advanceWhile fuel' p (advance l)
        end
      else Some l
  | None => Some l
  end.

(** *** The parse-mode detector *)

Definition configIndicators : list gostring :=
  map str ["set "; "delete "; "{"; "}"; ";"; "host-name"; "policy-statement"]%string.

Definition showIndicators : list gostring :=
  map str ["establ"; "idle"; "2way";
           "inet.0"; "inet6.0"; "bgp.evpn";
           "flaps"; "up/dn";
           "physical interface"; "logical interface"]%string.

(** [for _, ind := range inds { if strings.Contains(lower, ind) { score++ } }] *)
Definition scoreIndicators (lower : gostring) (inds : list gostring) (score : nat) : nat :=
  fold_left (fun score ind => if Contains lower ind then S score else score) inds score.

(** [l.detectParseMode()] *)
Definition detectParseMode (l : Lexer) : ParseMode :=
  let sample := input l in
  let sample :=
    if parseModeDetectionSampleSize <? length sample
    then slice sample 0 parseModeDetectionSampleSize
    else sample in
  let lower := ToLower sample in
  let configScore := scoreIndicators lower configIndicators 0 in
  let showScore := scoreIndicators lower showIndicators 0 in
  let showScore := if MatchString tabularPattern sample then showScore + 2 else showScore in
  if (2 <=? showScore) && (configScore <? showScore) then ParseModeShow
  else ParseModeConfig.

(** *** Classification *)

(** [l.classifySharedPatterns(word)] *)
Definition classifySharedPatterns (word : gostring) : TokenType :=
  if MatchString interfacePattern word then TokenInterface
  else if MatchString ipv4PrefixPattern word then TokenIPv4Prefix
  else if MatchString ipv4Pattern word then TokenIPv4
  else if MatchString macPattern word then TokenMAC
  else if MatchString communityPattern word then TokenCommunity
  else if MatchString ipv6PrefixPattern word then TokenIPv6Prefix
  else if MatchString ipv6Pattern word then TokenIPv6
  else if MatchString numberPattern word then TokenNumber
  else TokenIdentifier.

(** [l.classifyConfigWord(word, lower)] *)
Definition classifyConfigWord (word lower : gostring) (l : Lexer) : TokenType * Lexer :=
  if expectingUnit l && MatchString unitNumberPattern word then
    (TokenUnit, setExpectingUnit l false)
  else if MatchString asnPattern word then (TokenASN, l)
  else if member lower commands then (TokenCommand, setLastToken l lower)
  else if member lower sections then (TokenSection, setLastToken l lower)
  else if member lower protocols then (TokenProtocol, setLastToken l lower)
  else if member lower actions then (TokenAction, setLastToken l lower)
  else if member lower keywords then
    let l := if member lower valueKeywords then setExpectingValue l true else l in
    let l := if eqs lower (str "unit") then setExpectingUnit l true else l in
    (TokenKeyword, setLastToken l lower)
  else (classifySharedPatterns word, l).

(** [l.classifyShowWord(word, lower)] *)
Definition classifyShowWord (word lower : gostring) (l : Lexer) : TokenType * Lexer :=
  if member lower statesGood then (TokenStateGood, l)
  else if member lower statesBad then (TokenStateBad, l)
  else if member lower statesWarning then (TokenStateWarning, l)
  else if member lower statesNeutral then (TokenStateNeutral, l)
  else if (length word <=? 2) && member word statusSymbols then (TokenStatusSymbol, l)
  else if MatchString timeDurationPattern word then (TokenTimeDuration, l)
  else if MatchString percentagePattern word then (TokenPercentage, l)
  else if MatchString byteSizePattern word then (TokenByteSize, l)
  else if MatchString routeProtocolPattern word then (TokenRouteProtocol, l)
  else if MatchString tableNamePattern lower then (TokenTableName, l)
  else if member lower columnHeaders then (TokenColumnHeader, l)
  else (classifySharedPatterns word, l).

(** [l.classifyWord(word)] *)
Definition classifyWord (word : gostring) (l : Lexer) : TokenType * Lexer :=
  let l :=
    if isAuto (parseMode l) && negb (detectedMode l)
    then setMode l (detectParseMode l) true
    else l in
  let lower := ToLower word in
  if isShow (parseMode l) then classifyShowWord word lower l
  else classifyConfigWord word lower l.

(** *** Scanners *)

Definition untilNewline (b : byte) : bool := negb (beq b LF).

(** [l.scanDiffLine()]: [Some (tok, l')] is the result [(tok, true)] with the
    lexer after it; [None] is the result [(Token{}, false)], which leaves the
    lexer as it was. *)
Definition scanDiffLine (l : Lexer) : option (option (Token * Lexer)) :=
  let startLine := line l in
  let startCol := col l in
  let start := pos l in
  ch <- at_ (input l) (pos l) ;;
  if beq ch "["%char && (pos l + 5 <? length (input l))
     && eqs (slice (input l) (pos l) (pos l + 5)) (str "[edit")
  then
    l' <- advanceWhile (length (input l)) untilNewline l ;;
    v <- substr (input l') start (pos l') ;;
    Some (Some (mkToken TokenDiffContext v startLine startCol, l'))
  else if (beq ch "+"%char || beq ch "-"%char) && (pos l + 1 <? length (input l))
  then
    next <- at_ (input l) (pos l + 1) ;;
    if beq next " "%char || beq next TAB then
      let tokenType := if beq ch "-"%char then TokenDiffRemove else TokenDiffAdd in
      Some (Some (mkToken tokenType [ch] startLine startCol, advance l))
    else Some None
  else Some None.

(** [l.scanComment()] *)
Definition scanComment (l : Lexer) : option (Token * Lexer) :=
  let startLine := line l in
  let startCol := col l in
  let start := pos l in
  let tokenType := if beq (peek l 1) "#"%char then TokenAnnotation else TokenComment in
  l' <- advanceWhile (length (input l)) untilNewline l ;;
  v <- substr (input l') start (pos l') ;;
  Some (mkToken tokenType v startLine startCol, l').

(** The loop of [scanBlockComment]: [for l.pos < len(l.input)-1 { ... }]. *)
Fixpoint blockCommentLoop (fuel : nat) (l : Lexer) : option Lexer :=
  if pos l <? length (input l) - 1 then
    match fuel with
    | 0 => None
    | S fuel' =>
        a <- at_ (input l) (pos l) ;;
        b <- at_ (input l) (pos l + 1) ;;
        if beq a "*"%char && beq b "/"%char then Some (advance (advance l))
        else blockCommentLoop fuel' (advance l)
    end
  else Some l.

(** [l.scanBlockComment()] *)
Definition scanBlockComment (l : Lexer) : option (Token * Lexer) :=
  let startLine := line l in
  let startCol := col l in
  let start := pos l in
  let l := advance l in
  let l := advance l in
  l' <- blockCommentLoop (length (input l)) l ;;
  v <- substr (input l') start (pos l') ;;
  Some (mkToken TokenComment v startLine startCol, l').

(** The loop of [scanString]. *)
Fixpoint stringLoop (fuel : nat) (quote : byte) (l : Lexer) : option Lexer :=
  match at_ (input l) (pos l) with
  | None => Some l
  | Some ch =>
      match fuel with
      | 0 => None
      | S fuel' =>
          if beq ch quote then Some (advance l)
          else
            let l :=
              if beq ch "\"%char && (pos l + 1 <? length (input l))
              then advance l else l in
            stringLoop fuel' quote (advance l)
      end
  end.

(** [l.scanString(quote)] *)
Definition scanString (quote : byte) (l : Lexer) : option (Token * Lexer) :=
  let startLine := line l in
  let startCol := col l in
  let start := pos l in
  let l := advance l in
  l' <- stringLoop (length (input l)) quote l ;;
  v <- substr (input l') start (pos l') ;;
  Some (mkToken TokenString v startLine startCol, l').

(** [l.scanBrace()] *)
Definition scanBrace (l : Lexer) : option (Token * Lexer) :=
  let startLine := line l in
  let startCol := col l in
  ch <- at_ (input l) (pos l) ;;
  Some (mkToken TokenBrace [ch] startLine startCol, advance l).

(** [l.scanSemicolon()] *)
Definition scanSemicolon (l : Lexer) : option (Token * Lexer) :=
  let startLine := line l in
  let startCol := col l in
  Some (mkToken TokenSemicolon (str ";") startLine startCol, advance l).

(** [l.scanUnquotedValue()] *)
Definition scanUnquotedValue (l : Lexer) : option (Token * Lexer) :=
  let startLine := line l in
  let startCol := col l in
  let start := pos l in
  l' <- advanceWhile (length (input l))
                     (fun ch => negb (beq ch ";"%char || beq ch LF)) l ;;
  value <- substr (input l') start (pos l') ;;
  let value := TrimRight value [" "%char; TAB] in
  Some (mkToken TokenValue value startLine startCol, l').

(** [l.scanWildcard()] *)
Definition scanWildcard (l : Lexer) : option (Token * Lexer) :=
  let startLine := line l in
  let startCol := col l in
  let start := pos l in
  let l := advance l in
  l' <- advanceWhile (length (input l)) (fun ch => negb (beq ch ">"%char)) l ;;
  let l' := if pos l' <? length (input l') then advance l' else l' in
  v <- substr (input l') start (pos l') ;;
  Some (mkToken TokenWildcard v startLine startCol, l').

(** [l.scanWhitespace()] *)
Definition scanWhitespace (l : Lexer) : option (Token * Lexer) :=
  let startLine := line l in
  let startCol := col l in
  let start := pos l in
  l' <- advanceWhile (length (input l)) isWhitespace l ;;
  v <- substr (input l') start (pos l') ;;
  Some (mkToken TokenText v startLine startCol, l').

(** The bytes at which [scanWord] stops. *)
Definition endsWord (ch : byte) : bool :=
  isWhitespace ch || beq ch "{"%char || beq ch "}"%char || beq ch ";"%char
  || beq ch DQUOTE || beq ch "'"%char || beq ch "#"%char.

(** [l.scanWord()] *)
Definition scanWord (l : Lexer) : option (Token * Lexer) :=
  let startLine := line l in
  let startCol := col l in
  let start := pos l in
  l' <- advanceWhile (length (input l)) (fun ch => negb (endsWord ch)) l ;;
  word <- substr (input l') start (pos l') ;;
  let '(tokenType, l') := classifyWord word l' in
  Some (mkToken tokenType word startLine startCol, l').

(** The two quoted-string cases of [nextToken]. *)
Definition scanQuoted (quote : byte) (l : Lexer) : option (Token * Lexer) :=
  let isValue := expectingValue l in
  let l := setExpectingValue l false in
  ' (token, l) <- scanString quote l ;;
  Some (if isValue then withType token TokenValue else token, l).

(** [l.nextToken()] *)
Definition nextToken (l : Lexer) : option (Token * Lexer) :=
  let startLine := line l in
  let startCol := col l in
  if length (input l) <=? pos l then
    Some (mkToken TokenText [] startLine startCol, l)
  else
    diff <- (if col l =? 1 then scanDiffLine l else Some None) ;;
    match diff with
    | Some r => Some r
    | None =>
        ch <- at_ (input l) (pos l) ;;
        if beq ch "#"%char then scanComment l
        else if beq ch "/"%char && beq (peek l 1) "*"%char then scanBlockComment l
        else if beq ch DQUOTE then scanQuoted DQUOTE l
        else if beq ch "'"%char then scanQuoted "'"%char l
        else if beq ch "{"%char || beq ch "}"%char then
          scanBrace (setExpectingValue l false)
        else if beq ch ";"%char then scanSemicolon (setExpectingValue l false)
        else if beq ch "<"%char then scanWildcard l
        else if beq ch "*"%char then
          Some (mkToken TokenWildcard (str "*") startLine startCol, advance l)
        else if isWhitespace ch then scanWhitespace l
        else if expectingValue l then scanUnquotedValue (setExpectingValue l false)
        else scanWord l
    end.

(** *** Tokenize *)

(** [token.Type != TokenText || token.Value != ""] *)
Definition keep (token : Token) : bool :=
  negb (isText (Type_ token)) || negb (eqs (Value token) []).

(** The loop of [Tokenize]: [for l.pos < len(l.input) { ... }]. *)
Fixpoint scanLoop (fuel : nat) (l : Lexer) (tokens : list Token)
  : option (list Token) :=
  if pos l <? length (input l) then
    match fuel with
    | 0 => None
    | S fuel' =>
        ' (token, l) <- nextToken l ;;
        scanLoop fuel' l (if keep token then tokens ++ [token] else tokens)
    end
  else Some tokens.

Definition nonEmpty (s : gostring) : bool := negb (eqs s []).

(** [tokens = append(tokens, Token{t, v, 1, col}); col += step], on the
    pair [(tokens, col)]. *)
Definition emit (t : TokenType) (v : gostring) (step : nat) (st : list Token * nat)
  : list Token * nat :=
  let '(tokens, col) := st in
  (tokens ++ [mkToken t v 1 col], col + step).

(** [l.tryTokenizePrompt(input)].  [tokenize] is the method [Tokenize] of the
    lexer made for the command after the prompt.  [Some None] is the result
    [nil]. *)
Definition tryTokenizePrompt (tokenize : Lexer -> option (list Token))
           (input : gostring) : option (option (list Token)) :=
  match FindStringSubmatch promptPattern input with
  | None => Some None
  | Some matches =>
      let st : list Token * nat := ([], 1) in
      let st := if nonEmpty (matches 1)
                then emit TokenPromptEdit (matches 1) (length (matches 1)) st else st in
      let st := if nonEmpty (matches 2)
                then emit TokenPromptEdit (matches 2) (length (matches 2)) st else st in
      let st := if nonEmpty (matches 3)
                then emit TokenText (matches 3) (length (matches 3)) st else st in
      let st := emit TokenPromptUser (matches 4) (length (matches 4)) st in
      let st := emit TokenPromptAt (str "@") 1 st in
      let isConfig := eqs (matches 6) (str "#") in
      let hostTokenType := if isConfig then TokenPromptHostConf else TokenPromptHostOper in
      let st := emit hostTokenType (matches 5) (length (matches 5)) st in
      let promptTokenType := if isConfig then TokenPromptConf else TokenPromptOper in
      let st := emit promptTokenType (matches 6) 1 st in
      let st := if nonEmpty (matches 7)
                then emit TokenText (matches 7) (length (matches 7)) st else st in
      st <- (if nonEmpty (matches 8) then
               cmdTokens <- tokenize (New (TrimSpace (matches 8))) ;;
               Some (fold_left
                       (fun st tok =>
                          (fst st ++ [withColumn tok (snd st)],
                           snd st + length (Value tok)))
                       cmdTokens st)
             else Some st) ;;
      let '(tokens, col) := st in
      let tokens :=
        if HasSuffix input [LF] then tokens ++ [mkToken TokenText [LF] 1 col]
        else tokens in
      Some (Some tokens)
  end.

(** [l.Tokenize()]; the fuel bounds the depth of the calls that
    [tryTokenizePrompt] makes for the command after a prompt. *)
Fixpoint TokenizeFuel (fuel : nat) (l : Lexer) : option (list Token) :=
  match fuel with
  | 0 => None
  | S fuel' =>
      promptTokens <- tryTokenizePrompt (TokenizeFuel fuel') (input l) ;;
      match promptTokens with
      | Some tokens => Some tokens
      | None => scanLoop (length (input l)) l []
      end
  end.

Definition Tokenize (l : Lexer) : option (list Token) :=
  TokenizeFuel (S (length (input l))) l.

(** [IsPrompt(input)] *)
Definition IsPrompt (input : gostring) : bool :=
  MatchString promptPattern (TrimSpace input).

(** [l'] is [l] with the cursor moved forward inside the input; the other
    fields are those of [l]. *)
Definition moved (l l' : Lexer) : Prop :=
  input l' = input l /\ parseMode l' = parseMode l /\
  detectedMode l' = detectedMode l /\ expectingValue l' = expectingValue l /\
  expectingUnit l' = expectingUnit l /\ lastToken l' = lastToken l /\
  pos l <= pos l' /\ (pos l <= length (input l) -> pos l' <= length (input l)).

(** [l'] is a lexer on the input of [l] whose cursor is strictly further and
    inside the input, and whose parse mode is that of [l] if [l] has its
    mode detected. *)
Definition progress (l l' : Lexer) : Prop :=
  input l' = input l /\ pos l < pos l' /\ pos l' <= length (input l) /\
  (detectedMode l = true -> detectedMode l' = true /\ parseMode l' = parseMode l).

(** The call [r] returned a token and a lexer that is a step on from [l]. *)
Definition steps_on (l : Lexer) (r : option (Token * Lexer)) : Prop :=
  exists tok l', r = Some (tok, l') /\ progress l l'.

(** The lexer after [n] calls of [nextToken]. *)
Fixpoint steps (n : nat) (l : Lexer) : option Lexer :=
  match n with
  | 0 => Some l
  | S n' => ' (_, l') <- nextToken l ;; steps n' l'
  end.

End Lex.

(** ** The highlighter ([highlighter.go]) *)

Module Highlighter.

Import Escape Lex.

Definition Reset : gostring := ESC :: str "[0m".

(** [type Theme struct { colors map[lexer.TokenType]string }] *)
Record Theme : Type := mkTheme { colors : TokenType -> option gostring }.

(** [t.GetColor(tokenType)] *)
Definition GetColor (t : Theme) (tokenType : TokenType) : gostring :=
  match colors t tokenType with
  | Some color => color
  | None => []
  end.

(** [type Highlighter struct { theme *Theme; enabled bool; mu sync.RWMutex }];
    the lock has no part in a sequential call. *)
Record Highlighter : Type := mkHighlighter { theme : Theme; enabled : bool }.

(** [h.IsEnabled()] *)
Definition IsEnabled (h : Highlighter) : bool := enabled h.

(** [h.renderTokens(tokens)] *)
Definition renderTokens (h : Highlighter) (tokens : list Token) : gostring :=
  let theme := theme h in
  fold_left
    (fun buf token =>
       let color := GetColor theme (Type_ token) in
       if nonEmpty color then buf ++ color ++ Value token ++ Reset
       else buf ++ Value token)
    tokens [].

(** [h.highlightTokensCleaned(cleaned)] *)
Definition highlightTokensCleaned (h : Highlighter) (cleaned : gostring)
  : option gostring :=
  let lex := New cleaned in
  tokens <- Tokenize lex ;;
  Some (renderTokens h tokens).

(** The loop of [highlightTokens] over the segments. *)
Fixpoint renderSegments (h : Highlighter) (segments : list segment) (buf : gostring)
  : option gostring :=
  match segments with
  | [] => Some buf
  | seg :: segments' =>
      if isEscape seg then renderSegments h segments' (buf ++ text seg)
      else
        highlighted <- highlightTokensCleaned h (text seg) ;;
        renderSegments h segments' (buf ++ highlighted)
  end.

(** [h.highlightTokens(input)] *)
Definition highlightTokens (h : Highlighter) (input : gostring) : option gostring :=
  segments <- extractSegments input ;;
  renderSegments h segments [].

(** *** The content sniffer *)

Definition configIndicators : list gostring :=
  map str ["set "; "delete "; "show "; "edit ";
           "interfaces {"; "system {"; "protocols {";
           "routing-options"; "policy-options"; "firewall {";
           "security {"; "groups {"; "vlans {";
           "ge-"; "xe-"; "et-"; "ae"; "lo0";
           "family inet"; "unit "; "vlan-id";
           "ospf"; "bgp"; "neighbor"; "group"]%string.

Definition showIndicators : list gostring :=
  map str ["establ"; "idle"; "full"; "2way";
           "inet.0"; "inet6.0"; "mpls.0"; "bgp.evpn";
           "bgp summary"; "ospf neighbor"; "interface terse";
           "physical interface"; "logical interface";
           "routing table"; "flaps"; "up/dn";
           "state:"; "admin link"; "outq"]%string.

Definition commandPrefixes : list gostring :=
  map str ["set "; "delete "; "show "; "edit "; "request "; "##"]%string.

Definition isAlphanumeric (ch : byte) : bool :=
  in_range 97 122 ch || in_range 65 90 ch || in_range 48 57 ch.

Definition isAlphanumericOrDash (ch : byte) : bool :=
  isAlphanumeric ch || beq ch "-"%char.

(** [h.isPromptLine(input)] *)
Definition isPromptLine (input : gostring) : option bool :=
  if IsPrompt input then Some true
  else if negb (Contains input (str "@")) then Some false
  else if negb (Contains input (str ">")) && negb (Contains input (str "#"))
  then Some false
  else
    match Index input (str "@") with
    | None => Some false                               (* atIdx = -1 *)
    | Some atIdx =>
        if (atIdx <=? 0) || (length input - 1 <=? atIdx) then Some false
        else
          beforeAt <- at_ input (atIdx - 1) ;;
          afterAt <- at_ input (atIdx + 1) ;;
          Some (isAlphanumericOrDash beforeAt && isAlphanumeric afterAt)
    end.

(** [h.hasConfigIndicators(lower)] *)
Definition hasConfigIndicators (lower : gostring) : bool :=
  existsb (fun indicator => Contains lower indicator) configIndicators.

(** [h.hasShowIndicators(lower)] *)
Definition hasShowIndicators (lower : gostring) : bool :=
  existsb (fun indicator => Contains lower indicator) showIndicators.

(** [h.hasStructuralPatterns(input, lower)] *)
Definition hasStructuralPatterns (input lower : gostring) : bool :=
  if negb (Contains input ("{"%char :: [LF])) && negb (Contains input (str ";"))
  then false
  else Contains lower (str "version ") || Contains input (str "#")
       || Contains lower (str "host-name").

(** [h.startsWithCommand(input)] *)
Definition startsWithCommand (input : gostring) : bool :=
  let trimmed := TrimSpace input in
  let lowerTrimmed := ToLower trimmed in
  existsb (fun prefix => HasPrefix lowerTrimmed prefix) commandPrefixes.

(** [h.looksLikeJunOS(input)] *)
Definition looksLikeJunOS (input : gostring) : option bool :=
  prompt <- isPromptLine input ;;
  if prompt then Some true
  else
    let lower := ToLower input in
    if hasConfigIndicators lower then Some true
    else if hasShowIndicators lower then Some true
    else if hasStructuralPatterns input lower then Some true
    else if startsWithCommand input then Some true
    else Some false.

(** [h.Highlight(input)] *)
Definition Highlight (h : Highlighter) (input : gostring) : option gostring :=
  if negb (IsEnabled h) || eqs input [] then Some input
  else
    cleaned <- StripANSI input ;;
    looks <- looksLikeJunOS cleaned ;;
    if negb looks then Some input
    else highlightTokensCleaned h cleaned.

(** [h.HighlightForced(input)] *)
Definition HighlightForced (h : Highlighter) (input : gostring) : option gostring :=
  if negb (IsEnabled h) || eqs input [] then Some input
  else highlightTokens h input.

(** [h.HighlightShowOutput(input)] *)
Definition HighlightShowOutput (h : Highlighter) (input : gostring) : option gostring :=
  if negb (IsEnabled h) || eqs input [] then Some input
  else
    let lex := SetParseMode (New input) ParseModeShow in
    tokens <- Tokenize lex ;;
    Some (renderTokens h tokens).

End Highlighter.

(** ** The parse-mode detector as the specification words it *)

Module DetectorSpec.

Import Regexp Tables Lex.

(** The number of the indicators of a list that occur in [lower], each
    indicator counted once however often it occurs. *)
Definition present (lower : gostring) (inds : list gostring) : nat :=
  length (filter (fun ind => Contains lower ind) inds).

(** 2 when the sample matches the tabular pattern, else 0. *)
Definition tabularBonus (sample : gostring) : nat :=
  if MatchString tabularPattern sample then 2 else 0.

Definition configScore (sample : gostring) : nat :=
  present (ToLower sample) Lex.configIndicators.

Definition showScore (sample : gostring) : nat :=
  present (ToLower sample) Lex.showIndicators + tabularBonus sample.

(** [Show] exactly when [showScore >= 2] and [showScore > configScore]. *)
Definition detect (sample : gostring) : ParseMode :=
  if (2 <=? showScore sample) && (configScore sample <? showScore sample)
  then ParseModeShow else ParseModeConfig.




End DetectorSpec.

(** ** Stripping as one pass over the bytes *)

Module StripPass.

Import Escape.

(** Where a left-to-right reader of escape sequences stands: in plain text,
    behind an escape byte, among the parameter bytes of a CSI sequence, or
    among the intermediate bytes of another escape sequence. *)
Inductive state : Type := InText | AfterEsc | InParams | InInterm.

(** What the reader does with a byte in plain text. *)
Definition onText (b : byte) : state * gostring :=
  if beq b escapeChar then (AfterEsc, []) else (InText, [b]).

(** The state after the byte [b] and the bytes it lets through. *)
Definition step (st : state) (b : byte) : state * gostring :=
  match st with
  | InText => onText b
  | AfterEsc =>
      if beq b csiBracket then (InParams, [])
      else if isCSIIntermediateByte b then (InInterm, [])
      else (InText, [])
  | InParams =>
      if isCSIParamByte b then (InParams, [])
      else if isCSIFinalByte b then (InText, [])
      else onText b
  | InInterm =>
      if isCSIIntermediateByte b then (InInterm, []) else (InText, [])
  end.

(** The bytes let through when [s] is read from the state [st]. *)
Fixpoint pass (st : state) (s : gostring) : gostring :=
  match s with
  | [] => []
  | b :: s' => snd (step st b) ++ pass (fst (step st b)) s'
  end.

(** The state after [s] has been read from the state [st]. *)
Fixpoint after (st : state) (s : gostring) : state :=
  match s with
  | [] => st
  | b :: s' => after (fst (step st b)) s'
  end.

(** [t] is [s] with some of its bytes left out. *)
Inductive subseq : gostring -> gostring -> Prop :=
| subseq_nil : subseq [] []
| subseq_skip (b : byte) (t s : gostring) : subseq t s -> subseq t (b :: s)
| subseq_keep (b : byte) (t s : gostring) : subseq t s -> subseq (b :: t) (b :: s).

(** A run of complete CSI sequences: each is the escape byte, the bracket,
    parameter bytes and one final byte. *)
Inductive csiCodes : gostring -> Prop :=
| csiCodes_nil : csiCodes []
| csiCodes_cons (ps : gostring) (f : byte) (rest : gostring) :
    forallb isCSIParamByte ps = true -> isCSIFinalByte f = true ->
    csiCodes rest ->
    csiCodes (escapeChar :: csiBracket :: ps ++ f :: rest).

End StripPass.

(** ** Colours and themes ([highlighter.go]) *)

Module Themes.

Import Lex Highlighter.
Import BinInt.

(** ANSI colour codes. *)
Definition Bold : gostring := ESC :: str "[1m".
Definition Dim : gostring := ESC :: str "[2m".
Definition Italic : gostring := ESC :: str "[3m".
Definition Underline : gostring := ESC :: str "[4m".
Definition Black : gostring := ESC :: str "[30m".
Definition Red : gostring := ESC :: str "[31m".
Definition Green : gostring := ESC :: str "[32m".
Definition Yellow : gostring := ESC :: str "[33m".
Definition Blue : gostring := ESC :: str "[34m".
Definition Magenta : gostring := ESC :: str "[35m".
Definition Cyan : gostring := ESC :: str "[36m".
Definition White : gostring := ESC :: str "[37m".
Definition BrightBlack : gostring := ESC :: str "[90m".
Definition BrightRed : gostring := ESC :: str "[91m".
Definition BrightGreen : gostring := ESC :: str "[92m".
Definition BrightYellow : gostring := ESC :: str "[93m".
Definition BrightBlue : gostring := ESC :: str "[94m".
Definition BrightMagenta : gostring := ESC :: str "[95m".
Definition BrightCyan : gostring := ESC :: str "[96m".
Definition BrightWhite : gostring := ESC :: str "[97m".
Definition Color256Prefix : gostring := ESC :: str "[38;5;".

Definition Color256Suffix : gostring := str "m".

(** [strconv.Itoa(i)] *)
Definition Itoa (i : Z) : gostring :=
  str (DecimalString.NilZero.string_of_int (Z.to_int i)).

(** [Color256(n)] *)
Definition Color256 (n : Z) : gostring :=
  Color256Prefix ++ Itoa n ++ Color256Suffix.

(** [RGB(r, g, b)] *)
Definition RGB (r g b : Z) : gostring :=
  (ESC :: str "[38;2;") ++ Itoa r ++ str ";" ++ Itoa g ++ str ";" ++ Itoa b ++ str "m".

Arguments Color256 n%_Z.
Arguments RGB (r g b)%_Z.

(** [type Palette struct { Foreground string; ... }]; the field [F] is [pF]
    here. *)
Record Palette : Type := mkPalette {
  pForeground : gostring;
  pComment : gostring;
  pCommand : gostring;
  pSection : gostring;
  pProtocol : gostring;
  pAction : gostring;
  pInterface : gostring;
  pIP : gostring;
  pNumber : gostring;
  pString : gostring;
  pKeyword : gostring;
  pOperator : gostring;
  pASN : gostring;
  pCommunity : gostring;
  pValue : gostring;
  pWildcard : gostring;
  pMAC : gostring;
  pStateGood : gostring;
  pStateBad : gostring;
  pStateWarning : gostring;
  pDuration : gostring;
  pRouteProtocol : gostring;
  pTableName : gostring;
  pPromptUser : gostring;
  pPromptAt : gostring;
  pPromptHostOper : gostring;
  pPromptHostConf : gostring;
  pPromptOper : gostring;
  pPromptConf : gostring;
  pPromptEdit : gostring
}.

(** The colours of a palette, field by field. *)
Definition paletteColours (p : Palette) : list gostring :=
  [pForeground p; pComment p; pCommand p; pSection p; pProtocol p; pAction p;
   pInterface p; pIP p; pNumber p; pString p; pKeyword p; pOperator p;
   pASN p; pCommunity p; pValue p; pWildcard p; pMAC p; pStateGood p;
   pStateBad p; pStateWarning p; pDuration p; pRouteProtocol p; pTableName p;
   pPromptUser p; pPromptAt p; pPromptHostOper p; pPromptHostConf p;
   pPromptOper p; pPromptConf p; pPromptEdit p].

(** [buildTheme(p)] *)
Definition buildTheme (p : Palette) : Theme :=
  mkTheme (fun tokenType =>
  match tokenType with
  | TokenCommand => Some (Bold ++ pCommand p)
  | TokenSection => Some (Bold ++ pSection p)
  | TokenProtocol => Some (pProtocol p)
  | TokenAction => Some (Bold ++ pAction p)
  | TokenInterface => Some (Bold ++ pInterface p)
  | TokenIPv4 => Some (pIP p)
  | TokenIPv4Prefix => Some (pIP p)
  | TokenIPv6 => Some (pIP p)
  | TokenIPv6Prefix => Some (pIP p)
  | TokenMAC => Some (pMAC p)
  | TokenNumber => Some (pNumber p)
  | TokenString => Some (pString p)
  | TokenComment => Some (Italic ++ pComment p)
  | TokenAnnotation => Some (Italic ++ pComment p)
  | TokenBrace => Some (pForeground p)
  | TokenSemicolon => Some (pComment p)
  | TokenWildcard => Some (pWildcard p)
  | TokenIdentifier => Some (pForeground p)
  | TokenKeyword => Some (pKeyword p)
  | TokenOperator => Some (pOperator p)
  | TokenUnit => Some (pNumber p)
  | TokenASN => Some (pASN p)
  | TokenCommunity => Some (pCommunity p)
  | TokenValue => Some (pValue p)
  | TokenText => Some ([])
  | TokenStateGood => Some (Bold ++ pStateGood p)
  | TokenStateBad => Some (Bold ++ pStateBad p)
  | TokenStateWarning => Some (Bold ++ pStateWarning p)
  | TokenStateNeutral => Some (Dim ++ pComment p)
  | TokenColumnHeader => Some (Bold ++ pForeground p)
  | TokenStatusSymbol => Some (Bold ++ pProtocol p)
  | TokenTimeDuration => Some (pDuration p)
  | TokenPercentage => Some (pStateGood p)
  | TokenByteSize => Some (pProtocol p)
  | TokenRouteProtocol => Some (Bold ++ pRouteProtocol p)
  | TokenTableName => Some (Bold ++ pTableName p)
  | TokenPromptUser => Some (pPromptUser p)
  | TokenPromptAt => Some (pPromptAt p)
  | TokenPromptHostOper => Some (pPromptHostOper p)
  | TokenPromptHostConf => Some (pPromptHostConf p)
  | TokenPromptOper => Some (pPromptOper p)
  | TokenPromptConf => Some (pPromptConf p)
  | TokenPromptEdit => Some (pPromptEdit p)
  | TokenDiffAdd => Some (Bold ++ pStateGood p)
  | TokenDiffRemove => Some (Bold ++ pStateBad p)
  | TokenDiffContext => Some (Bold ++ pProtocol p)
  end).

(** [TokyoNightTheme()] *)
Definition TokyoNightTheme : Theme :=
  let foreground := RGB 192 202 245 in
  let comment := RGB 86 95 137 in
  let red := RGB 247 118 142 in
  let green := RGB 158 206 106 in
  let yellow := RGB 224 175 104 in
  let blue := RGB 122 162 247 in
  let magenta := RGB 187 154 247 in
  let cyan := RGB 125 207 255 in
  let orange := RGB 255 158 100 in
  let purple := RGB 157 124 216 in
  let teal := RGB 115 218 202 in
  buildTheme
    {| pForeground := foreground;
       pComment := comment;
       pCommand := magenta;
       pSection := blue;
       pProtocol := cyan;
       pAction := green;
       pInterface := orange;
       pIP := teal;
       pNumber := purple;
       pString := green;
       pKeyword := yellow;
       pOperator := blue;
       pASN := orange;
       pCommunity := magenta;
       pValue := cyan;
       pWildcard := red;
       pMAC := cyan;
       pStateGood := green;
       pStateBad := red;
       pStateWarning := yellow;
       pDuration := orange;
       pRouteProtocol := purple;
       pTableName := blue;
       pPromptUser := Color256 32;
       pPromptAt := Color256 163;
       pPromptHostOper := Color256 35;
       pPromptHostConf := Color256 128;
       pPromptOper := Color256 128;
       pPromptConf := Color256 35;
       pPromptEdit := Dim ++ comment |}.

(** [VibrantTheme()] *)
Definition VibrantTheme : Theme :=
  buildTheme
    {| pForeground := White;
       pComment := Dim ++ BrightBlack;
       pCommand := BrightYellow;
       pSection := BrightBlue;
       pProtocol := BrightCyan;
       pAction := BrightGreen;
       pInterface := BrightMagenta;
       pIP := BrightGreen;
       pNumber := BrightCyan;
       pString := BrightYellow;
       pKeyword := Yellow;
       pOperator := BrightWhite;
       pASN := BrightMagenta;
       pCommunity := Magenta;
       pValue := BrightCyan;
       pWildcard := BrightRed;
       pMAC := Cyan;
       pStateGood := BrightGreen;
       pStateBad := BrightRed;
       pStateWarning := BrightYellow;
       pDuration := BrightMagenta;
       pRouteProtocol := Magenta;
       pTableName := BrightBlue;
       pPromptUser := Bold ++ BrightGreen;
       pPromptAt := White;
       pPromptHostOper := Bold ++ BrightCyan;
       pPromptHostConf := Bold ++ BrightMagenta;
       pPromptOper := Bold ++ BrightGreen;
       pPromptConf := Bold ++ BrightRed;
       pPromptEdit := BrightYellow |}.

(** [SolarizedDarkTheme()] *)
Definition SolarizedDarkTheme : Theme :=
  let base01 := Color256 240 in
  let base0 := Color256 244 in
  let yellow := Color256 136 in
  let orange := Color256 166 in
  let red := Color256 160 in
  let magenta := Color256 125 in
  let violet := Color256 61 in
  let blue := Color256 33 in
  let cyan := Color256 37 in
  let green := Color256 64 in
  buildTheme
    {| pForeground := base0;
       pComment := base01;
       pCommand := yellow;
       pSection := blue;
       pProtocol := cyan;
       pAction := green;
       pInterface := magenta;
       pIP := green;
       pNumber := cyan;
       pString := yellow;
       pKeyword := orange;
       pOperator := base0;
       pASN := magenta;
       pCommunity := violet;
       pValue := cyan;
       pWildcard := red;
       pMAC := cyan;
       pStateGood := green;
       pStateBad := red;
       pStateWarning := yellow;
       pDuration := orange;
       pRouteProtocol := violet;
       pTableName := blue;
       pPromptUser := Bold ++ green;
       pPromptAt := base0;
       pPromptHostOper := Bold ++ cyan;
       pPromptHostConf := Bold ++ magenta;
       pPromptOper := Bold ++ green;
       pPromptConf := Bold ++ red;
       pPromptEdit := yellow |}.

(** [MonokaiTheme()] *)
Definition MonokaiTheme : Theme :=
  let pink := Color256 197 in
  let green := Color256 148 in
  let orange := Color256 208 in
  let purple := Color256 141 in
  let cyan := Color256 81 in
  let yellow := Color256 186 in
  let gray := Color256 242 in
  let white := Color256 231 in
  let red := Color256 196 in
  buildTheme
    {| pForeground := white;
       pComment := gray;
       pCommand := pink;
       pSection := cyan;
       pProtocol := purple;
       pAction := green;
       pInterface := orange;
       pIP := green;
       pNumber := purple;
       pString := yellow;
       pKeyword := orange;
       pOperator := pink;
       pASN := orange;
       pCommunity := purple;
       pValue := cyan;
       pWildcard := pink;
       pMAC := cyan;
       pStateGood := green;
       pStateBad := red;
       pStateWarning := yellow;
       pDuration := orange;
       pRouteProtocol := purple;
       pTableName := cyan;
       pPromptUser := Bold ++ green;
       pPromptAt := white;
       pPromptHostOper := Bold ++ cyan;
       pPromptHostConf := Bold ++ orange;
       pPromptOper := Bold ++ green;
       pPromptConf := Bold ++ pink;
       pPromptEdit := yellow |}.

(** [NordTheme()] *)
Definition NordTheme : Theme :=
  let nord4 := Color256 252 in
  let nord7 := Color256 109 in
  let nord8 := Color256 110 in
  let nord9 := Color256 68 in
  let nord11 := Color256 167 in
  let nord12 := Color256 173 in
  let nord13 := Color256 179 in
  let nord14 := Color256 108 in
  let nord15 := Color256 139 in
  let nordComment := Color256 60 in
  buildTheme
    {| pForeground := nord4;
       pComment := nordComment;
       pCommand := nord13;
       pSection := nord9;
       pProtocol := nord8;
       pAction := nord14;
       pInterface := nord15;
       pIP := nord14;
       pNumber := nord15;
       pString := nord13;
       pKeyword := nord12;
       pOperator := nord9;
       pASN := nord12;
       pCommunity := nord15;
       pValue := nord8;
       pWildcard := nord11;
       pMAC := nord7;
       pStateGood := nord14;
       pStateBad := nord11;
       pStateWarning := nord13;
       pDuration := nord12;
       pRouteProtocol := nord15;
       pTableName := nord9;
       pPromptUser := Bold ++ nord14;
       pPromptAt := nord4;
       pPromptHostOper := Bold ++ nord7;
       pPromptHostConf := Bold ++ nord12;
       pPromptOper := Bold ++ nord14;
       pPromptConf := Bold ++ nord11;
       pPromptEdit := nord13 |}.

(** [CatppuccinMochaTheme()] *)
Definition CatppuccinMochaTheme : Theme :=
  let text := RGB 205 214 244 in
  let subtext0 := RGB 166 173 200 in
  let overlay0 := RGB 108 112 134 in
  let red := RGB 243 139 168 in
  let peach := RGB 250 179 135 in
  let yellow := RGB 249 226 175 in
  let green := RGB 166 227 161 in
  let teal := RGB 148 226 213 in
  let sky := RGB 137 220 235 in
  let sapphire := RGB 116 199 236 in
  let blue := RGB 137 180 250 in
  let lavender := RGB 180 190 254 in
  let mauve := RGB 203 166 247 in
  let pink := RGB 245 194 231 in
  buildTheme
    {| pForeground := text;
       pComment := overlay0;
       pCommand := mauve;
       pSection := blue;
       pProtocol := sapphire;
       pAction := green;
       pInterface := peach;
       pIP := teal;
       pNumber := lavender;
       pString := green;
       pKeyword := yellow;
       pOperator := sky;
       pASN := peach;
       pCommunity := pink;
       pValue := sky;
       pWildcard := red;
       pMAC := sky;
       pStateGood := green;
       pStateBad := red;
       pStateWarning := yellow;
       pDuration := peach;
       pRouteProtocol := mauve;
       pTableName := blue;
       pPromptUser := Bold ++ green;
       pPromptAt := subtext0;
       pPromptHostOper := Bold ++ sapphire;
       pPromptHostConf := Bold ++ peach;
       pPromptOper := Bold ++ green;
       pPromptConf := Bold ++ red;
       pPromptEdit := yellow |}.

(** [DraculaTheme()] *)
Definition DraculaTheme : Theme :=
  let foreground := RGB 248 248 242 in
  let comment := RGB 98 114 164 in
  let cyan := RGB 139 233 253 in
  let green := RGB 80 250 123 in
  let orange := RGB 255 184 108 in
  let pink := RGB 255 121 198 in
  let purple := RGB 189 147 249 in
  let red := RGB 255 85 85 in
  let yellow := RGB 241 250 140 in
  buildTheme
    {| pForeground := foreground;
       pComment := comment;
       pCommand := pink;
       pSection := purple;
       pProtocol := cyan;
       pAction := green;
       pInterface := orange;
       pIP := green;
       pNumber := purple;
       pString := yellow;
       pKeyword := orange;
       pOperator := pink;
       pASN := orange;
       pCommunity := purple;
       pValue := cyan;
       pWildcard := red;
       pMAC := cyan;
       pStateGood := green;
       pStateBad := red;
       pStateWarning := yellow;
       pDuration := orange;
       pRouteProtocol := purple;
       pTableName := purple;
       pPromptUser := Bold ++ green;
       pPromptAt := foreground;
       pPromptHostOper := Bold ++ cyan;
       pPromptHostConf := Bold ++ orange;
       pPromptOper := Bold ++ green;
       pPromptConf := Bold ++ red;
       pPromptEdit := yellow |}.

(** [GruvboxDarkTheme()] *)
Definition GruvboxDarkTheme : Theme :=
  let foreground := RGB 235 219 178 in
  let comment := RGB 146 131 116 in
  let red := RGB 251 73 52 in
  let green := RGB 184 187 38 in
  let yellow := RGB 250 189 47 in
  let blue := RGB 131 165 152 in
  let purple := RGB 211 134 155 in
  let aqua := RGB 142 192 124 in
  let orange := RGB 254 128 25 in
  buildTheme
    {| pForeground := foreground;
       pComment := comment;
       pCommand := yellow;
       pSection := blue;
       pProtocol := aqua;
       pAction := green;
       pInterface := orange;
       pIP := aqua;
       pNumber := purple;
       pString := green;
       pKeyword := orange;
       pOperator := foreground;
       pASN := orange;
       pCommunity := purple;
       pValue := aqua;
       pWildcard := red;
       pMAC := aqua;
       pStateGood := green;
       pStateBad := red;
       pStateWarning := yellow;
       pDuration := orange;
       pRouteProtocol := purple;
       pTableName := blue;
       pPromptUser := Bold ++ green;
       pPromptAt := foreground;
       pPromptHostOper := Bold ++ aqua;
       pPromptHostConf := Bold ++ orange;
       pPromptOper := Bold ++ green;
       pPromptConf := Bold ++ red;
       pPromptEdit := yellow |}.

(** [OneDarkTheme()] *)
Definition OneDarkTheme : Theme :=
  let foreground := RGB 171 178 191 in
  let comment := RGB 92 99 112 in
  let red := RGB 224 108 117 in
  let green := RGB 152 195 121 in
  let yellow := RGB 229 192 123 in
  let blue := RGB 97 175 239 in
  let purple := RGB 198 120 221 in
  let cyan := RGB 86 182 194 in
  let orange := RGB 209 154 102 in
  buildTheme
    {| pForeground := foreground;
       pComment := comment;
       pCommand := purple;
       pSection := blue;
       pProtocol := cyan;
       pAction := green;
       pInterface := orange;
       pIP := green;
       pNumber := orange;
       pString := green;
       pKeyword := yellow;
       pOperator := foreground;
       pASN := orange;
       pCommunity := purple;
       pValue := cyan;
       pWildcard := red;
       pMAC := cyan;
       pStateGood := green;
       pStateBad := red;
       pStateWarning := yellow;
       pDuration := orange;
       pRouteProtocol := purple;
       pTableName := blue;
       pPromptUser := Bold ++ green;
       pPromptAt := foreground;
       pPromptHostOper := Bold ++ cyan;
       pPromptHostConf := Bold ++ orange;
       pPromptOper := Bold ++ green;
       pPromptConf := Bold ++ red;
       pPromptEdit := yellow |}.

(** [DefaultTheme()] *)
Definition DefaultTheme : Theme := TokyoNightTheme.

(** [ThemeNames()] *)
Definition ThemeNames : list gostring :=
  map str ["tokyonight"; "vibrant"; "solarized"; "monokai"; "nord"; "catppuccin";
           "dracula"; "gruvbox"; "onedark"]%string.

Definition oneOfNames (name : gostring) (names : list String.string) : bool :=
  existsb (fun n => eqs name (str n)) names.

(** [ThemeByName(name)] *)
Definition ThemeByName (name : gostring) : Theme :=
  if oneOfNames name ["tokyonight"; "tokyo-night"; "tokyo"]%string then TokyoNightTheme
  else if oneOfNames name ["vibrant"]%string then VibrantTheme
  else if oneOfNames name ["solarized"]%string then SolarizedDarkTheme
  else if oneOfNames name ["monokai"]%string then MonokaiTheme
  else if oneOfNames name ["nord"]%string then NordTheme
  else if oneOfNames name ["catppuccin"; "catppuccin-mocha"; "mocha"]%string
  then CatppuccinMochaTheme
  else if oneOfNames name ["dracula"]%string then DraculaTheme
  else if oneOfNames name ["gruvbox"; "gruvbox-dark"]%string then GruvboxDarkTheme
  else if oneOfNames name ["onedark"; "one-dark"]%string then OneDarkTheme
  else DefaultTheme.

(** [New()] and [NewWithTheme(theme)] of the highlighter. *)
Definition NewWithTheme (theme : Theme) : Highlighter := mkHighlighter theme true.
Definition NewHighlighter : Highlighter := NewWithTheme DefaultTheme.

(** A run of complete CSI sequences, as a test: the escape byte, the
    bracket, parameter bytes, one final byte, and so on to the end. *)
Fixpoint dropParams (s : gostring) : gostring :=
  match s with
  | b :: s' => if Escape.isCSIParamByte b then dropParams s' else s
  | [] => []
  end.

Fixpoint isCodes (fuel : nat) (s : gostring) : bool :=
  match s with
  | [] => true
  | e :: s1 =>
      match fuel, s1 with
      | S fuel', c :: s2 =>
          beq e Escape.escapeChar && beq c Escape.csiBracket &&
          match dropParams s2 with
          | f :: rest => Escape.isCSIFinalByte f && isCodes fuel' rest
          | [] => false
          end
      | _, _ => false
      end
  end.

(** Every colour of the theme is a run of complete CSI sequences. *)
Definition themeOfCodes (t : Theme) : Prop :=
  forall tokenType, StripPass.csiCodes (GetColor t tokenType).

End Themes.

(** ** Where the tokens of a scan lie *)

Module Layout.

Import Lex.

(** The line and the column behind the bytes [v], for a cursor that has
    the line and the column [lc] in front of them: a newline starts the
    next line at column 1, any other byte is one column, as in [advance]. *)
Fixpoint walk (v : gostring) (lc : nat * nat) : nat * nat :=
  match v with
  | [] => lc
  | b :: v' => walk v' (if beq b LF then (S (fst lc), 1) else (fst lc, S (snd lc)))
  end.

(** [l'] is [l] moved forward, its line and column counted along the bytes
    that were passed. *)
Definition went (l l' : Lexer) : Prop :=
  moved l l' /\
  (line l', col l') = walk (slice (input l) (pos l) (pos l')) (line l, col l).

(** What one call of [nextToken] at the lexer [l] does: the cursor goes
    forward over a piece of the input that is not empty; the token has the
    line and the column of the start of the piece; its value is the piece,
    or, for the unquoted value that a value keyword asked for, the piece
    without the blanks and tabs at its end; the value is not empty. *)
Definition step_spec (l : Lexer) (tok : Token) (l' : Lexer) : Prop :=
  let piece := slice (input l) (pos l) (pos l') in
  input l' = input l /\ pos l < pos l' /\ pos l' <= length (input l) /\
  (Line tok, Column tok) = (line l, col l) /\
  (line l', col l') = walk piece (line l, col l) /\
  (Value tok = piece \/
   (expectingValue l = true /\ Type_ tok = TokenValue /\
    Value tok = TrimRight piece [" "%char; TAB])) /\
  Value tok <> [].

(** A lexer in Show mode, the mode settled, that expects no value. *)
Definition steady (l : Lexer) : Prop :=
  parseMode l = ParseModeShow /\ detectedMode l = true /\ expectingValue l = false.

(** The call [r] returned a token and a lexer as [step_spec] says, and a
    steady lexer stayed steady. *)
Definition stepped (l : Lexer) (r : option (Token * Lexer)) : Prop :=
  exists tok l', r = Some (tok, l') /\ step_spec l tok l' /\ (steady l -> steady l').

(** [tiles lc tokens pieces]: the tokens lie on the pieces one by one, from
    the line and column [lc] on.  Each piece is not empty; its token is at
    the line and column where the piece starts and has the piece as its
    value, or, if it is a [TokenValue], the piece without the blanks and
    tabs at its end; no value is empty. *)
Inductive tiles : nat * nat -> list Token -> list gostring -> Prop :=
| tiles_nil (lc : nat * nat) : tiles lc [] []
| tiles_cons (lc : nat * nat) (tok : Token) (piece : gostring)
             (tokens : list Token) (pieces : list gostring) :
    piece <> [] -> (Line tok, Column tok) = lc ->
    (Value tok = piece \/
     (Type_ tok = TokenValue /\ Value tok = TrimRight piece [" "%char; TAB])) ->
    Value tok <> [] ->
    tiles (walk piece lc) tokens pieces ->
    tiles lc (tok :: tokens) (piece :: pieces).

(** [placed lc tokens]: each token is at the line and column that the
    values of the tokens before it lead to, from [lc] on. *)
Fixpoint placed (lc : nat * nat) (tokens : list Token) : Prop :=
  match tokens with
  | [] => True
  | tok :: tokens' =>
      (Line tok, Column tok) = lc /\ placed (walk (Value tok) lc) tokens'
  end.

End Layout.

(** ** Bytes a pattern cannot match without *)

Module Needs.

Import Regexp.

Definition allBytes : list byte := map ascii_of_nat (seq 0 256).

(** Every byte of the class [p] is in the class [q]. *)
Definition classWithin (p q : byte -> bool) : bool :=
  forallb (fun b => implb (p b) (q b)) allBytes.

(** [needs q r]: every match of [r] takes a byte of the class [q]. *)
Fixpoint needs (q : byte -> bool) (r : regex) : bool :=
  match r with
  | Empty | Bol | Eol | Star _ | LazyStar _ => false
  | Class p => classWithin p q
  | Cat r1 r2 => needs q r1 || needs q r2
  | Alt r1 r2 => needs q r1 && needs q r2
  | Group _ r1 => needs q r1
  end.

End Needs.

(** ** The terminal wrapper ([terminal.go]) *)

Module TerminalIO.

Import Lex Highlighter Themes.

Definition readBufferSize : nat := 32 * 1024.
Definition lineFlushLimit : nat := 4000.

(** [type Terminal struct { cmd; pty; highlighter; enabled }]; the command
    and the PTY have no part in what is written. *)
Record Terminal : Type := mkTerminal { highlighter : Highlighter; enabled : bool }.

(** [New(name, args...)] *)
Definition New : Terminal := mkTerminal NewHighlighter true.

(** [t.SetTheme(theme)] *)
Definition SetTheme (t : Terminal) (theme : Theme) : Terminal :=
  mkTerminal (mkHighlighter theme (Highlighter.enabled (highlighter t))) (enabled t).

(** [t.SetEnabled(enabled)] *)
Definition SetEnabled (t : Terminal) (e : bool) : Terminal :=
  mkTerminal (highlighter t) e.

(** [t.writeOutput(w, data)]; the writer [w] is the list of the strings
    written to it, in the order of the calls of [w.Write]. *)
Definition writeOutput (t : Terminal) (w : list gostring) (data : gostring)
  : option (list gostring) :=
  output <- (if enabled t then HighlightForced (highlighter t) data else Some data) ;;
  Some (w ++ [output]).

(** The loop of [processOutput] over the bytes of one read, on the state
    [(lineBuf, w)]. *)
Fixpoint feed (t : Terminal) (data : gostring) (lineBuf : gostring)
         (w : list gostring) : option (gostring * list gostring) :=
  match data with
  | [] => Some (lineBuf, w)
  | b :: data' =>
      let lineBuf := lineBuf ++ [b] in
      if beq b LF || (lineFlushLimit <? length lineBuf) then
        w <- writeOutput t w lineBuf ;;
        feed t data' [] w
      else feed t data' lineBuf w
  end.

(** [t.processOutput(r, w)].  The reader [r] is the list of the results of
    its calls of [Read], the bytes read and whether an error came with
    them; the loop ends at the first error.  When the list ends before
    that, the result is what has been written so far. *)
Fixpoint processOutput (t : Terminal) (reads : list (gostring * bool))
         (lineBuf : gostring) (w : list gostring) : option (list gostring) :=
  match reads with
  | [] => Some w
  | (data, err) :: reads' =>
      ' (lineBuf, w) <-
        (if 0 <? length data then
           ' (lineBuf, w) <- feed t data lineBuf w ;;
           if 0 <? length lineBuf then
             w <- writeOutput t w lineBuf ;;
             Some ([], w)
           else Some (lineBuf, w)
         else Some (lineBuf, w)) ;;
      if err then Some w else processOutput t reads' lineBuf w
  end.

(** The bytes that the reads hand over, up to the first error. *)
Fixpoint consumed (reads : list (gostring * bool)) : gostring :=
  match reads with
  | [] => []
  | (data, err) :: reads' => data ++ (if err then [] else consumed reads')
  end.

(** A piece as [processOutput] cuts them: not empty, no longer than one
    byte over the flush limit, with no newline before its last byte. *)
Definition isPiece (p : gostring) : Prop :=
  p <> [] /\ length p <= S lineFlushLimit /\
  Forall (fun b => beq b LF = false) (removelast p).

(** What [writeOutput] writes for the piece [p]. *)
Definition written (t : Terminal) (p out : gostring) : Prop :=
  if enabled t then HighlightForced (highlighter t) p = Some out else out = p.

(** The bytes of each read, read by read, up to the first error. *)
Fixpoint consumedReads (reads : list (gostring * bool)) : list gostring :=
  match reads with
  | [] => []
  | (data, err) :: reads' => data :: (if err then [] else consumedReads reads')
  end.

(** A piece that was written before its read was at its end: it ends in a
    newline or is one byte over the flush limit. *)
Definition isFlushed (p : gostring) : Prop :=
  last p NUL = LF \/ length p = S lineFlushLimit.

(** [cutOf data group]: the pieces of [group] are the bytes [data] of one
    read, cut as [processOutput] cuts them: every piece is a piece, and
    every piece but the last was flushed by a newline or by the limit. *)
Definition cutOf (data : gostring) (group : list gostring) : Prop :=
  concat group = data /\ Forall isPiece group /\
  Forall isFlushed (removelast group).

End TerminalIO.

(** ** The filter on standard input ([cmd/jink/main.go]) *)

Module Cli.

Import Lex Highlighter Themes.

(** [reader.ReadString('\n')] on the input that is left: the bytes up to
    and with the first newline, and what is left after them; [None] is the
    end of the input, where the error [io.EOF] comes with the last bytes. *)
Fixpoint ReadString (s : gostring) : gostring * option gostring :=
  match s with
  | [] => ([], None)
  | b :: s' =>
      if beq b LF then ([b], Some s')
      else let '(line, rest) := ReadString s' in (b :: line, rest)
  end.

(** The loop of [highlightStdin], on the state [(detectedJunOS, out)];
    [out] is what has been printed. *)
Fixpoint stdinLoop (fuel : nat) (hl : Highlighter) (disabled force : bool)
         (detectedJunOS : bool) (s : gostring) (out : gostring) : option gostring :=
  match fuel with
  | 0 => None
  | S fuel' =>
      let '(line, rest) := ReadString s in
      ' (detectedJunOS, out) <-
        (if 0 <? length line then
           if disabled then Some (detectedJunOS, out ++ line)
           else if detectedJunOS || force then
             highlighted <- HighlightForced hl line ;;
             Some (detectedJunOS, out ++ highlighted)
           else
             highlighted <- Highlight hl line ;;
             let detectedJunOS :=
               if negb (eqs highlighted line) then true else detectedJunOS in
             Some (detectedJunOS, out ++ highlighted)
         else Some (detectedJunOS, out)) ;;
      match rest with
      | None => Some out
      | Some s' => stdinLoop fuel' hl disabled force detectedJunOS s' out
      end
  end.

(** [highlightStdin(theme, disabled, force)] on the piped input [stdin];
    the result is what is printed. *)
Definition highlightStdin (theme : Theme) (disabled force : bool) (stdin : gostring)
  : option gostring :=
  let hl := NewWithTheme theme in
  let detectedJunOS := force in
  stdinLoop (S (length stdin)) hl disabled force detectedJunOS stdin [].

(** The theme that [main] selects for the flag value [themeName]. *)
Definition selectTheme (themeName : gostring) : Theme :=
  ThemeByName (ToLower themeName).

(** [runWithTerminal(args, theme, disabled)]: the terminal it runs. *)
Definition runWithTerminal (theme : Theme) (disabled : bool) : TerminalIO.Terminal :=
  let t := TerminalIO.New in
  let t := TerminalIO.SetTheme t theme in
  TerminalIO.SetEnabled t (negb disabled).

End Cli.

(** ** The names of the token types ([token.go]) *)

Module TokenNames.

Import Token.

(** [t.String()]; the [default] case, ["Unknown"], is that of a number
    outside the declared token types. *)
Definition String_ (t : TokenType) : gostring :=
  match t with
  | TokenText => str "Text"
  | TokenCommand => str "Command"
  | TokenSection => str "Section"
  | TokenProtocol => str "Protocol"
  | TokenAction => str "Action"
  | TokenInterface => str "Interface"
  | TokenIPv4 => str "IPv4"
  | TokenIPv4Prefix => str "IPv4Prefix"
  | TokenIPv6 => str "IPv6"
  | TokenIPv6Prefix => str "IPv6Prefix"
  | TokenMAC => str "MAC"
  | TokenNumber => str "Number"
  | TokenString => str "String"
  | TokenComment => str "Comment"
  | TokenAnnotation => str "Annotation"
  | TokenBrace => str "Brace"
  | TokenSemicolon => str "Semicolon"
  | TokenWildcard => str "Wildcard"
  | TokenIdentifier => str "Identifier"
  | TokenKeyword => str "Keyword"
  | TokenOperator => str "Operator"
  | TokenUnit => str "Unit"
  | TokenASN => str "ASN"
  | TokenCommunity => str "Community"
  | TokenValue => str "Value"
  | TokenStateGood => str "StateGood"
  | TokenStateBad => str "StateBad"
  | TokenStateWarning => str "StateWarning"
  | TokenStateNeutral => str "StateNeutral"
  | TokenColumnHeader => str "ColumnHeader"
  | TokenStatusSymbol => str "StatusSymbol"
  | TokenTimeDuration => str "TimeDuration"
  | TokenPercentage => str "Percentage"
  | TokenByteSize => str "ByteSize"
  | TokenRouteProtocol => str "RouteProtocol"
  | TokenTableName => str "TableName"
  | TokenPromptUser => str "PromptUser"
  | TokenPromptAt => str "PromptAt"
  | TokenPromptHostOper => str "PromptHostOper"
  | TokenPromptHostConf => str "PromptHostConf"
  | TokenPromptOper => str "PromptOper"
  | TokenPromptConf => str "PromptConf"
  | TokenPromptEdit => str "PromptEdit"
  | TokenDiffAdd => str "DiffAdd"
  | TokenDiffRemove => str "DiffRemove"
  | TokenDiffContext => str "DiffContext"
  end.

Definition Unknown : gostring := str "Unknown".

End TokenNames.

(** ** The shape of the segments *)

Module Segments.

Import Escape.





End Segments.

(** ** The parse-mode detector for any lower-casing, and the claim's
       sample of characters *)

Module DetectorWith.

Import Regexp Tables Lex DetectorSpec.

Section Lower.

(** [strings.ToLower].  It stands here as a variable, so that what is
    proved of the detector holds of the library's function on every input,
    also on text outside the ASCII range, where [GoString.ToLower] leaves
    the bytes as they are. *)
Variable lower : gostring -> gostring.

(** [l.detectParseMode()] *)
Definition detectParseModeWith (l : Lexer) : ParseMode :=
  let sample := input l in
  let sample :=
    if parseModeDetectionSampleSize <? length sample
    then slice sample 0 parseModeDetectionSampleSize
    else sample in
  let lower := lower sample in
  let configScore := scoreIndicators lower Lex.configIndicators 0 in
  let showScore := scoreIndicators lower Lex.showIndicators 0 in
  let showScore := if MatchString tabularPattern sample then showScore + 2 else showScore in
  if (2 <=? showScore) && (configScore <? showScore) then ParseModeShow
  else ParseModeConfig.



End Lower.





End DetectorWith.

(** ** Kinds of token types *)

Module Kinds.

Import Lex.

(** The types of the tokens of a prompt. *)
Definition isPromptType (t : TokenType) : bool :=
  match t with
  | TokenPromptUser | TokenPromptAt | TokenPromptHostOper | TokenPromptHostConf
  | TokenPromptOper | TokenPromptConf | TokenPromptEdit => true
  | _ => false
  end.

(** The types of the tokens of a diff. *)
Definition isDiffType (t : TokenType) : bool :=
  match t with
  | TokenDiffAdd | TokenDiffRemove | TokenDiffContext => true
  | _ => false
  end.

(** The types that the scanners give without classifying a word. *)
Definition isScannerType (t : TokenType) : bool :=
  match t with
  | TokenText | TokenComment | TokenAnnotation | TokenString | TokenBrace
  | TokenSemicolon | TokenWildcard => true
  | _ => false
  end.

(** The types that only the rules of configuration text give. *)
Definition isConfigOnly (t : TokenType) : bool :=
  match t with
  | TokenCommand | TokenSection | TokenProtocol | TokenAction | TokenKeyword
  | TokenUnit | TokenASN | TokenValue => true
  | _ => false
  end.

(** The types that only the rules of show output give. *)
Definition isShowOnly (t : TokenType) : bool :=
  match t with
  | TokenStateGood | TokenStateBad | TokenStateWarning | TokenStateNeutral
  | TokenColumnHeader | TokenStatusSymbol | TokenTimeDuration | TokenPercentage
  | TokenByteSize | TokenRouteProtocol | TokenTableName => true
  | _ => false
  end.

(** The types that the patterns shared by both modes give. *)
Definition isSharedType (t : TokenType) : bool :=
  match t with
  | TokenInterface | TokenIPv4Prefix | TokenIPv4 | TokenMAC | TokenCommunity
  | TokenIPv6Prefix | TokenIPv6 | TokenNumber | TokenIdentifier => true
  | _ => false
  end.

(** A lexer whose mode is settled as configuration text. *)
Definition settledConfig (l : Lexer) : Prop :=
  parseMode l = ParseModeConfig /\ detectedMode l = true.

End Kinds.

(* ================================================================== *)
(** * Part II: properties                                             *)
(* ================================================================== *)

(** ** Go strings *)

Module GoStringFacts.

Lemma at_lt {s : gostring} {i : nat} {b : byte} :
  at_ s i = Some b -> i < length s.
Proof.
  unfold at_. intros H. apply nth_error_Some. congruence.
Qed.

Lemma at_ge {s : gostring} {i : nat} :
  at_ s i = None -> length s <= i.
Proof.
  unfold at_. apply nth_error_None.
Qed.

Lemma at_some (s : gostring) (i : nat) :
  i < length s -> exists b, at_ s i = Some b.
Proof.
  unfold at_. intros H. destruct (nth_error s i) eqn:E; eauto.
  apply nth_error_None in E. lia.
Qed.

Lemma firstn_snoc (s : gostring) (i : nat) (b : byte) :
  at_ s i = Some b -> firstn (S i) s = firstn i s ++ [b].
Proof.
  unfold at_. revert i. induction s as [|a s IH]; intros [|i] H; simpl in *;
    try discriminate.
  - congruence.
  - f_equal. apply IH, H.
Qed.

Lemma firstn_slice (s : gostring) (i j : nat) :
  i <= j -> firstn i s ++ slice s i j = firstn j s.
Proof.
  unfold slice. revert s j. induction i as [|i IH]; intros s j H.
  - simpl. now rewrite Nat.sub_0_r.
  - destruct j as [|j]; [lia|]. destruct s as [|a s]; simpl.
    + now rewrite firstn_nil.
    + f_equal. apply IH. lia.
Qed.

Lemma slice_all (s : gostring) : slice s 0 (length s) = s.
Proof.
  unfold slice. simpl. rewrite Nat.sub_0_r. apply firstn_all.
Qed.

Lemma substr_ok (s : gostring) (lo hi : nat) :
  lo <= hi -> hi <= length s -> substr s lo hi = Some (slice s lo hi).
Proof.
  intros H1 H2. unfold substr.
  destruct (Nat.leb_spec lo hi); [|lia].
  destruct (Nat.leb_spec hi (length s)); [|lia]. reflexivity.
Qed.

Lemma length_slice (s : gostring) (lo hi : nat) :
  hi <= length s -> length (slice s lo hi) = hi - lo.
Proof.
  intros H. unfold slice. rewrite length_firstn, length_skipn. lia.
Qed.

Lemma beq_refl (b : byte) : beq b b = true.
Proof. apply Ascii.eqb_refl. Qed.

Lemma beq_eq (a b : byte) : beq a b = true -> a = b.
Proof. apply Ascii.eqb_eq. Qed.

Lemma eqs_eq (s t : gostring) : eqs s t = true <-> s = t.
Proof.
  revert t. induction s as [|a s IH]; intros [|b t]; simpl; split; intros H;
    try discriminate; try reflexivity.
  - apply andb_true_iff in H as [H1 H2]. apply beq_eq in H1. apply IH in H2.
    congruence.
  - injection H as -> ->. rewrite beq_refl. simpl. apply IH. reflexivity.
Qed.

Lemma eqs_nil (s : gostring) : eqs s [] = false <-> s <> [].
Proof.
  destruct s; simpl; split; intros H; congruence.
Qed.

End GoStringFacts.

(** ** Escape segmenter and stripper *)

Module EscapeFacts.

Import Escape GoStringFacts.

(** The scanning loops end inside the input with the fuel they are given. *)
Lemma skipWhile_ok (p : byte -> bool) (input : gostring) :
  forall fuel i, length input - i <= fuel ->
    exists j, skipWhile fuel p input i = Some j /\ i <= j /\
              (i <= length input -> j <= length input).
Proof.
  induction fuel as [|fuel IH]; intros i Hf; simpl;
    destruct (at_ input i) as [b|] eqn:E;
    try (exists i; repeat split; lia).
  - apply at_lt in E. destruct (p b); [lia|]. exists i. repeat split; lia.
  - pose proof (at_lt E) as Hlt.
    destruct (p b); [|exists i; repeat split; lia].
    destruct (IH (S i)) as (j & -> & H1 & H2); [lia|].
    exists j. repeat split; lia.
Qed.

(** Over bytes that all satisfy the test the loop runs to the end. *)
Lemma skipWhile_all (p : byte -> bool) (input : gostring) :
  forall fuel i, length input - i <= fuel ->
    (forall j b, i <= j -> at_ input j = Some b -> p b = true) ->
    i <= length input ->
    skipWhile fuel p input i = Some (length input).
Proof.
  induction fuel as [|fuel IH]; intros i Hf Hall Hi; simpl;
    destruct (at_ input i) as [b|] eqn:E.
  - apply at_lt in E. lia.
  - apply at_ge in E. f_equal. lia.
  - pose proof (at_lt E) as Hlt.
    rewrite (Hall i b (le_n _) E).
    apply IH; [lia| |lia]. intros j b' Hj. apply Hall. lia.
  - apply at_ge in E. f_equal. lia.
Qed.

Lemma skipCSISequence_ok (input : gostring) (i : nat) :
  i <= length input ->
  exists j, skipCSISequence input i = Some j /\ i <= j /\ j <= length input.
Proof.
  intros Hi. unfold skipCSISequence.
  destruct (skipWhile_ok isCSIParamByte input (length input) i) as (j & -> & H1 & H2);
    [lia|]. simpl.
  destruct (at_ input j) as [b|] eqn:E.
  - apply at_lt in E. destruct (isCSIFinalByte b); eexists; (split; [reflexivity|lia]).
  - exists j. split; [reflexivity|lia].
Qed.

Lemma skipOtherEscapeSequence_ok (input : gostring) (i : nat) :
  i <= length input ->
  exists j, skipOtherEscapeSequence input i = Some j /\ i <= j /\ j <= length input.
Proof.
  intros Hi. unfold skipOtherEscapeSequence.
  destruct (skipWhile_ok isCSIIntermediateByte input (length input) i)
    as (j & -> & H1 & H2); [lia|]. simpl.
  destruct (Nat.ltb_spec j (length input)); eexists; (split; [reflexivity|lia]).
Qed.

Lemma startsCSI_true (input : gostring) (i : nat) :
  startsCSI input i = true ->
  at_ input i = Some escapeChar /\ i + 2 <= length input.
Proof.
  unfold startsCSI. destruct (at_ input i) as [b|] eqn:E1; [|discriminate].
  destruct (at_ input (i + 1)) as [b'|] eqn:E2; [|discriminate].
  intros H. apply andb_true_iff in H as [H _]. apply beq_eq in H. subst b.
  apply at_lt in E2. split; [reflexivity|lia].
Qed.

Lemma texts_app (a b : list segment) : texts (a ++ b) = texts a ++ texts b.
Proof.
  unfold texts. rewrite map_app. apply concat_app.
Qed.

Lemma texts_flush (segments : list segment) (textBuf : gostring) :
  texts (flush segments textBuf) = texts segments ++ textBuf.
Proof.
  unfold flush. destruct textBuf as [|b t]; simpl.
  - now rewrite app_nil_r.
  - rewrite texts_app. unfold texts. simpl. now rewrite app_nil_r.
Qed.

(** The invariant of the loop of [extractSegments]: the segments and the
    pending text together are the input read so far. *)
Lemma extractLoop_ok (input : gostring) :
  forall fuel i textBuf segments,
    i <= length input -> length input - i <= fuel ->
    texts segments ++ textBuf = firstn i input ->
    exists out, extractLoop fuel input i textBuf segments = Some out /\
                texts out = input.
Proof.
  induction fuel as [|fuel IH]; intros i textBuf segments Hi Hf Hinv; simpl;
    destruct (at_ input i) as [b|] eqn:E.
  - apply at_lt in E. lia.
  - apply at_ge in E. eexists. split; [reflexivity|].
    rewrite texts_flush, Hinv. apply firstn_all2. lia.
  - pose proof (at_lt E) as Hlt.
    destruct (startsCSI input i) eqn:Hcsi.
    + apply startsCSI_true in Hcsi as [_ Hlen].
      destruct (skipCSISequence_ok input (i + 2)) as (j & -> & H1 & H2); [lia|].
      simpl. rewrite substr_ok by lia. simpl.
      apply IH; [lia|lia|].
      rewrite app_nil_r, texts_app, texts_flush, Hinv. unfold texts at 1. simpl.
      rewrite app_nil_r. apply firstn_slice. lia.
    + apply IH; [lia|lia|].
      rewrite app_assoc, Hinv. symmetry. apply firstn_snoc, E.
  - apply at_ge in E. eexists. split; [reflexivity|].
    rewrite texts_flush, Hinv. apply firstn_all2. lia.
Qed.

Lemma extractLoop_end (input : gostring) (fuel i : nat) textBuf segments :
  at_ input i = None ->
  extractLoop fuel input i textBuf segments = Some (flush segments textBuf).
Proof.
  intros H. destruct fuel; simpl; now rewrite H.
Qed.

Lemma extractLoop_csi (input : gostring) (fuel i j : nat) textBuf segments :
  startsCSI input i = true ->
  skipCSISequence input (i + 2) = Some j ->
  i <= j -> j <= length input ->
  extractLoop (S fuel) input i textBuf segments =
  extractLoop fuel input j []
              (flush segments textBuf ++ [mkSegment (slice input i j) true]).
Proof.
  intros Hcsi Hskip Hij Hj. simpl.
  destruct (startsCSI_true _ _ Hcsi) as [-> _].
  rewrite Hcsi, Hskip. simpl. now rewrite substr_ok.
Qed.

(** [C6] Segment round trip.  For every input [s], [extractSegments]
    returns, and the texts of its segments, escape and text segments alike,
    concatenated in order are [s] byte for byte.  A CSI sequence cut off at
    the end of the input (the introducer followed by parameter bytes only)
    is returned as one escape segment that holds all of it. *)
Theorem extractSegments_roundtrip :
  (forall s, exists segments,
      extractSegments s = Some segments /\ texts segments = s) /\
  (forall ps,
      let cut := escapeChar :: csiBracket :: filter isCSIParamByte ps in
      extractSegments cut = Some [mkSegment cut true]).
Proof.
  split.
  - intros s. apply extractLoop_ok; simpl; [lia|lia|reflexivity].
  - intros ps cut.
    assert (Hnone : at_ cut (length cut) = None) by (apply nth_error_None; lia).
    assert (Hskip : skipCSISequence cut (0 + 2) = Some (length cut)).
    { unfold skipCSISequence.
      rewrite (skipWhile_all isCSIParamByte cut (length cut) (0 + 2)).
      - cbn [bind]. now rewrite Hnone.
      - lia.
      - intros j b Hj Hb. destruct j as [|[|j]]; try (simpl in Hj; lia).
        unfold at_ in Hb. simpl in Hb. apply nth_error_In in Hb.
        apply filter_In in Hb. tauto.
      - simpl. lia. }
    unfold extractSegments.
    change (length cut) with (S (S (length (filter isCSIParamByte ps)))) at 1.
    rewrite (extractLoop_csi cut _ 0 (length cut)); try reflexivity; try assumption;
      try lia.
    rewrite extractLoop_end by assumption.
    now rewrite slice_all.
Qed.

(** *** Stripping *)

(** The stripper returns, and what it returns holds no escape byte. *)
Lemma stripLoop_escFree (input : gostring) :
  forall fuel i buf,
    i <= length input -> length input - i <= fuel -> escFree buf ->
    exists out, stripLoop fuel input i buf = Some out /\ escFree out.
Proof.
  induction fuel as [|fuel IH]; intros i buf Hi Hf Hbuf; simpl;
    destruct (at_ input i) as [b|] eqn:E; try (eexists; split; [reflexivity|assumption]).
  - apply at_lt in E. lia.
  - pose proof (at_lt E) as Hlt.
    destruct (startsCSI input i) eqn:Hcsi.
    + apply startsCSI_true in Hcsi as [_ Hlen].
      destruct (skipCSISequence_ok input (i + 2)) as (j & -> & H1 & H2); [lia|].
      simpl. apply IH; [lia|lia|assumption].
    + destruct (beq b escapeChar) eqn:Hb.
      * destruct (skipOtherEscapeSequence_ok input (i + 1)) as (j & -> & H1 & H2);
          [lia|].
        simpl. apply IH; [lia|lia|assumption].
      * apply IH; [lia|lia|]. apply Forall_app. split; [assumption|].
        constructor; [assumption|constructor].
Qed.

Lemma startsCSI_escFree (input : gostring) (i : nat) (b : byte) :
  at_ input i = Some b -> beq b escapeChar = false -> startsCSI input i = false.
Proof.
  intros E Hb. unfold startsCSI. rewrite E.
  destruct (at_ input (i + 1)); [|reflexivity]. now rewrite Hb.
Qed.

(** On an input without escape bytes the stripper copies the input. *)
Lemma stripLoop_copy (input : gostring) :
  escFree input ->
  forall fuel i buf,
    i <= length input -> length input - i <= fuel -> buf = firstn i input ->
    stripLoop fuel input i buf = Some input.
Proof.
  intros Hfree.
  induction fuel as [|fuel IH]; intros i buf Hi Hf Hbuf; simpl;
    destruct (at_ input i) as [b|] eqn:E.
  - apply at_lt in E. lia.
  - apply at_ge in E. subst buf. f_equal. apply firstn_all2. lia.
  - pose proof (at_lt E) as Hlt.
    assert (Hb : beq b escapeChar = false).
    { unfold escFree in Hfree. rewrite Forall_forall in Hfree.
      apply Hfree. eapply nth_error_In. exact E. }
    rewrite (startsCSI_escFree _ _ _ E Hb), Hb.
    apply IH; [lia|lia|]. subst buf. symmetry. apply firstn_snoc, E.
  - apply at_ge in E. subst buf. f_equal. apply firstn_all2. lia.
Qed.

Lemma StripANSI_escFree (s : gostring) :
  exists t, StripANSI s = Some t /\ escFree t.
Proof.
  apply stripLoop_escFree; [lia|lia|constructor].
Qed.

Lemma StripANSI_copy (s : gostring) : escFree s -> StripANSI s = Some s.
Proof.
  intros H. apply stripLoop_copy; [assumption|lia|lia|reflexivity].
Qed.

(** [C7] Stripping is idempotent.  For every input [s], [StripANSI s]
    returns a string [t], and stripping [t] again returns [t]. *)
Theorem StripANSI_idempotent :
  forall s, exists t, StripANSI s = Some t /\ StripANSI t = Some t.
Proof.
  intros s. destruct (StripANSI_escFree s) as (t & Hs & Hfree).
  exists t. split; [assumption|]. apply StripANSI_copy, Hfree.
Qed.

End EscapeFacts.

(** ** Classification and tokenization of given inputs *)

Module LexExamples.

Import Lex.

(** [C2] The word [up].  As the claim states it, the second half fails: in
    Config mode the one token is not an identifier. *)
Lemma up_config_is_not_identifier :
  ~ ((exists tok, Tokenize (SetParseMode (New (str "up")) ParseModeShow) = Some [tok]
                  /\ Type_ tok = TokenStateGood) /\
     (exists tok, Tokenize (SetParseMode (New (str "up")) ParseModeConfig) = Some [tok]
                  /\ Type_ tok = TokenIdentifier)).
Proof.
  intros [_ (tok & H & Hty)]. vm_compute in H.
  injection H as <-. discriminate Hty.
Qed.

(** [C2], amended.  Tokenizing [up] in Show mode yields exactly one token, of
    kind state-good; in Config mode it yields exactly one token, of kind
    command, since [up] is a key of [commands]. *)
Theorem up_show_good_config_command :
  Tokenize (SetParseMode (New (str "up")) ParseModeShow)
    = Some [mkToken TokenStateGood (str "up") 1 1] /\
  Tokenize (SetParseMode (New (str "up")) ParseModeConfig)
    = Some [mkToken TokenCommand (str "up") 1 1].
Proof.
  split; vm_compute; reflexivity.
Qed.

(** [C3] Precedence.  As the claim states it, the AS number fails in Show
    mode: with both expectations unset the word is an identifier there. *)
Lemma asn_show_is_identifier :
  let l := SetParseMode (New (str "AS65000")) ParseModeShow in
  expectingValue l = false /\ expectingUnit l = false /\
  fst (classifyWord (str "AS65000") l) = TokenIdentifier /\
  fst (classifyWord (str "AS65000") l) <> TokenASN.
Proof.
  vm_compute. repeat split. discriminate.
Qed.

(** [C3], amended.  With [expectingUnit] unset, in Config mode the four
    words are classified ASN, IPv4-with-prefix, MAC and community; in Show
    mode, whose cascade has no AS-number test, the last three are classified
    the same and [AS65000] is an identifier. *)
Theorem precedence (l : Lexer) (Hunit : expectingUnit l = false) :
  (parseMode l = ParseModeConfig ->
     fst (classifyWord (str "AS65000") l) = TokenASN /\
     fst (classifyWord (str "192.168.1.0/24") l) = TokenIPv4Prefix /\
     fst (classifyWord (str "00:11:22:33:44:55") l) = TokenMAC /\
     fst (classifyWord (str "65000:100") l) = TokenCommunity) /\
  (parseMode l = ParseModeShow ->
     fst (classifyWord (str "AS65000") l) = TokenIdentifier /\
     fst (classifyWord (str "192.168.1.0/24") l) = TokenIPv4Prefix /\
     fst (classifyWord (str "00:11:22:33:44:55") l) = TokenMAC /\
     fst (classifyWord (str "65000:100") l) = TokenCommunity).
Proof.
  destruct l as [inp p ln c m dm ev eu lt]. simpl in Hunit. subst eu.
  split; simpl; intros ->; repeat split; vm_compute; reflexivity.
Qed.

Lemma precedence_witness :
  let l := SetParseMode (New (str "AS65000")) ParseModeConfig in
  expectingUnit l = false /\
  fst (classifyWord (str "AS65000") l) = TokenASN.
Proof.
  split; [reflexivity|].
  apply (proj1 (precedence (SetParseMode (New (str "AS65000")) ParseModeConfig)
                           eq_refl) eq_refl).
Defined.

(** [C8] The prompt line [user@router> show route].  The whole input matches
    the prompt pattern, so [tryTokenizePrompt] returns the tokens: user, at,
    host-operational, prompt-operational, the white space after the prompt
    character, and the tokens of the command [show route] tokenized by a
    lexer of its own, the first of which is the command [show]. *)
Theorem prompt_show_route :
  let input := str "user@router> show route" in
  let tokens :=
    [mkToken TokenPromptUser (str "user") 1 1;
     mkToken TokenPromptAt (str "@") 1 5;
     mkToken TokenPromptHostOper (str "router") 1 6;
     mkToken TokenPromptOper (str ">") 1 12;
     mkToken TokenText (str " ") 1 13;
     mkToken TokenCommand (str "show") 1 14;
     mkToken TokenText (str " ") 1 18;
     mkToken TokenKeyword (str "route") 1 19] in
  tryTokenizePrompt Tokenize input = Some (Some tokens) /\
  Tokenize (New input) = Some tokens /\
  Tokenize (New (str "show route"))
    = Some [mkToken TokenCommand (str "show") 1 1;
            mkToken TokenText (str " ") 1 5;
            mkToken TokenKeyword (str "route") 1 6].
Proof.
  repeat split; vm_compute; reflexivity.
Qed.

(** [C1] Bytes that the token values lose or add.  After a value keyword the
    unquoted value is trimmed on the right while the cursor stays behind
    the trimmed blanks: the space before the semicolon is in no token.  On
    the prompt path a line that ends right after the prompt character has
    its newline in group 7 and once more as the closing token. *)
Theorem losslessness_fails :
  (exists tokens, Tokenize (New (str "host-name r1 ;")) = Some tokens /\
                  values tokens = str "host-name r1;" /\
                  values tokens <> str "host-name r1 ;") /\
  (exists tokens, Tokenize (New (str "user@router>" ++ [LF])) = Some tokens /\
                  values tokens = str "user@router>" ++ [LF; LF] /\
                  values tokens <> str "user@router>" ++ [LF]).
Proof.
  split; eexists; (split; [vm_compute; reflexivity|]);
    (split; [vm_compute; reflexivity|vm_compute; discriminate]).
Qed.

(** [C9] An unterminated block comment.  The loop of [scanBlockComment]
    stops one byte before the end of the input: the comment token lacks the
    last byte, which is scanned as a token of its own. *)
Theorem block_comment_leaves_last_byte :
  Tokenize (New (str "/* abc"))
    = Some [mkToken TokenComment (str "/* ab") 1 1;
            mkToken TokenIdentifier (str "c") 1 6].
Proof.
  vm_compute. reflexivity.
Qed.

End LexExamples.

(** ** The parse-mode detector *)

Module DetectorFacts.

Import Regexp Tables Lex DetectorSpec DetectorWith GoStringFacts.

Lemma scoreIndicators_present (lower : gostring) (inds : list gostring) :
  forall score, scoreIndicators lower inds score = score + present lower inds.
Proof.
  unfold scoreIndicators, present.
  induction inds as [|ind inds IH]; intros score; simpl.
  - lia.
  - rewrite IH. destruct (Contains lower ind); simpl; lia.
Qed.

Lemma sample_firstn (n : nat) (s : gostring) :
  (if n <? length s then slice s 0 n else s) = firstn n s.
Proof.
  destruct (Nat.ltb_spec n (length s)).
  - unfold slice. simpl. now rewrite Nat.sub_0_r.
  - symmetry. now apply firstn_all2.
Qed.

Lemma detectParseMode_detect (l : Lexer) :
  detectParseMode l = detect (firstn parseModeDetectionSampleSize (input l)).
Proof.
  unfold detectParseMode. rewrite sample_firstn.
  set (sample := firstn parseModeDetectionSampleSize (input l)).
  rewrite !scoreIndicators_present. unfold detect, showScore, configScore, tabularBonus.
  simpl (0 + _).
  destruct (MatchString tabularPattern sample); [reflexivity|].
  now rewrite Nat.add_0_r.
Qed.

(** The detector of the embedded lexer is the one with [ToLower]. *)
Lemma detectParseMode_with_ToLower (l : Lexer) :
  detectParseMode l = detectParseModeWith ToLower l.
Proof.
  reflexivity.
Qed.





End DetectorFacts.

(** ** Regular expressions *)

Module RegexpFacts.

Import Regexp GoStringFacts.

Lemma within_nil (n i m j : nat) : within n i m j [].
Proof.
  intros a b [].
Qed.

Lemma within_app (n i m j i' m' j' : nat) (new new' : caps) :
  within n i m j new -> within n i' m' j' new' ->
  i + m <= i' + m' -> j <= j' ->
  within n i m j' (new' ++ new).
Proof.
  intros H H' Hi Hj a b Hin. apply in_app_or in Hin as [Hin|Hin].
  - apply H' in Hin. lia.
  - apply H in Hin. lia.
Qed.

Lemma iterate_inv (n m : nat) (input : gostring) (greedy : bool)
      (body : nat -> caps -> cont -> option caps) (k : cont) (res : caps) :
  (forall i c k', body i c k' = Some res -> i <= length input ->
                  reaches n m input i 0 c k' res) ->
  forall fuel i c,
    iterate greedy body k fuel i c = Some res -> i <= length input ->
    reaches n m input i 0 c k res.
Proof.
  intros Hbody.
  assert (Hstop : forall i c, k i c = Some res -> i <= length input ->
                              reaches n m input i 0 c k res).
  { intros i c Hk Hi. exists i, [].
    split; [exact Hk|]. split; [lia|]. split; [lia|apply within_nil]. }
  induction fuel as [|fuel IH]; intros i c H Hi; simpl in H.
  - now apply Hstop.
  - assert (Hmore :
              body i c (fun j c' =>
                          if i <? j then iterate greedy body k fuel j c' else None)
              = Some res -> reaches n m input i 0 c k res).
    { intros Hb. destruct (Hbody _ _ _ Hb Hi) as (j & new & Hk & Hj & Hlen & Hw).
      destruct (Nat.ltb_spec i j) as [Hlt|]; [|discriminate].
      destruct (IH _ _ Hk Hlen) as (j' & new' & Hk' & Hj' & Hlen' & Hw').
      exists j', (new' ++ new). rewrite <- app_assoc.
      split; [exact Hk'|]. split; [lia|]. split; [lia|].
      eapply within_app; eauto; lia. }
    destruct greedy.
    + destruct (body i c _) eqn:Hb.
      * injection H as ->. now apply Hmore.
      * now apply Hstop.
    + destruct (k i c) eqn:Hk.
      * injection H as ->. now apply Hstop.
      * now apply Hmore.
Qed.

(** A successful run of [r] from [i] calls its continuation at an offset
    [j] inside the input, at least [minLen r] further, with new captures
    that lie between [i] and [j]; those of a group that is [late] by [m]
    start at [i + m] or later. *)
Lemma run_inv (n : nat) (input : gostring) (res : caps) :
  forall r i c k m,
    run r input i c k = Some res -> i <= length input -> late n m r = true ->
    reaches n m input i (minLen r) c k res.
Proof.
  induction r as [|p|r1 IH1 r2 IH2|r1 IH1 r2 IH2|r1 IH1|r1 IH1|g r1 IH1| |];
    intros i c k m H Hi Hlate; simpl in H, Hlate.
  - exists i, []. simpl.
    split; [exact H|]. split; [lia|]. split; [lia|apply within_nil].
  - destruct (at_ input i) as [b|] eqn:E; [|discriminate].
    destruct (p b); [|discriminate]. apply at_lt in E.
    exists (S i), []. simpl.
    split; [exact H|]. split; [lia|]. split; [lia|apply within_nil].
  - apply andb_true_iff in Hlate as [Hl1 Hl2].
    destruct (IH1 _ _ _ _ H Hi Hl1) as (j1 & new1 & H1 & Hj1 & Hlen1 & Hw1).
    destruct (IH2 _ _ _ _ H1 Hlen1 Hl2) as (j2 & new2 & H2 & Hj2 & Hlen2 & Hw2).
    exists j2, (new2 ++ new1). rewrite <- app_assoc. simpl.
    split; [exact H2|]. split; [lia|]. split; [lia|].
    eapply within_app; eauto; lia.
  - apply andb_true_iff in Hlate as [Hl1 Hl2].
    destruct (run r1 input i c k) eqn:E1.
    + injection H as ->.
      destruct (IH1 _ _ _ _ E1 Hi Hl1) as (j & new & Hk & Hj & Hlen & Hw).
      exists j, new. simpl. split; [exact Hk|]. split; [lia|]. split; [lia|exact Hw].
    + destruct (IH2 _ _ _ _ H Hi Hl2) as (j & new & Hk & Hj & Hlen & Hw).
      exists j, new. simpl. split; [exact Hk|]. split; [lia|]. split; [lia|exact Hw].
  - eapply iterate_inv; [|exact H|exact Hi].
    intros i' c' k' Hb Hi'.
    destruct (IH1 _ _ _ _ Hb Hi' Hlate) as (j & new & Hk & Hj & Hlen & Hw).
    exists j, new. split; [exact Hk|]. split; [lia|]. split; [lia|exact Hw].
  - eapply iterate_inv; [|exact H|exact Hi].
    intros i' c' k' Hb Hi'.
    destruct (IH1 _ _ _ _ Hb Hi' Hlate) as (j & new & Hk & Hj & Hlen & Hw).
    exists j, new. split; [exact Hk|]. split; [lia|]. split; [lia|exact Hw].
  - apply andb_true_iff in Hlate as [Hg Hl1].
    destruct (IH1 _ _ _ _ H Hi Hl1) as (j & new & Hk & Hj & Hlen & Hw).
    exists j, ((g, (i, j)) :: new). simpl.
    split; [exact Hk|]. split; [lia|]. split; [lia|].
    intros a b [Heq|Hin]; [|now apply Hw].
    injection Heq as -> <- <-. rewrite Nat.eqb_refl in Hg.
    apply Nat.eqb_eq in Hg. lia.
  - destruct (i =? 0); [|discriminate].
    exists i, []. simpl.
    split; [exact H|]. split; [lia|]. split; [lia|apply within_nil].
  - destruct (i =? length input); [|discriminate].
    exists i, []. simpl.
    split; [exact H|]. split; [lia|]. split; [lia|apply within_nil].
Qed.

Lemma lookup_In (n : nat) (c : caps) (span : nat * nat) :
  lookup n c = Some span -> In (n, span) c.
Proof.
  induction c as [|[g sp] c IH]; simpl; [discriminate|].
  destruct (Nat.eqb_spec g n) as [->|].
  - intros H. injection H as ->. now left.
  - intros H. right. now apply IH.
Qed.

(** In the leftmost match of [r], a group that is late by [m] starts at
    offset [m] or later and ends inside the input. *)
Lemma find_late (n m : nat) (r : regex) (input : gostring) (c : caps) (a b : nat) :
  find r input = Some c -> late n m r = true -> n <> 0 ->
  lookup n c = Some (a, b) -> m <= a /\ b <= length input.
Proof.
  unfold find. intros Hfind Hlate Hn Hlook.
  assert (Hhit : forall start res,
             start <= length input ->
             run r input start [] (fun j c' => Some ((0, (start, j)) :: c')) = Some res ->
             res = c -> m <= a /\ b <= length input).
  { intros start res Hs Hrun ->.
    destruct (run_inv n input c r _ _ _ m Hrun Hs Hlate)
      as (j & new & Hk & Hj & Hlen & Hw).
    injection Hk as <-. cbn [lookup] in Hlook.
    destruct (Nat.eqb_spec 0 n); [congruence|].
    rewrite app_nil_r in Hlook. apply lookup_In, Hw in Hlook. lia. }
  assert (Hgen : forall tries start,
             start + tries = length input ->
             findFrom tries r input start = Some c -> m <= a /\ b <= length input).
  { induction tries as [|tries IH]; intros start Hs Hf; simpl in Hf;
      destruct (run r input start [] _) as [res|] eqn:Hrun; try discriminate.
    - injection Hf as Hf. apply (Hhit start res); [lia|exact Hrun|exact Hf].
    - injection Hf as Hf. apply (Hhit start res); [lia|exact Hrun|exact Hf].
    - apply (IH (S start)); [lia|exact Hf]. }
  apply (Hgen (length input) 0); [lia|exact Hfind].
Qed.

End RegexpFacts.

(** ** Scanning steps *)

Module LexFacts.

Import Regexp Tables Lex GoStringFacts.

Lemma moved_refl (l : Lexer) : moved l l.
Proof.
  unfold moved. repeat split; auto.
Qed.

Lemma moved_trans (a b c : Lexer) : moved a b -> moved b c -> moved a c.
Proof.
  unfold moved. intros (Hi & Hm & Hd & Hv & Hu & Ht & Hp & Hl)
                       (Hi' & Hm' & Hd' & Hv' & Hu' & Ht' & Hp' & Hl').
  rewrite Hi in *. repeat split; try congruence; lia.
Qed.

Lemma advance_moved (l : Lexer) : moved l (advance l).
Proof.
  unfold advance. destruct (at_ (input l) (pos l)) as [b|] eqn:E.
  - apply at_lt in E. destruct (beq b LF); unfold moved; simpl;
      repeat split; auto; lia.
  - apply moved_refl.
Qed.

Lemma advance_pos (l : Lexer) :
  pos l < length (input l) -> pos (advance l) = S (pos l).
Proof.
  intros H. unfold advance. destruct (at_some _ _ H) as [b ->].
  now destruct (beq b LF).
Qed.

Lemma moved_progress (l l' : Lexer) :
  moved l l' -> pos l < pos l' -> pos l <= length (input l) -> progress l l'.
Proof.
  unfold moved, progress. intros (Hi & Hm & Hd & _ & _ & _ & Hp & Hl) Hlt Hle.
  repeat split; auto; congruence.
Qed.

(** A step on [setExpectingValue l false] is a step on [l]. *)
Lemma progress_expecting (l l' : Lexer) (v : bool) :
  progress (setExpectingValue l v) l' -> progress l l'.
Proof.
  unfold progress. simpl. auto.
Qed.

(** *** The loops *)

Lemma advanceWhile_ok (p : byte -> bool) :
  forall fuel l, length (input l) - pos l <= fuel ->
    exists l', advanceWhile fuel p l = Some l' /\ moved l l'.
Proof.
  induction fuel as [|fuel IH]; intros l Hf; simpl;
    destruct (at_ (input l) (pos l)) as [b|] eqn:E;
    try (exists l; split; [reflexivity|apply moved_refl]).
  - apply at_lt in E. destruct (p b); [lia|].
    exists l; split; [reflexivity|apply moved_refl].
  - pose proof (at_lt E) as Hlt.
    destruct (p b); [|exists l; split; [reflexivity|apply moved_refl]].
    pose proof (advance_moved l) as Hm. pose proof (advance_pos l Hlt) as Hp.
    destruct (IH (advance l)) as (l' & -> & Hm').
    { destruct Hm as (-> & _). lia. }
    exists l'. split; [reflexivity|]. eapply moved_trans; eassumption.
Qed.

(** When the byte under the cursor passes the test, the loop moves. *)
Lemma advanceWhile_strict (p : byte -> bool) (l : Lexer) (b : byte) :
  at_ (input l) (pos l) = Some b -> p b = true ->
  exists l', advanceWhile (length (input l)) p l = Some l' /\ moved l l' /\
             pos l < pos l'.
Proof.
  intros E Hb. pose proof (at_lt E) as Hlt.
  destruct (length (input l)) as [|n] eqn:El; [lia|].
  simpl. rewrite E, Hb.
  pose proof (advance_moved l) as Hm. pose proof (advance_pos l) as Hp.
  rewrite El in Hp. specialize (Hp Hlt).
  destruct (advanceWhile_ok p n (advance l)) as (l' & -> & Hm').
  { destruct Hm as (-> & _). lia. }
  exists l'. split; [reflexivity|]. split.
  - eapply moved_trans; eassumption.
  - destruct Hm' as (_ & _ & _ & _ & _ & _ & Hle & _). lia.
Qed.

Lemma blockCommentLoop_ok :
  forall fuel l, length (input l) - pos l <= fuel ->
    exists l', blockCommentLoop fuel l = Some l' /\ moved l l'.
Proof.
  induction fuel as [|fuel IH]; intros l Hf; simpl;
    destruct (Nat.ltb_spec (pos l) (length (input l) - 1)) as [Hlt|Hge];
    try (exists l; split; [reflexivity|apply moved_refl]).
  - lia.
  - destruct (at_some (input l) (pos l)) as [a ->]; [lia|].
    destruct (at_some (input l) (pos l + 1)) as [b ->]; [lia|]. simpl.
    pose proof (advance_moved l) as Hm.
    destruct (beq a "*"%char && beq b "/"%char).
    + eexists. split; [reflexivity|].
      eapply moved_trans; [exact Hm|apply advance_moved].
    + pose proof (advance_pos l) as Hp.
      destruct (IH (advance l)) as (l' & -> & Hm').
      { destruct Hm as (-> & _). lia. }
      exists l'. split; [reflexivity|]. eapply moved_trans; eassumption.
Qed.

Lemma stringLoop_ok (quote : byte) :
  forall fuel l, length (input l) - pos l <= fuel ->
    exists l', stringLoop fuel quote l = Some l' /\ moved l l'.
Proof.
  induction fuel as [|fuel IH]; intros l Hf; simpl;
    destruct (at_ (input l) (pos l)) as [ch|] eqn:E;
    try (exists l; split; [reflexivity|apply moved_refl]).
  - apply at_lt in E. lia.
  - pose proof (at_lt E) as Hlt.
    destruct (beq ch quote).
    + eexists. split; [reflexivity|apply advance_moved].
    + set (l1 := if beq ch "\"%char && (pos l + 1 <? length (input l))
                 then advance l else l).
      assert (H1 : moved l l1).
      { unfold l1. destruct (_ && _); [apply advance_moved|apply moved_refl]. }
      assert (H2 : pos l < pos (advance l1)).
      { unfold l1. destruct (beq ch "\"%char && (pos l + 1 <? length (input l))) eqn:Hc.
        - pose proof (advance_moved (advance l)) as (_ & _ & _ & _ & _ & _ & Hle & _).
          rewrite (advance_pos l Hlt) in Hle. lia.
        - rewrite (advance_pos l Hlt). lia. }
      pose proof (advance_moved l1) as H3.
      assert (H4 : moved l (advance l1)) by (eapply moved_trans; eassumption).
      destruct (IH (advance l1)) as (l' & -> & Hm').
      { destruct H4 as (-> & _). lia. }
      exists l'. split; [reflexivity|]. eapply moved_trans; eassumption.
Qed.

(** A quoted string that is never closed runs to the end of the input. *)
Lemma stringLoop_unterminated (quote : byte) :
  forall fuel l,
    length (input l) - pos l <= fuel -> pos l <= length (input l) ->
    (forall j b, pos l <= j -> at_ (input l) j = Some b -> beq b quote = false) ->
    exists l', stringLoop fuel quote l = Some l' /\ pos l' = length (input l).
Proof.
  induction fuel as [|fuel IH]; intros l Hf Hp Hno; simpl;
    destruct (at_ (input l) (pos l)) as [ch|] eqn:E;
    try (apply at_ge in E; exists l; split; [reflexivity|lia]).
  - apply at_lt in E. lia.
  - pose proof (at_lt E) as Hlt. rewrite (Hno _ _ (le_n _) E).
    set (l1 := if beq ch "\"%char && (pos l + 1 <? length (input l))
               then advance l else l).
    assert (H1 : moved l l1).
    { unfold l1. destruct (_ && _); [apply advance_moved|apply moved_refl]. }
    pose proof (advance_moved l1) as H2.
    assert (H3 : moved l (advance l1)) by (eapply moved_trans; eassumption).
    assert (H4 : pos l < pos (advance l1)).
    { unfold l1. destruct (beq ch "\"%char && (pos l + 1 <? length (input l))).
      - pose proof (advance_moved (advance l)) as (_ & _ & _ & _ & _ & _ & Hle & _).
        rewrite (advance_pos l Hlt) in Hle. lia.
      - rewrite (advance_pos l Hlt). lia. }
    destruct H3 as (Hi & _ & _ & _ & _ & _ & Hle & Hlen).
    destruct (IH (advance l1)) as (l' & -> & Hend).
    + rewrite Hi. lia.
    + rewrite Hi. auto.
    + rewrite Hi. intros j b Hj. apply Hno. lia.
    + exists l'. split; [reflexivity|]. now rewrite <- Hi.
Qed.

(** *** Classification keeps the cursor and a detected mode *)

Ltac split_ifs :=
  repeat match goal with
         | |- context [if ?c then _ else _] => destruct c
         end.

Lemma classifyConfigWord_fields (word lower : gostring) (l : Lexer) :
  let l' := snd (classifyConfigWord word lower l) in
  input l' = input l /\ pos l' = pos l /\
  parseMode l' = parseMode l /\ detectedMode l' = detectedMode l.
Proof.
  unfold classifyConfigWord. split_ifs; repeat split; reflexivity.
Qed.

Lemma classifyShowWord_fields (word lower : gostring) (l : Lexer) :
  let l' := snd (classifyShowWord word lower l) in
  input l' = input l /\ pos l' = pos l /\
  parseMode l' = parseMode l /\ detectedMode l' = detectedMode l.
Proof.
  unfold classifyShowWord. split_ifs; repeat split; reflexivity.
Qed.

(** After the mode has been detected, a word is classified by the rules
    of the mode the lexer holds; the detector has no part in it. *)
Lemma classifyWord_latched (word : gostring) (l : Lexer) :
  detectedMode l = true ->
  classifyWord word l =
  if isShow (parseMode l) then classifyShowWord word (ToLower word) l
  else classifyConfigWord word (ToLower word) l.
Proof.
  intros H. unfold classifyWord. rewrite H.
  now rewrite andb_false_r.
Qed.

(** The first classification of a lexer in Auto mode sets the mode to the
    detector's answer and raises the flag. *)
Lemma classifyWord_detects (word : gostring) (l : Lexer) :
  parseMode l = ParseModeAuto -> detectedMode l = false ->
  let l' := snd (classifyWord word l) in
  detectedMode l' = true /\ parseMode l' = detectParseMode l /\
  parseMode l' <> ParseModeAuto.
Proof.
  intros Hm Hd. unfold classifyWord. rewrite Hm, Hd. cbn [isAuto negb andb].
  set (l1 := setMode l (detectParseMode l) true).
  assert (Hgoal : forall r : TokenType * Lexer,
             parseMode (snd r) = parseMode l1 /\ detectedMode (snd r) = detectedMode l1 ->
             detectedMode (snd r) = true /\ parseMode (snd r) = detectParseMode l /\
             parseMode (snd r) <> ParseModeAuto).
  { intros r [-> ->]. unfold l1. cbn [setMode parseMode detectedMode].
    repeat split. unfold detectParseMode. split_ifs; discriminate. }
  destruct (isShow (parseMode l1)); apply Hgoal.
  - pose proof (classifyShowWord_fields word (ToLower word) l1) as H.
    cbv zeta in H. tauto.
  - pose proof (classifyConfigWord_fields word (ToLower word) l1) as H.
    cbv zeta in H. tauto.
Qed.

Lemma classifyWord_fields (word : gostring) (l : Lexer) :
  let l' := snd (classifyWord word l) in
  input l' = input l /\ pos l' = pos l /\
  (detectedMode l = true -> detectedMode l' = true /\ parseMode l' = parseMode l).
Proof.
  unfold classifyWord.
  set (l1 := if isAuto (parseMode l) && negb (detectedMode l)
             then setMode l (detectParseMode l) true else l).
  assert (H1 : input l1 = input l /\ pos l1 = pos l /\
               (detectedMode l = true ->
                detectedMode l1 = true /\ parseMode l1 = parseMode l)).
  { unfold l1. destruct (detectedMode l) eqn:Ed; destruct (isAuto (parseMode l));
      simpl; (split; [reflexivity|split; [reflexivity|]]); intros H;
      try discriminate H; (split; [exact Ed|reflexivity]). }
  destruct H1 as (Hi & Hp & Hd).
  assert (Hgoal : forall r : TokenType * Lexer,
             input (snd r) = input l1 /\ pos (snd r) = pos l1 /\
             parseMode (snd r) = parseMode l1 /\ detectedMode (snd r) = detectedMode l1 ->
             input (snd r) = input l /\ pos (snd r) = pos l /\
             (detectedMode l = true ->
              detectedMode (snd r) = true /\ parseMode (snd r) = parseMode l)).
  { intros r (-> & -> & -> & ->). auto. }
  destruct (isShow (parseMode l1)); apply Hgoal.
  - apply classifyShowWord_fields.
  - apply classifyConfigWord_fields.
Qed.

(** *** The scanners return and move the cursor *)

Lemma substr_moved (l l' : Lexer) :
  moved l l' -> pos l <= length (input l) ->
  substr (input l') (pos l) (pos l') = Some (slice (input l) (pos l) (pos l')).
Proof.
  intros (Hi & _ & _ & _ & _ & _ & Hp & Hl) H. rewrite Hi.
  apply substr_ok; auto.
Qed.

Ltac finish_scan l Hm :=
  cbn [bind]; rewrite (substr_moved l _ Hm) by lia; cbn [bind];
  do 2 eexists; (split; [reflexivity|apply moved_progress; [exact Hm|lia|lia]]).

Lemma scanComment_ok (l : Lexer) (ch : byte) :
  at_ (input l) (pos l) = Some ch -> beq ch "#"%char = true ->
  steps_on l (scanComment l).
Proof.
  intros E Hch. pose proof (at_lt E) as Hlt. unfold scanComment.
  destruct (advanceWhile_strict untilNewline l ch E) as (l' & -> & Hm & Hp).
  { apply beq_eq in Hch. now subst ch. }
  finish_scan l Hm.
Qed.

Lemma scanDiffLine_ok (l : Lexer) :
  pos l < length (input l) ->
  exists r, scanDiffLine l = Some r /\
            match r with
            | None => True
            | Some (_, l') => progress l l'
            end.
Proof.
  intros Hlt. unfold scanDiffLine.
  destruct (at_some _ _ Hlt) as [ch E]. rewrite E. cbn [bind].
  destruct (beq ch "["%char && (pos l + 5 <? length (input l))
            && eqs (slice (input l) (pos l) (pos l + 5)) (str "[edit")) eqn:C1.
  - apply andb_true_iff in C1 as [C1 _]. apply andb_true_iff in C1 as [C1 _].
    destruct (advanceWhile_strict untilNewline l ch E) as (l' & -> & Hm & Hp).
    { apply beq_eq in C1. now subst ch. }
    cbn [bind]. rewrite (substr_moved l _ Hm) by lia. cbn [bind].
    eexists. split; [reflexivity|]. apply moved_progress; [exact Hm|lia|lia].
  - destruct ((beq ch "+"%char || beq ch "-"%char)
              && (pos l + 1 <? length (input l))) eqn:C2.
    + apply andb_true_iff in C2 as [_ C2]. apply Nat.ltb_lt in C2.
      destruct (at_some _ _ C2) as [next ->]. cbn [bind].
      destruct (beq next " "%char || beq next TAB).
      * eexists. split; [reflexivity|].
        apply moved_progress; [apply advance_moved|rewrite advance_pos; lia|lia].
      * eexists. split; [reflexivity|exact I].
    + eexists. split; [reflexivity|exact I].
Qed.

Lemma scanBlockComment_ok (l : Lexer) :
  pos l < length (input l) -> steps_on l (scanBlockComment l).
Proof.
  intros Hlt. unfold scanBlockComment.
  set (l2 := advance (advance l)).
  assert (H2 : moved l l2).
  { eapply moved_trans; apply advance_moved. }
  assert (Hp2 : pos l < pos l2).
  { pose proof (advance_moved (advance l)) as (_ & _ & _ & _ & _ & _ & Hle & _).
    rewrite (advance_pos l Hlt) in Hle. unfold l2. lia. }
  destruct (blockCommentLoop_ok (length (input l2)) l2) as (l' & -> & Hm'); [lia|].
  assert (Hm : moved l l') by (eapply moved_trans; eassumption).
  assert (pos l2 <= pos l') by (destruct Hm' as (_ & _ & _ & _ & _ & _ & Hle & _); lia).
  finish_scan l Hm.
Qed.

Lemma scanString_ok (quote : byte) (l : Lexer) :
  pos l < length (input l) ->
  exists tok l', scanString quote l = Some (tok, l') /\ moved l l' /\ pos l < pos l'.
Proof.
  intros Hlt. unfold scanString.
  set (l1 := advance l).
  assert (H1 : moved l l1) by apply advance_moved.
  assert (Hp1 : pos l1 = S (pos l)) by (apply advance_pos, Hlt).
  destruct (stringLoop_ok quote (length (input l1)) l1) as (l' & -> & Hm'); [lia|].
  assert (Hm : moved l l') by (eapply moved_trans; eassumption).
  assert (pos l1 <= pos l') by (destruct Hm' as (_ & _ & _ & _ & _ & _ & Hle & _); lia).
  cbn [bind]. rewrite (substr_moved l _ Hm) by lia. cbn [bind].
  do 2 eexists. split; [reflexivity|]. split; [exact Hm|lia].
Qed.

(** An unterminated quoted string is one token that holds the rest of the
    input: [scanString] takes the opening quote and, when no closing quote
    follows, every byte after it. *)
Lemma scanString_unterminated (quote : byte) (l : Lexer) :
  pos l < length (input l) ->
  (forall j b, pos l < j -> at_ (input l) j = Some b -> beq b quote = false) ->
  exists tok l',
    scanString quote l = Some (tok, l') /\ pos l' = length (input l) /\
    Value tok = skipn (pos l) (input l).
Proof.
  intros Hlt Hno. unfold scanString.
  set (l1 := advance l).
  assert (H1 : moved l l1) by apply advance_moved.
  assert (Hp1 : pos l1 = S (pos l)) by (apply advance_pos, Hlt).
  destruct H1 as (Hi & _).
  destruct (stringLoop_unterminated quote (length (input l1)) l1) as (l' & Hs & Hend).
  - lia.
  - rewrite Hi. lia.
  - rewrite Hi. intros j b Hj. apply Hno. lia.
  - destruct (stringLoop_ok quote (length (input l1)) l1) as (l'' & Hs' & Hm); [lia|].
    rewrite Hs in Hs'. injection Hs' as <-. rewrite Hs. cbn [bind].
    destruct Hm as (Hi' & _).
    assert (Hsub : substr (input l') (pos l) (pos l')
                   = Some (slice (input l) (pos l) (length (input l)))).
    { rewrite Hi', Hi, Hend, Hi. apply substr_ok; lia. }
    rewrite Hsub. cbn [bind].
    do 2 eexists. split; [reflexivity|]. split; [now rewrite Hend, Hi|].
    cbn [Value]. unfold slice. apply firstn_all2. rewrite length_skipn. lia.
Qed.

Lemma scanQuoted_ok (quote : byte) (l : Lexer) :
  pos l < length (input l) -> steps_on l (scanQuoted quote l).
Proof.
  intros Hlt. unfold scanQuoted.
  destruct (scanString_ok quote (setExpectingValue l false)) as (tok & l' & -> & Hm & Hp);
    [exact Hlt|].
  cbn [bind]. do 2 eexists. split; [reflexivity|].
  apply (progress_expecting l l' false).
  apply moved_progress; [exact Hm|exact Hp|simpl; lia].
Qed.

Lemma advance_progress (l : Lexer) :
  pos l < length (input l) -> progress l (advance l).
Proof.
  intros Hlt.
  apply moved_progress; [apply advance_moved|rewrite advance_pos; lia|lia].
Qed.

Lemma scanBrace_ok (l : Lexer) :
  pos l < length (input l) -> steps_on l (scanBrace l).
Proof.
  intros Hlt. unfold scanBrace. destruct (at_some _ _ Hlt) as [ch ->]. cbn [bind].
  do 2 eexists. split; [reflexivity|apply advance_progress, Hlt].
Qed.

Lemma scanSemicolon_ok (l : Lexer) :
  pos l < length (input l) -> steps_on l (scanSemicolon l).
Proof.
  intros Hlt. unfold scanSemicolon.
  do 2 eexists. split; [reflexivity|apply advance_progress, Hlt].
Qed.

Lemma scanWildcard_ok (l : Lexer) :
  pos l < length (input l) -> steps_on l (scanWildcard l).
Proof.
  intros Hlt. unfold scanWildcard.
  set (l1 := advance l).
  assert (H1 : moved l l1) by apply advance_moved.
  assert (Hp1 : pos l1 = S (pos l)) by (apply advance_pos, Hlt).
  destruct (advanceWhile_ok (fun ch => negb (beq ch ">"%char)) (length (input l1)) l1)
    as (l' & -> & Hm'); [lia|].
  cbn [bind].
  set (l2 := if pos l' <? length (input l') then advance l' else l').
  assert (H2 : moved l' l2).
  { unfold l2. destruct (_ <? _); [apply advance_moved|apply moved_refl]. }
  assert (Hm : moved l l2) by (eapply moved_trans; [|exact H2]; eapply moved_trans; eassumption).
  assert (pos l1 <= pos l2).
  { destruct Hm' as (_ & _ & _ & _ & _ & _ & Hle & _).
    destruct H2 as (_ & _ & _ & _ & _ & _ & Hle2 & _). lia. }
  finish_scan l Hm.
Qed.

Lemma scanWhitespace_ok (l : Lexer) (ch : byte) :
  at_ (input l) (pos l) = Some ch -> isWhitespace ch = true ->
  steps_on l (scanWhitespace l).
Proof.
  intros E Hch. pose proof (at_lt E) as Hlt. unfold scanWhitespace.
  destruct (advanceWhile_strict isWhitespace l ch E Hch) as (l' & -> & Hm & Hp).
  finish_scan l Hm.
Qed.

Lemma scanUnquotedValue_ok (l : Lexer) (ch : byte) :
  at_ (input l) (pos l) = Some ch ->
  beq ch ";"%char = false -> isWhitespace ch = false ->
  steps_on l (scanUnquotedValue l).
Proof.
  intros E H1 H2. pose proof (at_lt E) as Hlt. unfold scanUnquotedValue.
  destruct (advanceWhile_strict (fun ch => negb (beq ch ";"%char || beq ch LF)) l ch E)
    as (l' & -> & Hm & Hp).
  { rewrite H1. unfold isWhitespace in H2.
    destruct (beq ch LF); [|reflexivity].
    rewrite !orb_true_r in H2. discriminate. }
  finish_scan l Hm.
Qed.

Lemma scanWord_ok (l : Lexer) (ch : byte) :
  at_ (input l) (pos l) = Some ch -> endsWord ch = false ->
  steps_on l (scanWord l).
Proof.
  intros E Hch. pose proof (at_lt E) as Hlt. unfold scanWord.
  destruct (advanceWhile_strict (fun ch => negb (endsWord ch)) l ch E)
    as (l' & -> & Hm & Hp).
  { now rewrite Hch. }
  cbn [bind]. rewrite (substr_moved l _ Hm) by lia. cbn [bind].
  set (word := slice (input l) (pos l) (pos l')).
  pose proof (classifyWord_fields word l') as Hc. cbv zeta in Hc.
  destruct (classifyWord word l') as [tokenType l''].
  cbn [snd] in Hc. destruct Hc as (Hi & Hpos & Hd).
  destruct Hm as (Hi' & Hmode & Hdet & _ & _ & _ & Hle & Hlen).
  do 2 eexists. split; [reflexivity|].
  unfold progress. rewrite Hi, Hi', Hpos.
  split; [reflexivity|]. split; [lia|]. split; [lia|].
  intros Hl. rewrite <- Hdet in Hl. apply Hd in Hl. destruct Hl as [Hl1 Hl2].
  split; [exact Hl1|]. rewrite Hl2. exact Hmode.
Qed.

(** A call of [nextToken] before the end of the input returns a token and
    leaves the cursor strictly further, inside the input. *)
Lemma nextToken_ok (l : Lexer) :
  pos l < length (input l) -> steps_on l (nextToken l).
Proof.
  intros Hlt. unfold nextToken.
  destruct (Nat.leb_spec (length (input l)) (pos l)) as [Hge|_]; [lia|].
  assert (Hrest : forall diff,
             diff = None ->
             steps_on l
               match diff with
               | Some r => Some r
               | None =>
                   ch <- at_ (input l) (pos l) ;;
                   (if beq ch "#"%char then scanComment l
                    else if beq ch "/"%char && beq (peek l 1) "*"%char
                    then scanBlockComment l
                    else if beq ch DQUOTE then scanQuoted DQUOTE l
                    else if beq ch "'"%char then scanQuoted "'"%char l
                    else if beq ch "{"%char || beq ch "}"%char
                    then scanBrace (setExpectingValue l false)
                    else if beq ch ";"%char
                    then scanSemicolon (setExpectingValue l false)
                    else if beq ch "<"%char then scanWildcard l
                    else if beq ch "*"%char
                    then Some (mkToken TokenWildcard (str "*") (line l) (col l),
                               advance l)
                    else if isWhitespace ch then scanWhitespace l
                    else if expectingValue l
                    then scanUnquotedValue (setExpectingValue l false)
                    else scanWord l)
               end).
  { intros diff ->. destruct (at_some _ _ Hlt) as [ch E]. rewrite E. cbn [bind].
    destruct (beq ch "#"%char) eqn:C1; [eapply scanComment_ok; eassumption|].
    destruct (beq ch "/"%char && beq (peek l 1) "*"%char);
      [apply scanBlockComment_ok, Hlt|].
    destruct (beq ch DQUOTE) eqn:C3; [apply scanQuoted_ok, Hlt|].
    destruct (beq ch "'"%char) eqn:C4; [apply scanQuoted_ok, Hlt|].
    destruct (beq ch "{"%char || beq ch "}"%char) eqn:C5.
    { destruct (scanBrace_ok (setExpectingValue l false) Hlt) as (tok & l' & -> & Hp).
      do 2 eexists. split; [reflexivity|]. eapply progress_expecting, Hp. }
    destruct (beq ch ";"%char) eqn:C6.
    { destruct (scanSemicolon_ok (setExpectingValue l false) Hlt) as (tok & l' & -> & Hp).
      do 2 eexists. split; [reflexivity|]. eapply progress_expecting, Hp. }
    destruct (beq ch "<"%char); [apply scanWildcard_ok, Hlt|].
    destruct (beq ch "*"%char).
    { do 2 eexists. split; [reflexivity|apply advance_progress, Hlt]. }
    destruct (isWhitespace ch) eqn:C9; [eapply scanWhitespace_ok; eassumption|].
    destruct (expectingValue l).
    { destruct (scanUnquotedValue_ok (setExpectingValue l false) ch E C6 C9)
        as (tok & l' & -> & Hp).
      do 2 eexists. split; [reflexivity|]. eapply progress_expecting, Hp. }
    apply (scanWord_ok l ch E). unfold endsWord.
    apply orb_false_iff in C5 as [C5 C5'].
    now rewrite C9, C5, C5', C6, C3, C4, C1. }
  destruct (col l =? 1).
  - destruct (scanDiffLine_ok l Hlt) as (r & -> & Hr). cbn [bind].
    destruct r as [[tok l']|].
    + do 2 eexists. split; [reflexivity|exact Hr].
    + exact (Hrest None eq_refl).
  - exact (Hrest None eq_refl).
Qed.

End LexFacts.

(** ** Mode latching *)

Module Latching.

Import Lex GoStringFacts LexFacts.

(** A call of [nextToken] on a lexer whose mode is detected leaves the flag
    raised and the mode as it was, at the end of the input as well. *)
Lemma nextToken_latched (l l' : Lexer) (tok : Token) :
  detectedMode l = true -> nextToken l = Some (tok, l') ->
  detectedMode l' = true /\ parseMode l' = parseMode l.
Proof.
  intros Hd Hn.
  destruct (Nat.lt_ge_cases (pos l) (length (input l))) as [Hlt|Hge].
  - destruct (nextToken_ok l Hlt) as (tok0 & l0 & Hn0 & _ & _ & _ & Hkeep).
    rewrite Hn0 in Hn. injection Hn as _ <-. exact (Hkeep Hd).
  - unfold nextToken in Hn.
    destruct (Nat.leb_spec (length (input l)) (pos l)); [|lia].
    injection Hn as _ <-. auto.
Qed.

Lemma steps_latched :
  forall n l l', detectedMode l = true -> steps n l = Some l' ->
                 detectedMode l' = true /\ parseMode l' = parseMode l.
Proof.
  induction n as [|n IH]; intros l l' Hd Hs; simpl in Hs.
  - injection Hs as <-. auto.
  - destruct (nextToken l) as [[tok l1]|] eqn:Hn; [|discriminate].
    cbn [bind] in Hs.
    destruct (nextToken_latched l l1 tok Hd Hn) as [Hd1 Hm1].
    destruct (IH l1 l' Hd1 Hs) as [Hd' Hm']. split; congruence.
Qed.

(** [C4] Mode latching.  The first classification of a word by a lexer in
    Auto mode runs the detector, stores its answer (Config or Show) as the
    parse mode and raises the [detectedMode] flag.  From then on a word is
    classified by the rules of the stored mode without the detector, and
    after any number of further calls of [nextToken] the flag is raised
    and the parse mode is the stored one. *)
Theorem mode_latching :
  (forall word l,
      parseMode l = ParseModeAuto -> detectedMode l = false ->
      let l' := snd (classifyWord word l) in
      detectedMode l' = true /\ parseMode l' = detectParseMode l /\
      parseMode l' <> ParseModeAuto) /\
  (forall word l,
      detectedMode l = true ->
      classifyWord word l =
      if isShow (parseMode l) then classifyShowWord word (ToLower word) l
      else classifyConfigWord word (ToLower word) l) /\
  (forall n l l',
      detectedMode l = true -> steps n l = Some l' ->
      detectedMode l' = true /\ parseMode l' = parseMode l).
Proof.
  split; [exact classifyWord_detects|].
  split; [exact classifyWord_latched|exact steps_latched].
Qed.

Lemma mode_latching_witness :
  let l := New (str "Peer   AS   State  establ up") in
  let l1 := snd (classifyWord (str "Peer") l) in
  parseMode l = ParseModeAuto /\ detectedMode l = false /\
  detectedMode l1 = true /\
  exists l2, steps 3 l1 = Some l2 /\ parseMode l2 = parseMode l1.
Proof.
  split; [reflexivity|]. split; [reflexivity|].
  split.
  - apply (proj1 mode_latching (str "Peer") (New (str "Peer   AS   State  establ up"))
                 eq_refl eq_refl).
  - eexists. split; [vm_compute; reflexivity|].
    eapply (proj2 (proj2 mode_latching) 3); vm_compute; reflexivity.
Defined.

End Latching.

(** ** Tokenize returns for every input *)

Module Totality.

Import Regexp Tables Lex GoStringFacts RegexpFacts LexFacts.

Lemma TrimLeftFunc_length (f : byte -> bool) (s : gostring) :
  length (TrimLeftFunc f s) <= length s.
Proof.
  induction s as [|c s IH]; simpl; [lia|]. destruct (f c); simpl; lia.
Qed.

Lemma TrimSpace_length (s : gostring) : length (TrimSpace s) <= length s.
Proof.
  unfold TrimSpace, TrimRightFunc. rewrite length_rev.
  etransitivity; [apply TrimLeftFunc_length|]. rewrite length_rev.
  apply TrimLeftFunc_length.
Qed.

Lemma promptPattern_late : late 8 4 promptPattern = true.
Proof.
  vm_compute. reflexivity.
Qed.

(** The command after a prompt is shorter than the line: the user name, the
    at sign, the host name and the prompt character come before it. *)
Lemma prompt_command_shorter (input : gostring) (matches : nat -> gostring) :
  FindStringSubmatch promptPattern input = Some matches ->
  nonEmpty (matches 8) = true ->
  length (TrimSpace (matches 8)) < length input.
Proof.
  unfold FindStringSubmatch. destruct (find promptPattern input) as [c|] eqn:Hf;
    [|discriminate].
  intros H Hne. injection H as <-. unfold submatch in *.
  destruct (lookup 8 c) as [[a b]|] eqn:Hl; [|discriminate].
  destruct (find_late 8 4 promptPattern input c a b Hf promptPattern_late) as [Ha Hb];
    [discriminate|exact Hl|].
  assert (Hlen : length (slice input a b) <= b - a).
  { unfold slice. rewrite length_firstn. lia. }
  assert (Hpos : 0 < length (slice input a b)).
  { destruct (slice input a b); [discriminate|simpl; lia]. }
  pose proof (TrimSpace_length (slice input a b)). lia.
Qed.

Lemma scanLoop_ok :
  forall fuel l tokens,
    length (input l) - pos l <= fuel -> pos l <= length (input l) ->
    exists out, scanLoop fuel l tokens = Some out.
Proof.
  induction fuel as [|fuel IH]; intros l tokens Hf Hp; simpl;
    destruct (Nat.ltb_spec (pos l) (length (input l))) as [Hlt|Hge];
    try (eexists; reflexivity).
  - lia.
  - destruct (nextToken_ok l Hlt) as (tok & l' & -> & Hi & Hpos & Hlen & _).
    cbn [bind]. apply IH; rewrite Hi; lia.
Qed.

Lemma tryTokenizePrompt_ok (tokenize : Lexer -> option (list Token))
      (input : gostring) :
  (forall cmd, length cmd < length input ->
               exists tokens, tokenize (New cmd) = Some tokens) ->
  exists r, tryTokenizePrompt tokenize input = Some r.
Proof.
  intros Hsub. unfold tryTokenizePrompt.
  destruct (FindStringSubmatch promptPattern input) as [matches|] eqn:Hf;
    [|eexists; reflexivity].
  cbv zeta.
  destruct (nonEmpty (matches 8)) eqn:H8.
  - destruct (Hsub (TrimSpace (matches 8))) as [cmdTokens ->].
    { now apply prompt_command_shorter. }
    cbn [bind].
    match goal with
    | |- context [fold_left ?f ?l ?a] => destruct (fold_left f l a) as [tokens col]
    end.
    eexists. reflexivity.
  - cbn [bind].
    match goal with
    | |- exists r, (let '(tokens, col) := ?st in _) = Some r =>
        destruct st as [tokens col]
    end.
    eexists. reflexivity.
Qed.

Lemma TokenizeFuel_ok :
  forall fuel l,
    length (input l) < fuel -> pos l <= length (input l) ->
    exists tokens, TokenizeFuel fuel l = Some tokens.
Proof.
  induction fuel as [|fuel IH]; intros l Hf Hp; [lia|]. simpl.
  destruct (tryTokenizePrompt_ok (TokenizeFuel fuel) (input l)) as [r ->].
  { intros cmd Hc. apply IH; simpl; lia. }
  cbn [bind]. destruct r as [tokens|]; [eexists; reflexivity|].
  apply scanLoop_ok; lia.
Qed.

(** [Tokenize] returns a token sequence for every lexer whose cursor is in
    its input, in particular for [New input] in every parse mode. *)
Theorem Tokenize_total (l : Lexer) :
  pos l <= length (input l) -> exists tokens, Tokenize l = Some tokens.
Proof.
  intros Hp. apply TokenizeFuel_ok; [lia|exact Hp].
Qed.

Lemma Tokenize_total_witness :
  let l := SetParseMode (New (str "set system host-name r1")) ParseModeShow in
  pos l <= length (input l) /\ exists tokens, Tokenize l = Some tokens.
Proof.
  intros l. split; [simpl; lia|].
  apply (Tokenize_total (SetParseMode (New (str "set system host-name r1")) ParseModeShow)).
  simpl. lia.
Defined.

End Totality.

(** ** The two highlighting paths *)

Module HighlightFacts.

Import Escape Lex Highlighter GoStringFacts EscapeFacts Totality.

Lemma isPromptLine_ok (input : gostring) : exists b, isPromptLine input = Some b.
Proof.
  unfold isPromptLine.
  destruct (IsPrompt input); [eexists; reflexivity|].
  destruct (negb (Contains input (str "@"))); [eexists; reflexivity|].
  destruct (negb (Contains input (str ">")) && negb (Contains input (str "#")));
    [eexists; reflexivity|].
  destruct (Index input (str "@")) as [atIdx|]; [|eexists; reflexivity].
  destruct ((atIdx <=? 0) || (length input - 1 <=? atIdx)) eqn:C;
    [eexists; reflexivity|].
  apply orb_false_iff in C as [C1 C2].
  apply Nat.leb_gt in C1. apply Nat.leb_gt in C2.
  destruct (at_some input (atIdx - 1)) as [b1 ->]; [lia|].
  destruct (at_some input (atIdx + 1)) as [b2 ->]; [lia|].
  eexists. reflexivity.
Qed.

Lemma looksLikeJunOS_ok (input : gostring) : exists b, looksLikeJunOS input = Some b.
Proof.
  unfold looksLikeJunOS. destruct (isPromptLine_ok input) as [b ->]. cbn [bind].
  destruct b; [eexists; reflexivity|].
  destruct (hasConfigIndicators _); [eexists; reflexivity|].
  destruct (hasShowIndicators _); [eexists; reflexivity|].
  destruct (hasStructuralPatterns _ _); [eexists; reflexivity|].
  destruct (startsWithCommand _); eexists; reflexivity.
Qed.

Lemma eqs_nil_false (s : gostring) : s <> [] -> eqs s [] = false.
Proof.
  destruct s; [congruence|reflexivity].
Qed.

(** [C10] The two paths of the highlighter, for an enabled highlighter [h].
    On the path of [Highlight], for a non-empty input: the input is
    stripped, the stripped text holds no escape byte, and the sniffer is
    asked about the stripped text; when it accepts, the output is the
    rendering of the tokens of the stripped text, so that no escape
    sequence of the input is passed through; when it rejects, the output is
    the input itself.  On the path of [HighlightForced], by contrast, a
    control sequence of the input is emitted again in front of the rendered
    text: on the recalled prompt line [ESC [ K user@router> show route] the
    forced output begins with the sequence and the other output lacks it. *)
Theorem Highlight_builds_from_stripped_text (h : Highlighter)
        (Henabled : IsEnabled h = true) :
  (forall input, input <> [] ->
     exists cleaned looks,
       StripANSI input = Some cleaned /\ escFree cleaned /\
       looksLikeJunOS cleaned = Some looks /\
       (looks = true ->
        exists tokens, Tokenize (New cleaned) = Some tokens /\
                       Highlight h input = Some (renderTokens h tokens)) /\
       (looks = false -> Highlight h input = Some input)) /\
  (let line := str "user@router> show route" in
   let clear := ESC :: str "[K" in
   exists tokens,
     Tokenize (New line) = Some tokens /\
     HighlightForced h (clear ++ line) = Some (clear ++ renderTokens h tokens) /\
     Highlight h (clear ++ line) = Some (renderTokens h tokens)).
Proof.
  split.
  - intros input Hne.
    destruct (StripANSI_escFree input) as (cleaned & Hs & Hfree).
    destruct (looksLikeJunOS_ok cleaned) as (looks & Hl).
    exists cleaned, looks. repeat (split; [assumption|]).
    unfold Highlight. rewrite Henabled, (eqs_nil_false input Hne), Hs. cbn [negb orb bind].
    rewrite Hl. cbn [bind]. split; intros ->; cbn [negb]; [|reflexivity].
    destruct (Tokenize_total (New cleaned)) as [tokens Ht]; [simpl; lia|].
    exists tokens. split; [exact Ht|].
    unfold highlightTokensCleaned. now rewrite Ht.
  - intros line clear.
    assert (E1 : extractSegments (clear ++ line)
                 = Some [mkSegment clear true; mkSegment line false])
      by (vm_compute; reflexivity).
    assert (E2 : StripANSI (clear ++ line) = Some line) by (vm_compute; reflexivity).
    assert (E3 : looksLikeJunOS line = Some true) by (vm_compute; reflexivity).
    destruct (Tokenize_total (New line)) as [tokens Ht]; [simpl; lia|].
    exists tokens. split; [exact Ht|]. split.
    + unfold HighlightForced, highlightTokens. rewrite Henabled, E1.
      replace (eqs (clear ++ line) []) with false by reflexivity.
      cbn [negb orb bind renderSegments isEscape text].
      unfold highlightTokensCleaned. rewrite Ht. cbn [bind app]. reflexivity.
    + unfold Highlight. rewrite Henabled, E2.
      replace (eqs (clear ++ line) []) with false by reflexivity.
      cbn [negb orb bind]. rewrite E3. cbn [negb bind].
      unfold highlightTokensCleaned. now rewrite Ht.
Qed.

Lemma Highlight_builds_from_stripped_text_witness :
  let h := mkHighlighter (mkTheme (fun _ => Some (ESC :: str "[1m"))) true in
  let input := (ESC :: str "[31mset system") ++ (ESC :: str "[0m") in
  IsEnabled h = true /\ input <> [] /\
  exists cleaned looks,
    StripANSI input = Some cleaned /\ escFree cleaned /\
    looksLikeJunOS cleaned = Some looks /\
    (looks = true ->
     exists tokens, Tokenize (New cleaned) = Some tokens /\
                    Highlight h input = Some (renderTokens h tokens)) /\
    (looks = false -> Highlight h input = Some input).
Proof.
  intros h input. split; [reflexivity|]. split; [discriminate|].
  apply (proj1 (Highlight_builds_from_stripped_text h eq_refl) input).
  discriminate.
Defined.

End HighlightFacts.

(** ** Stripping as one pass *)

Module StripPassFacts.

Import Escape StripPass GoStringFacts EscapeFacts.

Lemma skipn_at (s : gostring) (i : nat) (b : byte) :
  at_ s i = Some b -> skipn i s = b :: skipn (S i) s.
Proof.
  unfold at_. revert i. induction s as [|a s IH]; intros [|i] H; simpl in *;
    try discriminate.
  - congruence.
  - now apply IH.
Qed.

Lemma skipn_none (s : gostring) (i : nat) : at_ s i = None -> skipn i s = [].
Proof.
  intros H. apply skipn_all2. now apply at_ge.
Qed.

Lemma skipn_split (s ps rest : gostring) (i : nat) :
  skipn i s = ps ++ rest -> skipn (i + length ps) s = rest.
Proof.
  intros H. rewrite Nat.add_comm, <- skipn_skipn, H.
  now rewrite skipn_app, skipn_all, Nat.sub_diag.
Qed.

Lemma at_split (s ps rest : gostring) (i : nat) :
  skipn i s = ps ++ rest -> at_ s (i + length ps) = hd_error rest.
Proof.
  intros H. apply skipn_split in H. unfold at_.
  destruct (nth_error s (i + length ps)) as [b|] eqn:E.
  - apply skipn_at in E. rewrite <- H, E. reflexivity.
  - apply skipn_none in E. rewrite <- H, E. reflexivity.
Qed.

Lemma skipn_length_le (s ps rest : gostring) (i : nat) :
  skipn i s = ps ++ rest -> i <= length s -> i + length ps + length rest = length s.
Proof.
  intros H Hi. apply (f_equal (@length byte)) in H.
  rewrite length_skipn, length_app in H. lia.
Qed.

(** The scanning loop in terms of the rest of the input: it passes a run of
    bytes that satisfy the test and stops in front of the first that does
    not. *)
Lemma skipWhile_split (p : byte -> bool) (input : gostring) :
  forall fuel i, length input - i <= fuel ->
    exists ps rest,
      skipWhile fuel p input i = Some (i + length ps) /\
      skipn i input = ps ++ rest /\ forallb p ps = true /\
      match rest with
      | [] => True
      | b :: _ => p b = false
      end.
Proof.
  induction fuel as [|fuel IH]; intros i Hf; simpl;
    destruct (at_ input i) as [b|] eqn:E.
  - pose proof (at_lt E). destruct (p b) eqn:Hb; [lia|].
    exists [], (b :: skipn (S i) input). simpl. rewrite Nat.add_0_r.
    repeat split; auto. now apply skipn_at.
  - exists [], []. simpl. rewrite Nat.add_0_r. repeat split; auto.
    now apply skipn_none.
  - pose proof (at_lt E). destruct (p b) eqn:Hb.
    + destruct (IH (S i)) as (ps & rest & Hs & Hsplit & Hall & Hrest); [lia|].
      exists (b :: ps), rest. simpl. rewrite Hs, Hb, Hall. simpl.
      split; [f_equal; lia|]. split; [|split; [reflexivity|exact Hrest]].
      rewrite (skipn_at _ _ _ E). now rewrite Hsplit.
    + exists [], (b :: skipn (S i) input). simpl. rewrite Nat.add_0_r.
      repeat split; auto. now apply skipn_at.
  - exists [], []. simpl. rewrite Nat.add_0_r. repeat split; auto.
    now apply skipn_none.
Qed.

Lemma final_not_param (f : byte) : isCSIFinalByte f = true -> isCSIParamByte f = false.
Proof.
  unfold isCSIFinalByte, isCSIParamByte, in_range, csiFinalStart, csiFinalEnd,
    csiParamStart, csiParamEnd.
  intros H. apply andb_true_iff in H as [H1 H2]. apply Nat.leb_le in H1.
  apply andb_false_iff. right. apply Nat.leb_gt. lia.
Qed.

Lemma pass_params (ps rest : gostring) :
  forallb isCSIParamByte ps = true -> pass InParams (ps ++ rest) = pass InParams rest.
Proof.
  induction ps as [|b ps IH]; simpl; [reflexivity|].
  intros H. apply andb_true_iff in H as [Hb Hps]. rewrite Hb. simpl. now apply IH.
Qed.

Lemma pass_interm (ps rest : gostring) :
  forallb isCSIIntermediateByte ps = true ->
  pass InInterm (ps ++ rest) = pass InInterm rest.
Proof.
  induction ps as [|b ps IH]; simpl; [reflexivity|].
  intros H. apply andb_true_iff in H as [Hb Hps]. rewrite Hb. simpl. now apply IH.
Qed.

(** Behind the parameter bytes: a final byte ends the sequence, any other
    byte is read as plain text. *)
Lemma pass_params_end (rest : gostring) :
  match rest with
  | [] => True
  | b :: _ => isCSIParamByte b = false
  end ->
  pass InParams rest =
  match rest with
  | [] => []
  | f :: r => if isCSIFinalByte f then pass InText r else pass InText rest
  end.
Proof.
  destruct rest as [|f r]; [reflexivity|]. intros Hf. simpl. rewrite Hf.
  now destruct (isCSIFinalByte f).
Qed.

Lemma pass_interm_end (rest : gostring) :
  match rest with
  | [] => True
  | b :: _ => isCSIIntermediateByte b = false
  end ->
  pass InInterm rest =
  match rest with
  | [] => []
  | _ :: r => pass InText r
  end.
Proof.
  destruct rest as [|f r]; [reflexivity|]. intros Hf. simpl. now rewrite Hf.
Qed.

(** Behind an escape byte that does not open a CSI sequence the reader is
    among the intermediate bytes. *)
Lemma pass_afterEsc (t : gostring) :
  match t with
  | [] => True
  | b :: _ => beq b csiBracket = false
  end ->
  pass AfterEsc t = pass InInterm t.
Proof.
  destruct t as [|b t]; [reflexivity|]. intros Hb. simpl. rewrite Hb.
  now destruct (isCSIIntermediateByte b).
Qed.

Lemma startsCSI_inv (input : gostring) (i : nat) :
  startsCSI input i = true ->
  skipn i input = escapeChar :: csiBracket :: skipn (i + 2) input.
Proof.
  unfold startsCSI. destruct (at_ input i) as [b|] eqn:E1; [|discriminate].
  destruct (at_ input (i + 1)) as [b'|] eqn:E2; [|discriminate].
  intros H. apply andb_true_iff in H as [H1 H2].
  apply beq_eq in H1. apply beq_eq in H2. subst.
  rewrite (skipn_at _ _ _ E1). replace (S i) with (i + 1) by lia.
  rewrite (skipn_at _ _ _ E2). do 3 f_equal. lia.
Qed.

Lemma startsCSI_not (input : gostring) (i : nat) :
  startsCSI input i = false -> at_ input i = Some escapeChar ->
  match skipn (i + 1) input with
  | [] => True
  | b :: _ => beq b csiBracket = false
  end.
Proof.
  unfold startsCSI. intros H E. rewrite E in H.
  destruct (at_ input (i + 1)) as [b'|] eqn:E2.
  - rewrite (skipn_at _ _ _ E2). now rewrite beq_refl in H.
  - now rewrite (skipn_none _ _ E2).
Qed.

(** The loop of [StripANSI] and the one-pass reader let the same bytes
    through. *)
Lemma stripLoop_pass (input : gostring) :
  forall fuel i buf,
    i <= length input -> length input - i <= fuel ->
    stripLoop fuel input i buf = Some (buf ++ pass InText (skipn i input)).
Proof.
  induction fuel as [|fuel IH]; intros i buf Hi Hf; simpl;
    destruct (at_ input i) as [b|] eqn:E;
    try (rewrite (skipn_none _ _ E); simpl; now rewrite app_nil_r).
  - apply at_lt in E. lia.
  - pose proof (at_lt E) as Hlt.
    destruct (startsCSI input i) eqn:Hcsi.
    + rewrite (startsCSI_inv _ _ Hcsi).
      apply startsCSI_true in Hcsi as [_ Hlen].
      unfold skipCSISequence.
      destruct (skipWhile_split isCSIParamByte input (length input) (i + 2))
        as (ps & rest & -> & Hsplit & Hall & Hrest); [lia|].
      cbn [bind]. rewrite (at_split _ _ _ _ Hsplit).
      pose proof (skipn_length_le _ _ _ _ Hsplit Hlen) as Hl.
      pose proof (skipn_split _ _ _ _ Hsplit) as Hsk.
      change (pass InText (escapeChar :: csiBracket :: skipn (i + 2) input))
        with (pass InParams (skipn (i + 2) input)).
      rewrite Hsplit, (pass_params _ _ Hall), (pass_params_end _ Hrest).
      destruct rest as [|f r]; simpl hd_error; cbv iota.
      * simpl in Hl. cbn [bind]. rewrite IH by lia. now rewrite Hsk.
      * simpl in Hl. destruct (isCSIFinalByte f); cbn [bind].
        -- rewrite IH by lia. do 3 f_equal.
           replace (S (i + 2 + length ps)) with (i + 2 + length (ps ++ [f]))
             by (rewrite length_app; simpl; lia).
           apply skipn_split. now rewrite <- app_assoc.
        -- rewrite IH by lia. now rewrite Hsk.
    + destruct (beq b escapeChar) eqn:Hb.
      * apply beq_eq in Hb. subst b.
        rewrite (skipn_at _ _ _ E). replace (S i) with (i + 1) by lia.
        pose proof (startsCSI_not _ _ Hcsi E) as Hnot.
        change (pass InText (escapeChar :: skipn (i + 1) input))
          with (pass AfterEsc (skipn (i + 1) input)).
        rewrite (pass_afterEsc _ Hnot).
        unfold skipOtherEscapeSequence.
        destruct (skipWhile_split isCSIIntermediateByte input (length input) (i + 1))
          as (ps & rest & -> & Hsplit & Hall & Hrest); [lia|].
        cbn [bind].
        pose proof (skipn_length_le _ _ _ _ Hsplit ltac:(lia)) as Hl.
        pose proof (skipn_split _ _ _ _ Hsplit) as Hsk.
        rewrite Hsplit, (pass_interm _ _ Hall), (pass_interm_end _ Hrest).
        destruct rest as [|f r].
        -- simpl in Hl. destruct (Nat.ltb_spec (i + 1 + length ps) (length input)); [lia|].
           cbn [bind]. rewrite IH by lia. now rewrite Hsk.
        -- simpl in Hl. destruct (Nat.ltb_spec (i + 1 + length ps) (length input)); [|lia].
           cbn [bind]. rewrite IH by lia. do 3 f_equal.
           replace (S (i + 1 + length ps)) with (i + 1 + length (ps ++ [f]))
             by (rewrite length_app; simpl; lia).
           apply skipn_split. now rewrite <- app_assoc.
      * rewrite (skipn_at _ _ _ E). rewrite IH by lia.
        simpl. unfold onText. rewrite Hb. simpl. now rewrite <- app_assoc.
Qed.

Lemma StripANSI_pass (s : gostring) : StripANSI s = Some (pass InText s).
Proof.
  unfold StripANSI. now rewrite stripLoop_pass by lia.
Qed.

End StripPassFacts.

(** ** What stripping keeps and what it removes *)

Module StripFacts.

Import Escape StripPass GoStringFacts EscapeFacts StripPassFacts.

Lemma step_out (st : state) (b : byte) :
  snd (step st b) = [] \/ snd (step st b) = [b].
Proof.
  unfold step, onText.
  destruct st; repeat match goal with
                      | |- context [if ?c then _ else _] => destruct c
                      end; simpl; auto.
Qed.

Lemma pass_subseq (s : gostring) : forall st, subseq (pass st s) s.
Proof.
  induction s as [|b s IH]; intros st; simpl; [constructor|].
  destruct (step_out st b) as [-> | ->]; simpl.
  - apply subseq_skip, IH.
  - apply subseq_keep, IH.
Qed.

Lemma subseq_length (t s : gostring) : subseq t s -> length t <= length s.
Proof.
  induction 1; simpl; lia.
Qed.

Lemma pass_app (a b : gostring) :
  forall st, pass st (a ++ b) = pass st a ++ pass (after st a) b.
Proof.
  induction a as [|x a IH]; intros st; simpl; [reflexivity|].
  now rewrite IH, app_assoc.
Qed.

Lemma after_app (a b : gostring) :
  forall st, after st (a ++ b) = after (after st a) b.
Proof.
  induction a as [|x a IH]; intros st; simpl; [reflexivity|apply IH].
Qed.

Lemma escFree_cons (b : byte) (s : gostring) :
  escFree (b :: s) <-> beq b escapeChar = false /\ escFree s.
Proof.
  unfold escFree. split.
  - intros H. inversion H. auto.
  - intros [H1 H2]. now constructor.
Qed.

Lemma escFree_app (a b : gostring) : escFree (a ++ b) <-> escFree a /\ escFree b.
Proof.
  unfold escFree. apply Forall_app.
Qed.

(** Plain text is let through whole and leaves the reader in plain text. *)
Lemma pass_text (v : gostring) :
  escFree v -> pass InText v = v /\ after InText v = InText.
Proof.
  induction v as [|b v IH]; intros H; [split; reflexivity|].
  apply escFree_cons in H as [Hb Hv]. destruct (IH Hv) as [IH1 IH2].
  simpl. unfold onText. rewrite Hb. simpl. now rewrite IH1, IH2.
Qed.

(** Complete CSI sequences are removed whole and leave the reader in plain
    text. *)
Lemma pass_codes (c : gostring) :
  csiCodes c -> pass InText c = [] /\ after InText c = InText.
Proof.
  induction 1 as [|ps f rest Hps Hf Hrest [IH1 IH2]]; [split; reflexivity|].
  assert (Hp : forall r, pass InParams (ps ++ f :: r) = pass InText r).
  { intros r. rewrite (pass_params _ _ Hps). simpl.
    now rewrite (final_not_param _ Hf), Hf. }
  assert (Ha : forall r, after InParams (ps ++ f :: r) = after InText r).
  { intros r. clear Hp. induction ps as [|p ps IHps]; simpl.
    - now rewrite (final_not_param _ Hf), Hf.
    - simpl in Hps. apply andb_true_iff in Hps as [Hp Hps]. rewrite Hp. simpl.
      now apply IHps. }
  split.
  - change (pass InText (escapeChar :: csiBracket :: ps ++ f :: rest))
      with (pass InParams (ps ++ f :: rest)). now rewrite Hp.
  - change (after InText (escapeChar :: csiBracket :: ps ++ f :: rest))
      with (after InParams (ps ++ f :: rest)). now rewrite Ha.
Qed.

Lemma Contains_escFree (t pat : gostring) :
  escFree t -> Contains t (escapeChar :: pat) = false.
Proof.
  induction t as [|x t IH]; intros Hfree; [reflexivity|].
  apply escFree_cons in Hfree as [Hx Ht]. cbn [Contains HasPrefix].
  assert (beq escapeChar x = false) as ->
      by (unfold beq in *; rewrite Ascii.eqb_sym; exact Hx).
  cbn [andb orb]. now apply IH.
Qed.

(** [X1] Stripping only deletes.  For every input, [StripANSI] returns the
    input with some of its bytes left out, in their order: the result is no
    longer than the input, holds no escape byte, and [HasANSI] is false of
    it. *)
Theorem StripANSI_only_deletes :
  forall s, exists t,
    StripANSI s = Some t /\ subseq t s /\ length t <= length s /\
    escFree t /\ HasANSI t = false.
Proof.
  intros s. destruct (StripANSI_escFree s) as (t & Ht & Hfree).
  exists t. split; [exact Ht|].
  rewrite StripANSI_pass in Ht. injection Ht as <-.
  pose proof (pass_subseq s InText) as Hsub.
  split; [exact Hsub|]. split; [now apply subseq_length|]. split; [exact Hfree|].
  unfold HasANSI. now apply Contains_escFree.
Qed.

(** [X2] Text without escape bytes is not changed by stripping. *)
Theorem StripANSI_keeps_plain_text (s : gostring) :
  escFree s -> StripANSI s = Some s.
Proof.
  intros H. rewrite StripANSI_pass. f_equal. now apply pass_text.
Qed.

Lemma StripANSI_keeps_plain_text_witness :
  escFree (str "set system host-name r1") /\
  StripANSI (str "set system host-name r1") = Some (str "set system host-name r1").
Proof.
  assert (H : escFree (str "set system host-name r1")).
  { unfold escFree. repeat constructor. }
  split; [exact H|]. apply (StripANSI_keeps_plain_text _ H).
Defined.

(** [X3] Stripping splits at a sequence boundary.  When the part [a] ends
    outside every escape sequence -- the one-pass reader is back in plain
    text after it, as it is after plain text and after complete CSI
    sequences -- the stripped [a ++ b] is the stripped [a] followed by the
    stripped [b]. *)
Theorem StripANSI_app (a b : gostring) :
  after InText a = InText ->
  exists x y, StripANSI a = Some x /\ StripANSI b = Some y /\
              StripANSI (a ++ b) = Some (x ++ y).
Proof.
  intros H. exists (pass InText a), (pass InText b).
  rewrite !StripANSI_pass, pass_app, H. auto.
Qed.

Lemma StripANSI_app_witness :
  let a := (ESC :: str "[31mred") ++ (ESC :: str "[0m") in
  let b := str " plain" in
  after InText a = InText /\
  StripANSI (a ++ b) = Some (str "red plain").
Proof.
  intros a b. split; [reflexivity|].
  destruct (StripANSI_app a b eq_refl) as (x & y & Hx & Hy & ->).
  vm_compute in Hx. vm_compute in Hy.
  injection Hx as <-. injection Hy as <-. reflexivity.
Defined.

End StripFacts.

(** ** Colours, themes and the rendered output *)

Module ThemeFacts.

Import Escape Lex Highlighter StripPass Themes.
Import GoStringFacts EscapeFacts StripPassFacts StripFacts.
Import BinInt.

Lemma csiCodes_app (a b : gostring) : csiCodes a -> csiCodes b -> csiCodes (a ++ b).
Proof.
  induction 1 as [|ps f rest Hps Hf Hrest IH]; intros Hb; [exact Hb|].
  change ((escapeChar :: csiBracket :: ps ++ f :: rest) ++ b)
    with (escapeChar :: csiBracket :: (ps ++ f :: rest) ++ b).
  rewrite <- app_assoc. simpl. constructor; auto.
Qed.

(** One sequence: the escape byte, the bracket, parameter bytes, a final
    byte. *)
Lemma csiCodes_one (ps : gostring) (f : byte) :
  forallb isCSIParamByte ps = true -> isCSIFinalByte f = true ->
  csiCodes (escapeChar :: csiBracket :: ps ++ [f]).
Proof.
  intros Hps Hf. constructor; auto. constructor.
Qed.

Lemma dropParams_split (s : gostring) :
  exists ps, s = ps ++ dropParams s /\ forallb isCSIParamByte ps = true.
Proof.
  induction s as [|b s (ps & IH1 & IH2)]; [exists []; split; reflexivity|].
  simpl. destruct (isCSIParamByte b) eqn:Hb.
  - exists (b :: ps). simpl. rewrite Hb, IH2. split; [now f_equal|reflexivity].
  - exists []. split; reflexivity.
Qed.

Lemma isCodes_sound : forall fuel s, isCodes fuel s = true -> csiCodes s.
Proof.
  induction fuel as [|fuel IH]; intros [|e [|c s2]] H; simpl in H;
    try discriminate; try constructor.
  apply andb_true_iff in H as [H Hrest]. apply andb_true_iff in H as [He Hc].
  apply beq_eq in He. apply beq_eq in Hc. subst e c.
  destruct (dropParams_split s2) as (ps & Hs & Hps).
  destruct (dropParams s2) as [|f rest]; [discriminate|].
  apply andb_true_iff in Hrest as [Hf Hrest]. rewrite Hs.
  constructor; auto.
Qed.

(** The decimal digits are parameter bytes. *)
Lemma string_of_uint_params (d : Decimal.uint) :
  forallb isCSIParamByte (str (DecimalString.NilEmpty.string_of_uint d)) = true.
Proof.
  induction d; simpl; auto.
Qed.

Lemma Itoa_params (n : Z) :
  (0 <= n)%Z -> forallb isCSIParamByte (Itoa n) = true.
Proof.
  intros Hn. unfold Itoa.
  assert (H : exists d, Z.to_int n = Decimal.Pos d).
  { destruct n as [|p|p]; simpl; [eexists; reflexivity..|].
    exfalso. now apply Hn. }
  destruct H as [d ->]. unfold DecimalString.NilZero.string_of_int.
  unfold DecimalString.NilZero.string_of_uint.
  destruct d; try reflexivity; apply string_of_uint_params.
Qed.

Lemma Color256_shape (n : Z) :
  Color256 n = escapeChar :: csiBracket :: (str "38;5;" ++ Itoa n) ++ [ "m"%char ].
Proof.
  unfold Color256, Color256Prefix, Color256Suffix. simpl.
  rewrite <- ?app_assoc. reflexivity.
Qed.

Lemma RGB_shape (r g b : Z) :
  RGB r g b =
  escapeChar :: csiBracket ::
    (str "38;2;" ++ Itoa r ++ str ";" ++ Itoa g ++ str ";" ++ Itoa b) ++ [ "m"%char ].
Proof.
  unfold RGB. simpl. repeat (rewrite <- app_assoc; simpl). reflexivity.
Qed.

Lemma code_then_text (c v : gostring) :
  csiCodes c -> escFree v -> StripANSI (c ++ v) = Some v.
Proof.
  intros Hc Hv. rewrite StripANSI_pass. f_equal.
  destruct (pass_codes _ Hc) as [Hp Ha]. destruct (pass_text _ Hv) as [Hp' _].
  now rewrite pass_app, Hp, Ha, Hp'.
Qed.

(** [X4] The colour codes built from numbers are single CSI sequences.
    For components that are not negative, [RGB(r, g, b)] is the escape
    byte, the bracket, the parameter bytes [38;2;r;g;b] with the numbers in
    decimal, and the final byte [m]; [Color256(n)] is the same with the
    parameter bytes [38;5;n].  All bytes between the bracket and the [m]
    are parameter bytes and [m] is a final byte, so that [StripANSI]
    removes the code, and only the code, in front of a text.
    ([strconv.Itoa] writes a negative number with a minus sign, which is no
    parameter byte.) *)
Theorem numbered_colours_are_codes (r g b n : Z) (v : gostring) :
  (0 <= r)%Z -> (0 <= g)%Z -> (0 <= b)%Z -> (0 <= n)%Z -> escFree v ->
  let rgb := str "38;2;" ++ Itoa r ++ str ";" ++ Itoa g ++ str ";" ++ Itoa b in
  let c256 := str "38;5;" ++ Itoa n in
  RGB r g b = escapeChar :: csiBracket :: rgb ++ [ "m"%char ] /\
  Color256 n = escapeChar :: csiBracket :: c256 ++ [ "m"%char ] /\
  forallb isCSIParamByte rgb = true /\ forallb isCSIParamByte c256 = true /\
  isCSIFinalByte "m"%char = true /\
  StripANSI (RGB r g b ++ v) = Some v /\ StripANSI (Color256 n ++ v) = Some v.
Proof.
  intros Hr Hg Hb Hn Hv rgb c256.
  assert (Hrgb : forallb isCSIParamByte rgb = true).
  { unfold rgb. rewrite !forallb_app, !Itoa_params by assumption. reflexivity. }
  assert (Hc : forallb isCSIParamByte c256 = true).
  { unfold c256. rewrite !forallb_app, !Itoa_params by assumption. reflexivity. }
  split; [apply RGB_shape|]. split; [apply Color256_shape|].
  split; [exact Hrgb|]. split; [exact Hc|]. split; [reflexivity|].
  split; apply code_then_text; try exact Hv.
  - rewrite RGB_shape. apply csiCodes_one; [exact Hrgb|reflexivity].
  - rewrite Color256_shape. apply csiCodes_one; [exact Hc|reflexivity].
Qed.

Lemma numbered_colours_are_codes_witness :
  RGB 192 202 245 = ESC :: str "[38;2;192;202;245m" /\
  Color256 128 = ESC :: str "[38;5;128m" /\
  StripANSI (RGB 192 202 245 ++ str "set") = Some (str "set").
Proof.
  assert (Hv : escFree (str "set")) by (unfold escFree; repeat constructor).
  destruct (numbered_colours_are_codes 192 202 245 128 (str "set"))
    as (H1 & H2 & _ & _ & _ & H3 & _); try discriminate; [exact Hv|].
  split; [exact H1|]. split; [exact H2|exact H3].
Defined.

Lemma Bold_codes : csiCodes Bold.
Proof. now apply (isCodes_sound 4). Qed.

Lemma Dim_codes : csiCodes Dim.
Proof. now apply (isCodes_sound 4). Qed.

Lemma Italic_codes : csiCodes Italic.
Proof. now apply (isCodes_sound 4). Qed.

Lemma Reset_codes : csiCodes Reset.
Proof. now apply (isCodes_sound 4). Qed.

Lemma buildTheme_themeOfCodes (p : Palette) :
  Forall csiCodes (paletteColours p) -> themeOfCodes (buildTheme p).
Proof.
  unfold paletteColours. intros H.
  repeat match goal with
         | H : Forall _ (_ :: _) |- _ =>
             let H1 := fresh "Hc" in
             apply Forall_cons_iff in H; destruct H as [H1 H]
         end.
  pose proof Bold_codes. pose proof Dim_codes. pose proof Italic_codes.
  intros t. unfold GetColor, buildTheme. cbn [colors].
  destruct t; try assumption; try (apply csiCodes_app; assumption).
  constructor.
Qed.

(** What [buildTheme] gives a token type: a colour of the palette, bare or
    behind [Bold], [Italic] or [Dim]. *)
Lemma buildTheme_from_palette (p : Palette) (t : TokenType) :
  t <> TokenText ->
  exists style c,
    In style [[]; Bold; Italic; Dim] /\ In c (paletteColours p) /\
    GetColor (buildTheme p) t = style ++ c.
Proof.
  intros Ht. unfold GetColor, buildTheme. cbn [colors].
  destruct t; try congruence;
    match goal with
    | |- exists style c, _ /\ _ /\ ?s ++ ?c0 = _ =>
        exists s, c0; split; [simpl; tauto|split; [unfold paletteColours; simpl; tauto|reflexivity]]
    | |- exists style c, _ /\ _ /\ ?c0 = _ =>
        exists [], c0; split; [simpl; tauto|split; [unfold paletteColours; simpl; tauto|reflexivity]]
    end.
Qed.

(** [X5] [buildTheme] keeps the colours well formed.  The theme built from
    a palette gives [TokenText] the empty colour, and every other token
    type a colour of the palette, bare or behind [Bold], [Italic] or
    [Dim].  So, when every colour of the palette is a run of complete CSI
    sequences, every colour of the theme is one. *)
Theorem buildTheme_codes (p : Palette) :
  Forall csiCodes (paletteColours p) ->
  themeOfCodes (buildTheme p) /\
  GetColor (buildTheme p) TokenText = [] /\
  (forall t, t <> TokenText ->
     exists style c,
       In style [[]; Bold; Italic; Dim] /\ In c (paletteColours p) /\
       GetColor (buildTheme p) t = style ++ c).
Proof.
  intros H. split; [now apply buildTheme_themeOfCodes|].
  split; [reflexivity|apply buildTheme_from_palette].
Qed.

Lemma buildTheme_codes_witness :
  let p := mkPalette White (Dim ++ BrightBlack) BrightYellow BrightBlue BrightCyan
             BrightGreen BrightMagenta BrightGreen BrightCyan BrightYellow Yellow
             BrightWhite BrightMagenta Magenta BrightCyan BrightRed Cyan
             BrightGreen BrightRed BrightYellow BrightMagenta Magenta BrightBlue
             (Bold ++ BrightGreen) White (Bold ++ BrightCyan) (Bold ++ BrightMagenta)
             (Bold ++ BrightGreen) (Bold ++ BrightRed) BrightYellow in
  Forall csiCodes (paletteColours p) /\
  themeOfCodes (buildTheme p) /\
  GetColor (buildTheme p) TokenText = [] /\
  GetColor (buildTheme p) TokenCommand = Bold ++ BrightYellow.
Proof.
  intros p.
  assert (H : Forall csiCodes (paletteColours p)).
  { unfold paletteColours, p. cbn.
    repeat (constructor; [now apply (isCodes_sound 4)|]). constructor. }
  split; [exact H|].
  destruct (buildTheme_codes p H) as (H1 & H2 & _).
  split; [exact H1|]. split; [exact H2|reflexivity].
Defined.

Ltac theme_by_table :=
  intros t; apply (isCodes_sound 8); destruct t; vm_compute; reflexivity.

Lemma TokyoNightTheme_codes : themeOfCodes TokyoNightTheme.
Proof. theme_by_table. Qed.

Lemma VibrantTheme_codes : themeOfCodes VibrantTheme.
Proof. theme_by_table. Qed.

Lemma SolarizedDarkTheme_codes : themeOfCodes SolarizedDarkTheme.
Proof. theme_by_table. Qed.

Lemma MonokaiTheme_codes : themeOfCodes MonokaiTheme.
Proof. theme_by_table. Qed.

Lemma NordTheme_codes : themeOfCodes NordTheme.
Proof. theme_by_table. Qed.

Lemma CatppuccinMochaTheme_codes : themeOfCodes CatppuccinMochaTheme.
Proof. theme_by_table. Qed.

Lemma DraculaTheme_codes : themeOfCodes DraculaTheme.
Proof. theme_by_table. Qed.

Lemma GruvboxDarkTheme_codes : themeOfCodes GruvboxDarkTheme.
Proof. theme_by_table. Qed.

Lemma OneDarkTheme_codes : themeOfCodes OneDarkTheme.
Proof. theme_by_table. Qed.

Lemma ThemeByName_codes (name : gostring) : themeOfCodes (ThemeByName name).
Proof.
  unfold ThemeByName, DefaultTheme.
  repeat match goal with
         | |- context [if ?c then _ else _] => destruct c
         end;
    auto using TokyoNightTheme_codes, VibrantTheme_codes, SolarizedDarkTheme_codes,
      MonokaiTheme_codes, NordTheme_codes, CatppuccinMochaTheme_codes,
      DraculaTheme_codes, GruvboxDarkTheme_codes, OneDarkTheme_codes.
Qed.

Lemma eqs_nil_iff (s : gostring) : eqs s [] = true <-> s = [].
Proof.
  destruct s; simpl; split; intros H; auto; discriminate.
Qed.

(** The rendering loop, read by the one-pass reader: the colours and the
    reset vanish, the values stay. *)
Lemma render_pass (h : Highlighter) (tokens : list Token) :
  themeOfCodes (theme h) ->
  Forall (fun token => escFree (Value token)) tokens ->
  forall buf, after InText buf = InText ->
    let out :=
      fold_left
        (fun buf token =>
           let color := GetColor (theme h) (Type_ token) in
           if nonEmpty color then buf ++ color ++ Value token ++ Reset
           else buf ++ Value token)
        tokens buf in
    pass InText out = pass InText buf ++ values tokens /\ after InText out = InText.
Proof.
  intros Hth Hv. induction Hv as [|token tokens Hx Hv IH]; intros buf Hbuf; cbv zeta.
  - simpl. unfold values. simpl. now rewrite app_nil_r.
  - cbn [fold_left]. cbv zeta in IH.
    destruct (pass_text _ Hx) as [Hp1 Ha1].
    destruct (pass_codes _ (Hth (Type_ token))) as [Hp2 Ha2].
    destruct (pass_codes _ Reset_codes) as [Hp3 Ha3].
    unfold values. cbn [map concat]. fold (values tokens).
    destruct (nonEmpty (GetColor (theme h) (Type_ token))).
    + destruct (IH (buf ++ GetColor (theme h) (Type_ token) ++ Value token ++ Reset))
        as [IH1 IH2].
      { now rewrite !after_app, Hbuf, Ha2, Ha1, Ha3. }
      split; [|exact IH2]. rewrite IH1.
      rewrite !pass_app, ?after_app, Hbuf, Ha2, Ha1, Hp1, Hp2, Hp3.
      simpl. now rewrite app_nil_r, <- app_assoc.
    + destruct (IH (buf ++ Value token)) as [IH1 IH2].
      { now rewrite !after_app, Hbuf, Ha1. }
      split; [|exact IH2]. rewrite IH1.
      rewrite !pass_app, Hbuf, Hp1. now rewrite <- app_assoc.
Qed.

(** [X6] Stripping undoes rendering.  With a theme whose colours are runs
    of complete CSI sequences, and token values that hold no escape byte,
    [StripANSI] of the rendered tokens is the concatenation of the token
    values: colouring adds nothing that stripping does not remove. *)
Theorem StripANSI_renderTokens (h : Highlighter) (tokens : list Token) :
  themeOfCodes (theme h) ->
  Forall (fun token => escFree (Value token)) tokens ->
  StripANSI (renderTokens h tokens) = Some (values tokens).
Proof.
  intros Hth Hv. rewrite StripANSI_pass. f_equal.
  destruct (render_pass h tokens Hth Hv [] eq_refl) as [H _]. exact H.
Qed.

Lemma StripANSI_renderTokens_witness :
  let h := NewWithTheme VibrantTheme in
  let tokens := [mkToken TokenCommand (str "set") 1 1; mkToken TokenText (str " ") 1 4;
                 mkToken TokenSection (str "system") 1 5] in
  themeOfCodes (theme h) /\
  Forall (fun token => escFree (Value token)) tokens /\
  StripANSI (renderTokens h tokens) = Some (str "set system").
Proof.
  intros h tokens.
  assert (Hv : Forall (fun token => escFree (Value token)) tokens).
  { unfold tokens, escFree. repeat constructor. }
  split; [exact VibrantTheme_codes|]. split; [exact Hv|].
  apply (StripANSI_renderTokens h tokens VibrantTheme_codes Hv).
Defined.

(** [X7] Every built-in theme is well formed.  Whatever the name --
    [ThemeByName] falls back to the default theme for a name it does not
    know -- each colour of the theme is a run of complete CSI sequences, so
    that what the theme adds to a text is removed again by [StripANSI]. *)
Theorem builtin_themes_are_codes (name : gostring) (tokenType : TokenType) :
  csiCodes (GetColor (ThemeByName name) tokenType) /\
  StripANSI (GetColor (ThemeByName name) tokenType) = Some [].
Proof.
  pose proof (ThemeByName_codes name tokenType) as H. split; [exact H|].
  rewrite StripANSI_pass. f_equal. now apply pass_codes.
Qed.

End ThemeFacts.

(** ** One step of the lexer *)

Module StepFacts.

Import Regexp Tables Lex Layout GoStringFacts LexFacts.

Lemma walk_app (a b : gostring) :
  forall lc, walk (a ++ b) lc = walk b (walk a lc).
Proof.
  induction a as [|x a IH]; intros lc; simpl; [reflexivity|apply IH].
Qed.

Lemma firstn_plus (m n : nat) :
  forall t : gostring, firstn (m + n) t = firstn m t ++ firstn n (skipn m t).
Proof.
  induction m as [|m IH]; intros [|x t]; simpl; try reflexivity.
  - now rewrite firstn_nil.
  - now rewrite IH.
Qed.

Lemma slice_app (s : gostring) (a b c : nat) :
  a <= b -> b <= c -> slice s a c = slice s a b ++ slice s b c.
Proof.
  intros Hab Hbc. unfold slice.
  replace (c - a) with ((b - a) + (c - b)) by lia.
  rewrite firstn_plus. f_equal. rewrite skipn_skipn.
  replace (b - a + a) with b by lia. reflexivity.
Qed.

Lemma slice_nil (s : gostring) (a : nat) : slice s a a = [].
Proof.
  unfold slice. now rewrite Nat.sub_diag.
Qed.

Lemma slice_one (s : gostring) (i : nat) (b : byte) :
  at_ s i = Some b -> slice s i (S i) = [b].
Proof.
  unfold slice, at_. replace (S i - i) with 1 by lia.
  revert i. induction s as [|x s IH]; intros [|i] H; simpl in *; try discriminate.
  - congruence.
  - now apply IH.
Qed.

Lemma slice_skipn (s : gostring) (a b : nat) :
  a <= b -> slice s a b ++ skipn b s = skipn a s.
Proof.
  intros H. unfold slice.
  replace (skipn b s) with (skipn (b - a) (skipn a s)).
  - apply firstn_skipn.
  - rewrite skipn_skipn. f_equal. lia.
Qed.

Lemma slice_nonempty (s : gostring) (a b : nat) :
  a < b -> b <= length s -> slice s a b <> [].
Proof.
  intros Hab Hb H. apply (f_equal (@length byte)) in H.
  rewrite length_slice in H by lia. simpl in H. lia.
Qed.

Lemma went_refl (l : Lexer) : went l l.
Proof.
  split; [apply moved_refl|]. now rewrite slice_nil.
Qed.

Lemma went_trans (a b c : Lexer) : went a b -> went b c -> went a c.
Proof.
  intros [Hm Hw] [Hm' Hw']. split; [eapply moved_trans; eassumption|].
  destruct Hm as (Hi & _ & _ & _ & _ & _ & Hp & _).
  destruct Hm' as (Hi' & _ & _ & _ & _ & _ & Hp' & _).
  rewrite (slice_app _ (pos a) (pos b) (pos c)) by assumption.
  rewrite walk_app, <- Hw, <- Hi. exact Hw'.
Qed.

Lemma advance_went (l : Lexer) : went l (advance l).
Proof.
  split; [apply advance_moved|].
  unfold advance. destruct (at_ (input l) (pos l)) as [b|] eqn:E.
  - destruct (beq b LF) eqn:Hb; cbn [pos line col setCursor];
      rewrite (slice_one _ _ _ E); simpl; now rewrite Hb.
  - now rewrite slice_nil.
Qed.

Lemma advanceWhile_went (p : byte -> bool) :
  forall fuel l l', advanceWhile fuel p l = Some l' -> went l l'.
Proof.
  induction fuel as [|fuel IH]; intros l l' H; simpl in H;
    destruct (at_ (input l) (pos l)) as [b|];
    try (injection H as <-; apply went_refl);
    destruct (p b); try discriminate;
    try (injection H as <-; apply went_refl).
  eapply went_trans; [apply advance_went|apply IH, H].
Qed.

Lemma blockCommentLoop_went :
  forall fuel l l', blockCommentLoop fuel l = Some l' -> went l l'.
Proof.
  induction fuel as [|fuel IH]; intros l l' H; simpl in H;
    destruct (pos l <? length (input l) - 1);
    try discriminate; try (injection H as <-; apply went_refl).
  destruct (at_ (input l) (pos l)) as [a|]; [|discriminate]. cbn [bind] in H.
  destruct (at_ (input l) (pos l + 1)) as [b|]; [|discriminate]. cbn [bind] in H.
  destruct (beq a "*"%char && beq b "/"%char).
  - injection H as <-. eapply went_trans; apply advance_went.
  - eapply went_trans; [apply advance_went|apply IH, H].
Qed.

Lemma stringLoop_went (quote : byte) :
  forall fuel l l', stringLoop fuel quote l = Some l' -> went l l'.
Proof.
  induction fuel as [|fuel IH]; intros l l' H; simpl in H;
    destruct (at_ (input l) (pos l)) as [ch|];
    try discriminate; try (injection H as <-; apply went_refl).
  destruct (beq ch quote).
  - injection H as <-. apply advance_went.
  - apply IH in H. eapply went_trans; [|exact H].
    destruct (beq ch "\"%char && (pos l + 1 <? length (input l))).
    + eapply went_trans; apply advance_went.
    + apply advance_went.
Qed.

(** *** The scanners *)

Lemma went_step (l l' : Lexer) (tok : Token) :
  went l l' -> pos l < pos l' -> pos l <= length (input l) ->
  Value tok = slice (input l) (pos l) (pos l') ->
  Line tok = line l -> Column tok = col l ->
  step_spec l tok l' /\ (steady l -> steady l').
Proof.
  intros [Hm Hw] Hlt Hle Hv Hl Hc.
  destruct Hm as (Hi & Hmode & Hdet & Hval & _ & _ & _ & Hlen).
  split.
  - unfold step_spec. cbv zeta.
    split; [exact Hi|]. split; [exact Hlt|]. split; [auto|].
    split; [now rewrite Hl, Hc|]. split; [exact Hw|]. split; [now left|].
    rewrite Hv. apply slice_nonempty; auto.
  - unfold steady. now rewrite Hmode, Hdet, Hval.
Qed.

(** A step from [setExpectingValue l false] whose value is the piece is a
    step from [l]. *)
Lemma stepped_expecting (l : Lexer) (r : option (Token * Lexer)) :
  stepped (setExpectingValue l false) r -> stepped l r.
Proof.
  intros (tok & l' & -> & Hs & Hst). exists tok, l'. split; [reflexivity|].
  unfold step_spec in *. cbv zeta in *. cbn [setExpectingValue input pos line col] in Hs.
  destruct Hs as (Hi & Hlt & Hle & Hlc & Hw & Hv & Hne).
  split.
  - split; [exact Hi|]. split; [exact Hlt|]. split; [exact Hle|].
    split; [exact Hlc|]. split; [exact Hw|]. split; [|exact Hne].
    destruct Hv as [Hv|(Hv & _)]; [now left|discriminate Hv].
  - intros (H1 & H2 & H3). apply Hst. now split.
Qed.

Ltac finish_step l Hw :=
  cbn [bind]; rewrite (substr_moved l _ (proj1 Hw)) by lia; cbn [bind];
  do 2 eexists;
  (split; [reflexivity|apply went_step; [exact Hw|lia|lia|reflexivity..]]).

Lemma scanComment_step (l : Lexer) (ch : byte) :
  at_ (input l) (pos l) = Some ch -> beq ch "#"%char = true ->
  stepped l (scanComment l).
Proof.
  intros E Hch. pose proof (at_lt E) as Hlt. unfold scanComment.
  destruct (advanceWhile_strict untilNewline l ch E) as (l' & Heq & Hm & Hp).
  { apply beq_eq in Hch. now subst ch. }
  pose proof (advanceWhile_went _ _ _ _ Heq) as Hw. rewrite Heq.
  finish_step l Hw.
Qed.

Lemma advance_step (l : Lexer) (tok : Token) (ch : byte) :
  at_ (input l) (pos l) = Some ch ->
  Value tok = [ch] -> Line tok = line l -> Column tok = col l ->
  step_spec l tok (advance l) /\ (steady l -> steady (advance l)).
Proof.
  intros E Hv Hl Hc. pose proof (at_lt E) as Hlt.
  pose proof (advance_pos l Hlt) as Hp.
  apply went_step; auto using advance_went; try lia.
  rewrite Hp, (slice_one _ _ _ E). exact Hv.
Qed.

Lemma scanDiffLine_step (l : Lexer) :
  pos l < length (input l) ->
  exists r, scanDiffLine l = Some r /\
            match r with
            | None => True
            | Some (tok, l') => step_spec l tok l' /\ (steady l -> steady l')
            end.
Proof.
  intros Hlt. unfold scanDiffLine.
  destruct (at_some _ _ Hlt) as [ch E]. rewrite E. cbn [bind].
  destruct (beq ch "["%char && (pos l + 5 <? length (input l))
            && eqs (slice (input l) (pos l) (pos l + 5)) (str "[edit")) eqn:C1.
  - apply andb_true_iff in C1 as [C1 _]. apply andb_true_iff in C1 as [C1 _].
    destruct (advanceWhile_strict untilNewline l ch E) as (l' & Heq & Hm & Hp).
    { apply beq_eq in C1. now subst ch. }
    pose proof (advanceWhile_went _ _ _ _ Heq) as Hw. rewrite Heq.
    cbn [bind]. rewrite (substr_moved l _ Hm) by lia. cbn [bind].
    eexists. split; [reflexivity|].
    apply went_step; [exact Hw|lia|lia|reflexivity..].
  - destruct ((beq ch "+"%char || beq ch "-"%char)
              && (pos l + 1 <? length (input l))) eqn:C2.
    + apply andb_true_iff in C2 as [_ C2]. apply Nat.ltb_lt in C2.
      destruct (at_some _ _ C2) as [next ->]. cbn [bind].
      destruct (beq next " "%char || beq next TAB).
      * eexists. split; [reflexivity|].
        apply (advance_step l _ ch E); reflexivity.
      * eexists. split; [reflexivity|exact I].
    + eexists. split; [reflexivity|exact I].
Qed.

Lemma scanBlockComment_step (l : Lexer) :
  pos l < length (input l) -> stepped l (scanBlockComment l).
Proof.
  intros Hlt. unfold scanBlockComment.
  set (l2 := advance (advance l)).
  assert (H2 : went l l2).
  { eapply went_trans; apply advance_went. }
  assert (Hp2 : pos l < pos l2).
  { pose proof (advance_moved (advance l)) as (_ & _ & _ & _ & _ & _ & Hle & _).
    rewrite (advance_pos l Hlt) in Hle. unfold l2. lia. }
  destruct (blockCommentLoop_ok (length (input l2)) l2) as (l' & Heq & Hm'); [lia|].
  pose proof (blockCommentLoop_went _ _ _ Heq) as Hw'. rewrite Heq.
  assert (Hw : went l l') by (eapply went_trans; eassumption).
  assert (pos l2 <= pos l') by (destruct Hm' as (_ & _ & _ & _ & _ & _ & Hle & _); lia).
  finish_step l Hw.
Qed.

Lemma scanString_step (quote : byte) (l : Lexer) :
  pos l < length (input l) ->
  exists tok l',
    scanString quote l = Some (tok, l') /\ went l l' /\ pos l < pos l' /\
    Value tok = slice (input l) (pos l) (pos l') /\
    Line tok = line l /\ Column tok = col l.
Proof.
  intros Hlt. unfold scanString.
  set (l1 := advance l).
  assert (H1 : went l l1) by apply advance_went.
  assert (Hp1 : pos l1 = S (pos l)) by (apply advance_pos, Hlt).
  destruct (stringLoop_ok quote (length (input l1)) l1) as (l' & Heq & Hm'); [lia|].
  pose proof (stringLoop_went _ _ _ _ Heq) as Hw'. rewrite Heq.
  assert (Hw : went l l') by (eapply went_trans; eassumption).
  assert (pos l1 <= pos l') by (destruct Hm' as (_ & _ & _ & _ & _ & _ & Hle & _); lia).
  cbn [bind]. rewrite (substr_moved l _ (proj1 Hw)) by lia. cbn [bind].
  do 2 eexists. split; [reflexivity|]. split; [exact Hw|]. split; [lia|].
  repeat split.
Qed.

Lemma scanQuoted_step (quote : byte) (l : Lexer) :
  pos l < length (input l) -> stepped l (scanQuoted quote l).
Proof.
  intros Hlt. unfold scanQuoted.
  destruct (scanString_step quote (setExpectingValue l false))
    as (tok & l' & -> & Hw & Hp & Hv & Hl & Hc); [exact Hlt|].
  cbn [bind]. apply stepped_expecting.
  do 2 eexists. split; [reflexivity|].
  apply went_step; [exact Hw|exact Hp|simpl; lia|..];
    destruct (expectingValue l); assumption.
Qed.

Lemma scanBrace_step (l : Lexer) :
  pos l < length (input l) -> stepped l (scanBrace l).
Proof.
  intros Hlt. unfold scanBrace. destruct (at_some _ _ Hlt) as [ch E]. rewrite E.
  cbn [bind]. do 2 eexists. split; [reflexivity|].
  apply (advance_step l _ ch E); reflexivity.
Qed.

Lemma scanSemicolon_step (l : Lexer) (ch : byte) :
  at_ (input l) (pos l) = Some ch -> beq ch ";"%char = true ->
  stepped l (scanSemicolon l).
Proof.
  intros E Hch. apply beq_eq in Hch. subst ch. unfold scanSemicolon.
  do 2 eexists. split; [reflexivity|].
  apply (advance_step l _ _ E); reflexivity.
Qed.

Lemma scanWildcard_step (l : Lexer) :
  pos l < length (input l) -> stepped l (scanWildcard l).
Proof.
  intros Hlt. unfold scanWildcard.
  set (l1 := advance l).
  assert (H1 : went l l1) by apply advance_went.
  assert (Hp1 : pos l1 = S (pos l)) by (apply advance_pos, Hlt).
  destruct (advanceWhile_ok (fun ch => negb (beq ch ">"%char)) (length (input l1)) l1)
    as (l' & Heq & Hm'); [lia|].
  pose proof (advanceWhile_went _ _ _ _ Heq) as Hw'. rewrite Heq.
  cbn [bind].
  set (l2 := if pos l' <? length (input l') then advance l' else l').
  assert (H2 : went l' l2).
  { unfold l2. destruct (_ <? _); [apply advance_went|apply went_refl]. }
  assert (Hw : went l l2) by (eapply went_trans; [|exact H2]; eapply went_trans; eassumption).
  assert (pos l1 <= pos l2).
  { destruct Hm' as (_ & _ & _ & _ & _ & _ & Hle & _).
    destruct H2 as ((_ & _ & _ & _ & _ & _ & Hle2 & _) & _). lia. }
  finish_step l Hw.
Qed.

Lemma scanWhitespace_step (l : Lexer) (ch : byte) :
  at_ (input l) (pos l) = Some ch -> isWhitespace ch = true ->
  stepped l (scanWhitespace l).
Proof.
  intros E Hch. pose proof (at_lt E) as Hlt. unfold scanWhitespace.
  destruct (advanceWhile_strict isWhitespace l ch E Hch) as (l' & Heq & Hm & Hp).
  pose proof (advanceWhile_went _ _ _ _ Heq) as Hw. rewrite Heq.
  finish_step l Hw.
Qed.

Lemma TrimLeftFunc_snoc (f : byte -> bool) (ch : byte) (x : gostring) :
  f ch = false -> TrimLeftFunc f (x ++ [ch]) <> [].
Proof.
  intros Hch. induction x as [|a x IH]; simpl.
  - now rewrite Hch.
  - destruct (f a); [exact IH|discriminate].
Qed.

Lemma TrimRight_nonempty (ch : byte) (rest cutset : gostring) :
  existsb (beq ch) cutset = false -> TrimRight (ch :: rest) cutset <> [].
Proof.
  intros Hch H. unfold TrimRight, TrimRightFunc in H.
  apply (f_equal (@rev byte)) in H. rewrite rev_involutive in H. simpl in H.
  revert H. now apply TrimLeftFunc_snoc.
Qed.

Lemma slice_head (s : gostring) (a b : nat) (ch : byte) :
  at_ s a = Some ch -> a < b -> slice s a b = ch :: slice s (S a) b.
Proof.
  intros E H. rewrite (slice_app s a (S a) b) by lia.
  now rewrite (slice_one _ _ _ E).
Qed.

(** The unquoted value: the bytes up to the next semicolon or newline,
    without the blanks and tabs at their end. *)
Lemma scanUnquotedValue_step (l : Lexer) (ch : byte) :
  at_ (input l) (pos l) = Some ch ->
  beq ch ";"%char = false -> isWhitespace ch = false ->
  exists tok l',
    scanUnquotedValue l = Some (tok, l') /\ went l l' /\ pos l < pos l' /\
    Type_ tok = TokenValue /\
    Value tok = TrimRight (slice (input l) (pos l) (pos l')) [" "%char; TAB] /\
    Line tok = line l /\ Column tok = col l /\ Value tok <> [].
Proof.
  intros E H1 H2. pose proof (at_lt E) as Hlt. unfold scanUnquotedValue.
  destruct (advanceWhile_strict (fun ch => negb (beq ch ";"%char || beq ch LF)) l ch E)
    as (l' & Heq & Hm & Hp).
  { rewrite H1. unfold isWhitespace in H2.
    destruct (beq ch LF); [|reflexivity].
    rewrite !orb_true_r in H2. discriminate. }
  pose proof (advanceWhile_went _ _ _ _ Heq) as Hw. rewrite Heq.
  cbn [bind]. rewrite (substr_moved l _ Hm) by lia. cbn [bind].
  do 2 eexists. split; [reflexivity|]. split; [exact Hw|]. split; [exact Hp|].
  cbn [Type_ Value Line Column]. repeat split.
  rewrite (slice_head _ _ _ _ E Hp). apply TrimRight_nonempty.
  unfold isWhitespace in H2. cbn [existsb].
  destruct (beq ch " "%char); [discriminate|].
  destruct (beq ch TAB); [discriminate|]. reflexivity.
Qed.

Lemma classifyShowWord_same (word lower : gostring) (l : Lexer) :
  snd (classifyShowWord word lower l) = l.
Proof.
  unfold classifyShowWord. split_ifs; reflexivity.
Qed.

Lemma classifyConfigWord_cursor (word lower : gostring) (l : Lexer) :
  let l' := snd (classifyConfigWord word lower l) in
  line l' = line l /\ col l' = col l.
Proof.
  unfold classifyConfigWord. split_ifs; split; reflexivity.
Qed.

Lemma classifyWord_cursor (word : gostring) (l : Lexer) :
  let l' := snd (classifyWord word l) in
  line l' = line l /\ col l' = col l.
Proof.
  unfold classifyWord.
  set (l1 := if isAuto (parseMode l) && negb (detectedMode l)
             then setMode l (detectParseMode l) true else l).
  assert (H1 : line l1 = line l /\ col l1 = col l).
  { unfold l1. destruct (_ && _); split; reflexivity. }
  destruct H1 as [<- <-].
  destruct (isShow (parseMode l1)).
  - now rewrite classifyShowWord_same.
  - apply classifyConfigWord_cursor.
Qed.

Lemma classifyWord_steady (word : gostring) (l : Lexer) :
  steady l -> snd (classifyWord word l) = l.
Proof.
  intros (Hm & Hd & _). rewrite (classifyWord_latched _ _ Hd), Hm.
  apply classifyShowWord_same.
Qed.

Lemma scanWord_step (l : Lexer) (ch : byte) :
  at_ (input l) (pos l) = Some ch -> endsWord ch = false ->
  stepped l (scanWord l).
Proof.
  intros E Hch. pose proof (at_lt E) as Hlt. unfold scanWord.
  destruct (advanceWhile_strict (fun ch => negb (endsWord ch)) l ch E)
    as (l' & Heq & Hm & Hp).
  { now rewrite Hch. }
  pose proof (advanceWhile_went _ _ _ _ Heq) as Hw. rewrite Heq.
  cbn [bind]. rewrite (substr_moved l _ Hm) by lia. cbn [bind].
  set (word := slice (input l) (pos l) (pos l')).
  pose proof (classifyWord_fields word l') as Hf. cbv zeta in Hf.
  pose proof (classifyWord_cursor word l') as Hc. cbv zeta in Hc.
  pose proof (classifyWord_steady word l') as Hs.
  destruct (classifyWord word l') as [tokenType l''].
  cbn [snd] in Hf, Hc, Hs. destruct Hf as (Hi & Hpos & _). destruct Hc as (Hl & Hcol).
  destruct (went_step l l' (mkToken tokenType word (line l) (col l)) Hw Hp)
    as [Hspec Hst]; try reflexivity; [lia|].
  do 2 eexists. split; [reflexivity|]. split.
  - unfold step_spec in *. cbv zeta in *. rewrite Hi, Hpos, Hl, Hcol. exact Hspec.
  - intros H. apply Hst in H. now rewrite (Hs H).
Qed.

(** A call of [nextToken] before the end of the input: what it returns and
    where it leaves the lexer. *)
Lemma nextToken_step (l : Lexer) :
  pos l < length (input l) -> stepped l (nextToken l).
Proof.
  intros Hlt. unfold nextToken.
  destruct (Nat.leb_spec (length (input l)) (pos l)) as [Hge|_]; [lia|].
  assert (Hrest : forall diff,
             diff = None ->
             stepped l
               match diff with
               | Some r => Some r
               | None =>
                   ch <- at_ (input l) (pos l) ;;
                   (if beq ch "#"%char then scanComment l
                    else if beq ch "/"%char && beq (peek l 1) "*"%char
                    then scanBlockComment l
                    else if beq ch DQUOTE then scanQuoted DQUOTE l
                    else if beq ch "'"%char then scanQuoted "'"%char l
                    else if beq ch "{"%char || beq ch "}"%char
                    then scanBrace (setExpectingValue l false)
                    else if beq ch ";"%char
                    then scanSemicolon (setExpectingValue l false)
                    else if beq ch "<"%char then scanWildcard l
                    else if beq ch "*"%char
                    then Some (mkToken TokenWildcard (str "*") (line l) (col l),
                               advance l)
                    else if isWhitespace ch then scanWhitespace l
                    else if expectingValue l
                    then scanUnquotedValue (setExpectingValue l false)
                    else scanWord l)
               end).
  { intros diff ->. destruct (at_some _ _ Hlt) as [ch E]. rewrite E. cbn [bind].
    destruct (beq ch "#"%char) eqn:C1; [eapply scanComment_step; eassumption|].
    destruct (beq ch "/"%char && beq (peek l 1) "*"%char);
      [apply scanBlockComment_step, Hlt|].
    destruct (beq ch DQUOTE) eqn:C3; [apply scanQuoted_step, Hlt|].
    destruct (beq ch "'"%char) eqn:C4; [apply scanQuoted_step, Hlt|].
    destruct (beq ch "{"%char || beq ch "}"%char) eqn:C5;
      [apply stepped_expecting, scanBrace_step, Hlt|].
    destruct (beq ch ";"%char) eqn:C6;
      [apply stepped_expecting; eapply scanSemicolon_step; eassumption|].
    destruct (beq ch "<"%char); [apply scanWildcard_step, Hlt|].
    destruct (beq ch "*"%char) eqn:C8.
    { apply beq_eq in C8. subst ch. do 2 eexists. split; [reflexivity|].
      apply (advance_step l _ _ E); reflexivity. }
    destruct (isWhitespace ch) eqn:C9; [eapply scanWhitespace_step; eassumption|].
    destruct (expectingValue l) eqn:C10.
    { destruct (scanUnquotedValue_step (setExpectingValue l false) ch E C6 C9)
        as (tok & l' & -> & Hw & Hp & Ht & Hv & Hl & Hc & Hne).
      do 2 eexists. split; [reflexivity|].
      destruct Hw as [(Hi & _ & _ & _ & _ & _ & _ & Hlen) Hw].
      cbn [setExpectingValue input pos line col] in *.
      split.
      - unfold step_spec. cbv zeta.
        split; [exact Hi|]. split; [exact Hp|]. split; [apply Hlen; lia|].
        split; [now rewrite Hl, Hc|]. split; [exact Hw|]. split; [|exact Hne].
        right. auto.
      - intros (_ & _ & H). congruence. }
    apply (scanWord_step l ch E). unfold endsWord.
    apply orb_false_iff in C5 as [C5 C5'].
    now rewrite C9, C5, C5', C6, C3, C4, C1. }
  destruct (col l =? 1).
  - destruct (scanDiffLine_step l Hlt) as (r & -> & Hr). cbn [bind].
    destruct r as [[tok l']|].
    + do 2 eexists. split; [reflexivity|exact Hr].
    + exact (Hrest None eq_refl).
  - exact (Hrest None eq_refl).
Qed.

End StepFacts.

(** ** The tokens of a scan *)

Module ScanFacts.

Import Regexp Tables Lex Layout GoStringFacts LexFacts StepFacts.

Lemma keep_nonempty (tok : Token) : Value tok <> [] -> keep tok = true.
Proof.
  intros H. unfold keep. destruct (Value tok); [congruence|].
  simpl. apply orb_true_r.
Qed.

Lemma skipn_end (s : gostring) (i : nat) : length s <= i -> skipn i s = [].
Proof.
  apply skipn_all2.
Qed.

(** The loop of [Tokenize] lays its tokens on the rest of the input. *)
Lemma scanLoop_tiles :
  forall fuel l acc,
    length (input l) - pos l <= fuel -> pos l <= length (input l) ->
    exists rest pieces,
      scanLoop fuel l acc = Some (acc ++ rest) /\
      concat pieces = skipn (pos l) (input l) /\
      tiles (line l, col l) rest pieces.
Proof.
  assert (Hend : forall l acc, length (input l) <= pos l ->
             exists rest pieces,
               Some acc = Some (acc ++ rest) /\
               concat pieces = skipn (pos l) (input l) /\
               tiles (line l, col l) rest pieces).
  { intros l acc H. exists [], []. rewrite app_nil_r, skipn_end by exact H.
    repeat split. constructor. }
  induction fuel as [|fuel IH]; intros l acc Hf Hp; simpl;
    destruct (Nat.ltb_spec (pos l) (length (input l))) as [Hlt|Hge];
    try (now apply Hend); [lia|].
  destruct (nextToken_step l Hlt) as (tok & l' & -> & Hs & _). cbn [bind].
  destruct Hs as (Hi & Hlt' & Hle & Hlc & Hw & Hv & Hne).
  rewrite (keep_nonempty _ Hne).
  destruct (IH l' (acc ++ [tok])) as (rest & pieces & -> & Hcat & Ht);
    [rewrite Hi; lia|rewrite Hi; lia|].
  exists (tok :: rest), (slice (input l) (pos l) (pos l') :: pieces).
  split; [now rewrite <- app_assoc|]. split.
  - cbn [concat]. rewrite Hcat, Hi. apply slice_skipn. lia.
  - constructor; auto.
    + apply slice_nonempty; lia.
    + destruct Hv as [Hv|(_ & Hty & Hv)]; [now left|now right].
    + now rewrite <- Hw.
Qed.

(** In Show mode the values are the pieces. *)
Lemma scanLoop_steady :
  forall fuel l acc,
    length (input l) - pos l <= fuel -> pos l <= length (input l) -> steady l ->
    exists rest,
      scanLoop fuel l acc = Some (acc ++ rest) /\
      values rest = skipn (pos l) (input l) /\
      placed (line l, col l) rest /\
      Forall (fun tok => Value tok <> []) rest.
Proof.
  assert (Hend : forall l acc, length (input l) <= pos l ->
             exists rest,
               Some acc = Some (acc ++ rest) /\
               values rest = skipn (pos l) (input l) /\
               placed (line l, col l) rest /\
               Forall (fun tok => Value tok <> []) rest).
  { intros l acc H. exists []. rewrite app_nil_r, skipn_end by exact H.
    repeat split. constructor. }
  induction fuel as [|fuel IH]; intros l acc Hf Hp Hst; simpl;
    destruct (Nat.ltb_spec (pos l) (length (input l))) as [Hlt|Hge];
    try (now apply Hend); [lia|].
  destruct (nextToken_step l Hlt) as (tok & l' & -> & Hs & Hst'). cbn [bind].
  destruct Hs as (Hi & Hlt' & Hle & Hlc & Hw & Hv & Hne).
  rewrite (keep_nonempty _ Hne).
  destruct (IH l' (acc ++ [tok])) as (rest & -> & Hcat & Hpl & Hall);
    [rewrite Hi; lia|rewrite Hi; lia|auto|].
  assert (Hval : Value tok = slice (input l) (pos l) (pos l')).
  { destruct Hv as [Hv|(Hv & _)]; [exact Hv|].
    destruct Hst as (_ & _ & Hst). congruence. }
  exists (tok :: rest).
  split; [now rewrite <- app_assoc|]. split; [|split].
  - unfold values in *. cbn [map concat]. rewrite Hcat, Hval, Hi.
    apply slice_skipn. lia.
  - cbn [placed]. split; [exact Hlc|]. now rewrite Hval, <- Hw.
  - now constructor.
Qed.

Lemma Tokenize_scan (l : Lexer) :
  FindStringSubmatch promptPattern (input l) = None ->
  Tokenize l = scanLoop (length (input l)) l [].
Proof.
  intros H. unfold Tokenize. cbn [TokenizeFuel]. unfold tryTokenizePrompt.
  now rewrite H.
Qed.

(** [X8] One step of the lexer.  Before the end of the input, [nextToken]
    returns a token and moves the cursor forward over a piece of the input
    that is not empty.  The token has the line and the column at which the
    piece starts, and the lexer's line and column are counted along the
    piece.  The value of the token is the piece -- or, when a value keyword
    made the lexer expect a value and the piece is an unquoted value, the
    piece without the blanks and tabs at its end -- and is never empty. *)
Theorem nextToken_spec (l : Lexer) :
  pos l < length (input l) ->
  exists tok l', nextToken l = Some (tok, l') /\ step_spec l tok l'.
Proof.
  intros Hlt. destruct (nextToken_step l Hlt) as (tok & l' & H & Hs & _).
  now exists tok, l'.
Qed.

Lemma nextToken_spec_witness :
  let l := New (str "set system host-name r1") in
  pos l < length (input l) /\
  exists tok l', nextToken l = Some (tok, l') /\ step_spec l tok l'.
Proof.
  intros l. assert (H : pos l < length (input l)) by (simpl; lia).
  split; [exact H|]. apply (nextToken_spec l H).
Defined.

(** [X9] The tokens of a text that is not a prompt lie on the text piece by
    piece.  [Tokenize] cuts the input from the cursor on into pieces that
    are not empty, one token for each piece and in their order; a token
    has the line and the column of the first byte of its piece; its value
    is the piece, except that a [TokenValue] may lack the blanks and tabs
    at the end of its piece; no token has an empty value. *)
Theorem Tokenize_tiles (l : Lexer) :
  pos l <= length (input l) ->
  FindStringSubmatch promptPattern (input l) = None ->
  exists tokens pieces,
    Tokenize l = Some tokens /\
    concat pieces = skipn (pos l) (input l) /\
    tiles (line l, col l) tokens pieces.
Proof.
  intros Hp Hno. rewrite (Tokenize_scan l Hno).
  destruct (scanLoop_tiles (length (input l)) l []) as (rest & pieces & H);
    [lia|exact Hp|].
  now exists rest, pieces.
Qed.

Lemma Tokenize_tiles_witness :
  let l := New (str "description uplink  ;") in
  pos l <= length (input l) /\
  FindStringSubmatch promptPattern (input l) = None /\
  exists tokens pieces,
    Tokenize l = Some tokens /\
    concat pieces = skipn (pos l) (input l) /\
    tiles (line l, col l) tokens pieces.
Proof.
  intros l. assert (H1 : pos l <= length (input l)) by (simpl; lia).
  assert (H2 : FindStringSubmatch promptPattern (input l) = None) by reflexivity.
  split; [exact H1|]. split; [exact H2|]. apply (Tokenize_tiles l H1 H2).
Defined.

(** [X10] In Show mode the scan loses nothing.  For a text that is not a
    prompt, tokenised in Show mode, the values of the tokens put together
    are the text, byte for byte; every token stands at the line and column
    its value starts at; no value is empty. *)
Theorem Show_scan_lossless (s : gostring) :
  FindStringSubmatch promptPattern s = None ->
  exists tokens,
    Tokenize (SetParseMode (New s) ParseModeShow) = Some tokens /\
    values tokens = s /\ placed (1, 1) tokens /\
    Forall (fun tok => Value tok <> []) tokens.
Proof.
  intros Hno. set (l := SetParseMode (New s) ParseModeShow).
  rewrite (Tokenize_scan l Hno).
  destruct (scanLoop_steady (length (input l)) l []) as (rest & H);
    [lia|simpl; lia|repeat split|].
  now exists rest.
Qed.

Lemma Show_scan_lossless_witness :
  let s := str "ge-0/0/0  up  up" in
  FindStringSubmatch promptPattern s = None /\
  exists tokens,
    Tokenize (SetParseMode (New s) ParseModeShow) = Some tokens /\
    values tokens = s /\ placed (1, 1) tokens /\
    Forall (fun tok => Value tok <> []) tokens.
Proof.
  intros s. assert (H : FindStringSubmatch promptPattern s = None) by reflexivity.
  split; [exact H|]. apply (Show_scan_lossless s H).
Defined.

End ScanFacts.

(** ** What is no prompt *)

Module PromptFacts.

Import Regexp Tables Lex Highlighter Needs GoStringFacts.

Lemma classWithin_sound (p q : byte -> bool) (b : byte) :
  classWithin p q = true -> p b = true -> q b = true.
Proof.
  unfold classWithin. intros H Hp. rewrite forallb_forall in H.
  assert (Hin : In b allBytes).
  { unfold allBytes. rewrite <- (ascii_nat_embedding b). apply in_map.
    apply in_seq. pose proof (nat_ascii_bounded b). lia. }
  apply H in Hin. now rewrite Hp in Hin.
Qed.

Lemma iterate_needs (greedy : bool) (body : nat -> caps -> cont -> option caps)
      (k : cont) (res : caps) :
  (forall i c k', body i c k' = Some res ->
                  exists j c', k' j c' = Some res /\ i <= j) ->
  forall fuel i c,
    iterate greedy body k fuel i c = Some res ->
    exists j c', k j c' = Some res /\ i <= j.
Proof.
  intros Hbody.
  induction fuel as [|fuel IH]; intros i c H; simpl in H; [eauto|].
  assert (Hmore :
            body i c (fun j c' =>
                        if i <? j then iterate greedy body k fuel j c' else None)
            = Some res -> exists j c', k j c' = Some res /\ i <= j).
  { intros Hb. destruct (Hbody _ _ _ Hb) as (j & c' & Hk & Hj).
    destruct (Nat.ltb_spec i j) as [Hlt|]; [|discriminate].
    destruct (IH _ _ Hk) as (j' & c'' & Hk' & Hj'). exists j', c''. split; [exact Hk'|lia]. }
  destruct greedy.
  - destruct (body i c _) eqn:Hb.
    + injection H as ->. now apply Hmore.
    + eauto.
  - destruct (k i c) eqn:Hk.
    + injection H as ->. eauto.
    + now apply Hmore.
Qed.

(** A successful run of [r] from [i] goes on at an offset [j]; if [r] needs
    a byte of the class [q], there is one between [i] and [j]. *)
Lemma run_needs (q : byte -> bool) (input : gostring) (res : caps) :
  forall r i c k,
    run r input i c k = Some res ->
    exists j c',
      k j c' = Some res /\ i <= j /\
      (needs q r = true ->
       exists p b, i <= p /\ p < j /\ at_ input p = Some b /\ q b = true).
Proof.
  induction r as [|p|r1 IH1 r2 IH2|r1 IH1 r2 IH2|r1 IH1|r1 IH1|g r1 IH1| |];
    intros i c k H; simpl in H; cbn [needs].
  - exists i, c. split; [exact H|]. split; [lia|discriminate].
  - destruct (at_ input i) as [b|] eqn:E; [|discriminate].
    destruct (p b) eqn:Hp; [|discriminate].
    exists (S i), c. split; [exact H|]. split; [lia|].
    intros Hq. exists i, b. repeat split; auto.
    eapply classWithin_sound; eassumption.
  - destruct (IH1 _ _ _ H) as (j1 & c1 & H1 & Hj1 & Hn1).
    destruct (IH2 _ _ _ H1) as (j2 & c2 & H2 & Hj2 & Hn2).
    exists j2, c2. split; [exact H2|]. split; [lia|].
    intros Hq. apply orb_true_iff in Hq as [Hq|Hq].
    + destruct (Hn1 Hq) as (p & b & ? & ? & ? & ?). exists p, b.
      repeat split; auto; lia.
    + destruct (Hn2 Hq) as (p & b & ? & ? & ? & ?). exists p, b.
      repeat split; auto; lia.
  - destruct (run r1 input i c k) eqn:E1.
    + injection H as ->. destruct (IH1 _ _ _ E1) as (j & c' & Hk & Hj & Hn).
      exists j, c'. split; [exact Hk|]. split; [exact Hj|].
      intros Hq. apply andb_true_iff in Hq as [Hq _]. auto.
    + destruct (IH2 _ _ _ H) as (j & c' & Hk & Hj & Hn).
      exists j, c'. split; [exact Hk|]. split; [exact Hj|].
      intros Hq. apply andb_true_iff in Hq as [_ Hq]. auto.
  - destruct (iterate_needs true (run r1 input) k res) with (2 := H)
      as (j & c' & Hk & Hj).
    { intros i' c0 k' Hb. destruct (IH1 _ _ _ Hb) as (j & c' & Hk & Hj & _). eauto. }
    exists j, c'. split; [exact Hk|]. split; [exact Hj|discriminate].
  - destruct (iterate_needs false (run r1 input) k res) with (2 := H)
      as (j & c' & Hk & Hj).
    { intros i' c0 k' Hb. destruct (IH1 _ _ _ Hb) as (j & c' & Hk & Hj & _). eauto. }
    exists j, c'. split; [exact Hk|]. split; [exact Hj|discriminate].
  - destruct (IH1 _ _ _ H) as (j & c' & Hk & Hj & Hn).
    exists j, ((g, (i, j)) :: c'). auto.
  - destruct (i =? 0); [|discriminate].
    exists i, c. split; [exact H|]. split; [lia|discriminate].
  - destruct (i =? length input); [|discriminate].
    exists i, c. split; [exact H|]. split; [lia|discriminate].
Qed.

(** A pattern that needs a byte of the class [q] matches no text without
    one. *)
Lemma find_needs (q : byte -> bool) (r : regex) (input : gostring) :
  needs q r = true -> forallb (fun b => negb (q b)) input = true ->
  find r input = None.
Proof.
  intros Hn Hno. unfold find.
  assert (Hrun : forall start,
             run r input start [] (fun j c => Some ((0, (start, j)) :: c)) = None).
  { intros start.
    destruct (run r input start [] _) as [res|] eqn:Hrun; [|reflexivity].
    destruct (run_needs q input res _ _ _ _ Hrun) as (j & c' & _ & _ & Hq).
    destruct (Hq Hn) as (p & b & _ & _ & Hb & Hqb).
    rewrite forallb_forall in Hno. unfold at_ in Hb. apply nth_error_In in Hb.
    apply Hno in Hb. now rewrite Hqb in Hb. }
  generalize 0. induction (length input) as [|tries IH]; intros start; simpl;
    rewrite Hrun; auto.
Qed.

Lemma Contains_byte (s : gostring) (a : byte) :
  Contains s [a] = false -> forallb (fun b => negb (beq a b)) s = true.
Proof.
  induction s as [|x s IH]; [reflexivity|].
  cbn [Contains HasPrefix forallb].
  replace (HasPrefix s []) with true by (destruct s; reflexivity).
  rewrite andb_true_r.
  intros H. apply orb_false_iff in H as [Hx Hs]. now rewrite Hx, IH.
Qed.

Lemma forallb_TrimLeftFunc (f p : byte -> bool) (s : gostring) :
  forallb p s = true -> forallb p (TrimLeftFunc f s) = true.
Proof.
  induction s as [|x s IH]; [reflexivity|]. intros H. simpl.
  destruct (f x); [|exact H]. simpl in H. apply andb_true_iff in H as [_ H]. auto.
Qed.

Lemma forallb_rev (p : byte -> bool) (s : gostring) :
  forallb p s = true -> forallb p (rev s) = true.
Proof.
  rewrite !forallb_forall. intros H x Hx. apply H. now apply in_rev.
Qed.

Lemma forallb_TrimSpace (p : byte -> bool) (s : gostring) :
  forallb p s = true -> forallb p (TrimSpace s) = true.
Proof.
  intros H. unfold TrimSpace, TrimRightFunc.
  now apply forallb_rev, forallb_TrimLeftFunc, forallb_rev, forallb_TrimLeftFunc.
Qed.

Lemma promptPattern_needs_at : needs (beq "@"%char) promptPattern = true.
Proof.
  vm_compute. reflexivity.
Qed.

(** [X11] A text without the byte [@] is no prompt: the prompt pattern
    does not match it, so that [Tokenize] scans it as it stands, and
    neither [IsPrompt] nor the highlighter's [isPromptLine] take it for a
    prompt line. *)
Theorem no_at_no_prompt (s : gostring) :
  Contains s (str "@") = false ->
  FindStringSubmatch promptPattern s = None /\
  IsPrompt s = false /\ isPromptLine s = Some false.
Proof.
  intros H. pose proof (Contains_byte _ _ H) as Hno.
  assert (Hp : IsPrompt s = false).
  { unfold IsPrompt, MatchString.
    now rewrite (find_needs _ _ _ promptPattern_needs_at (forallb_TrimSpace _ _ Hno)). }
  split; [|split; [exact Hp|]].
  - unfold FindStringSubmatch.
    now rewrite (find_needs _ _ _ promptPattern_needs_at Hno).
  - unfold isPromptLine. now rewrite Hp, H.
Qed.

Lemma no_at_no_prompt_witness :
  let s := str "show bgp summary" in
  Contains s (str "@") = false /\
  FindStringSubmatch promptPattern s = None /\
  IsPrompt s = false /\ isPromptLine s = Some false.
Proof.
  intros s. assert (H : Contains s (str "@") = false) by reflexivity.
  split; [exact H|]. apply (no_at_no_prompt s H).
Defined.

End PromptFacts.

(** ** The highlighter end to end *)

Module RoundTrip.

Import Escape Regexp Tables Lex Layout Highlighter StripPass Themes.
Import GoStringFacts EscapeFacts LexFacts Totality HighlightFacts.
Import StripPassFacts StripFacts ThemeFacts StepFacts ScanFacts.

Lemma escFree_values (tokens : list Token) :
  escFree (values tokens) -> Forall (fun token => escFree (Value token)) tokens.
Proof.
  unfold values. induction tokens as [|tok tokens IH]; intros H; [constructor|].
  cbn [map concat] in H. apply escFree_app in H as [H1 H2].
  constructor; auto.
Qed.

Lemma render_strip (h : Highlighter) (tokens : list Token) :
  themeOfCodes (theme h) -> escFree (values tokens) ->
  StripANSI (renderTokens h tokens) = Some (values tokens).
Proof.
  intros Hth Hv. rewrite StripANSI_pass. f_equal.
  destruct (render_pass h tokens Hth (escFree_values _ Hv) [] eq_refl) as [H _].
  exact H.
Qed.

(** [X12] Highlighting show output changes nothing that is seen.  For a
    theme whose colours are runs of complete CSI sequences -- every
    built-in theme is one -- and a text without escape bytes that is not a
    prompt, [HighlightShowOutput] returns, and [StripANSI] of what it
    returns is the text, byte for byte. *)
Theorem HighlightShowOutput_strip (h : Highlighter) (s : gostring) :
  themeOfCodes (theme h) -> escFree s ->
  FindStringSubmatch promptPattern s = None ->
  exists out, HighlightShowOutput h s = Some out /\ StripANSI out = Some s.
Proof.
  intros Hth Hfree Hno. unfold HighlightShowOutput.
  destruct (negb (IsEnabled h) || eqs s []).
  - exists s. split; [reflexivity|now apply StripANSI_copy].
  - set (l := SetParseMode (New s) ParseModeShow).
    rewrite (Tokenize_scan l Hno).
    destruct (scanLoop_steady (length (input l)) l [])
      as (tokens & -> & Hv & _); [lia|simpl; lia|repeat split|].
    cbn [bind app]. eexists. split; [reflexivity|].
    simpl in Hv. rewrite render_strip; [now rewrite Hv|exact Hth|now rewrite Hv].
Qed.

Lemma HighlightShowOutput_strip_witness :
  let h := NewWithTheme (ThemeByName (str "nord")) in
  let s := str "ge-0/0/0  up  down" in
  themeOfCodes (theme h) /\ escFree s /\
  FindStringSubmatch promptPattern s = None /\
  exists out, HighlightShowOutput h s = Some out /\ StripANSI out = Some s.
Proof.
  intros h s.
  assert (H1 : themeOfCodes (theme h)) by apply ThemeByName_codes.
  assert (H2 : escFree s) by (unfold s, escFree; repeat constructor).
  assert (H3 : FindStringSubmatch promptPattern s = None) by reflexivity.
  split; [exact H1|]. split; [exact H2|]. split; [exact H3|].
  apply (HighlightShowOutput_strip h s H1 H2 H3).
Defined.

(** *** Text without control sequences *)

Lemma Contains_skipn (pat : gostring) :
  forall i s, HasPrefix (skipn i s) pat = true -> Contains s pat = true.
Proof.
  induction i as [|i IH]; intros s H.
  - cbn [skipn] in H. destruct s; cbn [Contains]; now rewrite H.
  - destruct s as [|x s]; cbn [skipn] in H.
    + cbn [Contains]. now rewrite H.
    + cbn [Contains]. rewrite (IH s H). apply orb_true_r.
Qed.

Lemma HasANSI_startsCSI (s : gostring) (i : nat) :
  HasANSI s = false -> startsCSI s i = false.
Proof.
  intros H. destruct (startsCSI s i) eqn:E; [|reflexivity].
  apply startsCSI_inv in E. unfold HasANSI in H.
  rewrite (Contains_skipn _ i s) in H; [discriminate|].
  rewrite E. cbn [HasPrefix]. unfold escapeChar, csiBracket.
  rewrite !beq_refl. now destruct (skipn (i + 2) s).
Qed.

Lemma extractLoop_plain (input : gostring) :
  HasANSI input = false ->
  forall fuel i textBuf segments,
    length input - i <= fuel ->
    extractLoop fuel input i textBuf segments
    = Some (flush segments (textBuf ++ skipn i input)).
Proof.
  intros Hno. induction fuel as [|fuel IH]; intros i textBuf segments Hf; simpl;
    destruct (at_ input i) as [b|] eqn:E;
    try (rewrite (skipn_none _ _ E), app_nil_r; reflexivity).
  - apply at_lt in E. lia.
  - rewrite (HasANSI_startsCSI _ _ Hno), IH by lia.
    rewrite (skipn_at _ _ _ E), <- app_assoc. reflexivity.
Qed.

Lemma extractSegments_plain (s : gostring) :
  HasANSI s = false -> extractSegments s = Some (flush [] s).
Proof.
  intros H. unfold extractSegments. now rewrite extractLoop_plain by (auto; lia).
Qed.

Lemma highlightTokens_plain (h : Highlighter) (s : gostring) :
  HasANSI s = false -> s <> [] -> highlightTokens h s = highlightTokensCleaned h s.
Proof.
  intros Hno Hne. unfold highlightTokens. rewrite (extractSegments_plain _ Hno).
  unfold flush. destruct s as [|b s]; [congruence|].
  cbn [length Nat.ltb Nat.leb bind app renderSegments isEscape text].
  now destruct (highlightTokensCleaned h (b :: s)).
Qed.

(** [X13] A text without control sequences is one segment.  When the text
    holds no [ESC \[], [extractSegments] returns the whole text as a single
    text segment (none for the empty text), and [HighlightForced] does what
    [highlightTokensCleaned] does on the text itself. *)
Theorem plain_text_is_one_segment (h : Highlighter) (s : gostring) :
  HasANSI s = false ->
  extractSegments s = Some (if eqs s [] then [] else [mkSegment s false]) /\
  HighlightForced h s =
  if negb (IsEnabled h) || eqs s [] then Some s else highlightTokensCleaned h s.
Proof.
  intros Hno. split.
  - rewrite (extractSegments_plain _ Hno). now destruct s.
  - unfold HighlightForced. destruct (negb (IsEnabled h)); [reflexivity|].
    destruct s as [|b s]; [reflexivity|]. cbn [eqs orb].
    apply highlightTokens_plain; [exact Hno|discriminate].
Qed.

Lemma plain_text_is_one_segment_witness :
  let h := NewWithTheme DefaultTheme in
  let s := str "show route" in
  HasANSI s = false /\
  extractSegments s = Some [mkSegment s false] /\
  HighlightForced h s = highlightTokensCleaned h s.
Proof.
  intros h s. assert (H : HasANSI s = false) by reflexivity.
  split; [exact H|]. exact (plain_text_is_one_segment h s H).
Defined.

(** [X14] The two entry points agree on clean text.  For a text without
    escape bytes the sniffer gives an answer; when it accepts the text,
    [Highlight] returns what [HighlightForced] returns, and when it rejects
    the text, [Highlight] returns the text as it is. *)
Theorem Highlight_agrees_with_forced (h : Highlighter) (s : gostring) :
  escFree s ->
  exists looks,
    looksLikeJunOS s = Some looks /\
    Highlight h s = if looks then HighlightForced h s else Some s.
Proof.
  intros Hfree. destruct (looksLikeJunOS_ok s) as [looks Hl].
  exists looks. split; [exact Hl|].
  unfold Highlight, HighlightForced.
  destruct (negb (IsEnabled h) || eqs s []) eqn:C; [now destruct looks|].
  rewrite (StripANSI_copy _ Hfree). cbn [bind]. rewrite Hl. cbn [bind].
  destruct looks; cbn [negb]; [|reflexivity].
  symmetry. apply highlightTokens_plain.
  - unfold HasANSI. change [ESC; "["%char] with (escapeChar :: [ "["%char ]).
    now apply Contains_escFree.
  - intros ->. apply orb_false_iff in C as [_ C]. discriminate.
Qed.

Lemma Highlight_agrees_with_forced_witness :
  let h := NewWithTheme DefaultTheme in
  let s := str "set system host-name r1" in
  escFree s /\
  exists looks,
    looksLikeJunOS s = Some looks /\
    Highlight h s = if looks then HighlightForced h s else Some s.
Proof.
  intros h s. assert (H : escFree s) by (unfold s, escFree; repeat constructor).
  split; [exact H|]. apply (Highlight_agrees_with_forced h s H).
Defined.

(** *** No call fails *)

Lemma highlightTokensCleaned_ok (h : Highlighter) (s : gostring) :
  exists out, highlightTokensCleaned h s = Some out.
Proof.
  unfold highlightTokensCleaned.
  destruct (Tokenize_total (New s)) as [tokens ->]; [simpl; lia|].
  eexists. reflexivity.
Qed.

Lemma renderSegments_ok (h : Highlighter) (segments : list segment) :
  forall buf, exists out, renderSegments h segments buf = Some out.
Proof.
  induction segments as [|seg segments IH]; intros buf; simpl; [eauto|].
  destruct (isEscape seg); [apply IH|].
  destruct (highlightTokensCleaned_ok h (text seg)) as [out ->]. cbn [bind].
  apply IH.
Qed.

Lemma Highlight_ok (h : Highlighter) (input : gostring) :
  exists out, Highlight h input = Some out.
Proof.
  unfold Highlight. destruct (negb (IsEnabled h) || eqs input []); [eauto|].
  destruct (StripANSI_escFree input) as (cleaned & -> & _). cbn [bind].
  destruct (looksLikeJunOS_ok cleaned) as [looks ->]. cbn [bind].
  destruct looks; cbn [negb]; [apply highlightTokensCleaned_ok|eauto].
Qed.

Lemma HighlightForced_ok (h : Highlighter) (input : gostring) :
  exists out, HighlightForced h input = Some out.
Proof.
  unfold HighlightForced. destruct (negb (IsEnabled h) || eqs input []); [eauto|].
  unfold highlightTokens, extractSegments.
  destruct (extractLoop_ok input (length input) 0 [] []) as (segs & -> & _);
    [lia|lia|reflexivity|].
  cbn [bind]. apply renderSegments_ok.
Qed.

Lemma HighlightShowOutput_ok (h : Highlighter) (input : gostring) :
  exists out, HighlightShowOutput h input = Some out.
Proof.
  unfold HighlightShowOutput. destruct (negb (IsEnabled h) || eqs input []); [eauto|].
  destruct (Tokenize_total (SetParseMode (New input) ParseModeShow)) as [tokens ->];
    [simpl; lia|].
  cbn [bind]. eauto.
Qed.

(** [X15] The highlighter never fails.  For every highlighter, enabled or
    not, and every input, [Highlight], [HighlightForced] and
    [HighlightShowOutput] return a string: no index leaves its string and
    every loop ends. *)
Theorem highlighter_total (h : Highlighter) (input : gostring) :
  (exists out, Highlight h input = Some out) /\
  (exists out, HighlightForced h input = Some out) /\
  (exists out, HighlightShowOutput h input = Some out).
Proof.
  split; [apply Highlight_ok|].
  split; [apply HighlightForced_ok|apply HighlightShowOutput_ok].
Qed.

End RoundTrip.

(** ** The terminal wrapper and the filter *)

Module TerminalFacts.

Import Escape Lex Highlighter Themes TerminalIO Cli.
Import GoStringFacts RoundTrip.

Lemma writeOutput_ok (t : Terminal) (w : list gostring) (data : gostring) :
  exists out, writeOutput t w data = Some (w ++ [out]) /\ written t data out.
Proof.
  unfold writeOutput, written. destruct (enabled t).
  - destruct (HighlightForced_ok (highlighter t) data) as [out Hout].
    rewrite Hout. cbn [bind]. eauto.
  - cbn [bind]. eauto.
Qed.

Lemma Forall_removelast (P : byte -> Prop) (s : gostring) :
  Forall P s -> Forall P (removelast s).
Proof.
  induction 1 as [|x s Hx Hs IH]; [constructor|].
  simpl. destruct s; [constructor|]. now constructor.
Qed.

(** The bytes of one read, cut into pieces; what is left in the line
    buffer holds no newline and is within the flush limit. *)
Lemma feed_pieces (t : Terminal) :
  forall data lineBuf w,
    Forall (fun b => beq b LF = false) lineBuf -> length lineBuf <= lineFlushLimit ->
    exists pieces outs lineBuf',
      feed t data lineBuf w = Some (lineBuf', w ++ outs) /\
      Forall2 (written t) pieces outs /\
      lineBuf ++ data = concat pieces ++ lineBuf' /\
      Forall isPiece pieces /\
      Forall (fun b => beq b LF = false) lineBuf' /\
      length lineBuf' <= lineFlushLimit.
Proof.
  induction data as [|b data IH]; intros lineBuf w Hno Hlen.
  - exists [], [], lineBuf. rewrite !app_nil_r. simpl. repeat split; auto.
  - cbn [feed].
    assert (Hlb : length (lineBuf ++ [b]) = S (length lineBuf))
      by (rewrite length_app; simpl; lia).
    destruct (beq b LF || (lineFlushLimit <? length (lineBuf ++ [b]))) eqn:C.
    + destruct (writeOutput_ok t w (lineBuf ++ [b])) as (out & -> & Hout).
      cbn [bind].
      destruct (IH [] (w ++ [out])) as (pieces & outs & lb' & -> & H2 & Hcat & Hp & Hno' & Hlen');
        [constructor|simpl; lia|].
      exists ((lineBuf ++ [b]) :: pieces), (out :: outs), lb'.
      rewrite <- app_assoc. split; [reflexivity|]. split; [now constructor|].
      split; [|split; [|auto]].
      * cbn [concat]. rewrite <- !app_assoc. f_equal. simpl in *. now f_equal.
      * constructor; [|exact Hp]. unfold isPiece.
        split; [now destruct lineBuf|]. split; [lia|].
        now rewrite removelast_last.
    + apply orb_false_iff in C as [Cb Cl]. apply Nat.ltb_ge in Cl.
      destruct (IH (lineBuf ++ [b]) w)
        as (pieces & outs & lb' & -> & H2 & Hcat & Hp & Hno' & Hlen');
        [apply Forall_app; split; [exact Hno|now constructor]|lia|].
      exists pieces, outs, lb'. split; [reflexivity|]. split; [exact H2|].
      split; [|auto]. rewrite <- Hcat, <- app_assoc. reflexivity.
Qed.

Lemma processOutput_cut (t : Terminal) :
  forall reads w,
    exists pieces outs,
      processOutput t reads [] w = Some (w ++ outs) /\
      Forall2 (written t) pieces outs /\
      concat pieces = consumed reads /\
      Forall isPiece pieces.
Proof.
  induction reads as [|[data err] reads IH]; intros w.
  - exists [], []. rewrite app_nil_r. simpl. repeat split; constructor.
  - cbn [processOutput consumed].
    match goal with
    | |- exists _ _, bind ?m _ = _ /\ _ =>
        assert (Hstep : exists pieces outs,
                   m = Some ([], w ++ outs) /\
                   Forall2 (written t) pieces outs /\
                   concat pieces = data /\ Forall isPiece pieces)
    end.
    { destruct (Nat.ltb_spec 0 (length data)) as [Hd|Hd].
      - destruct (feed_pieces t data [] w)
          as (pieces & outs & lb' & -> & H2 & Hcat & Hp & Hno' & Hlen');
          [constructor|simpl; lia|].
        cbn [bind]. simpl in Hcat.
        destruct (Nat.ltb_spec 0 (length lb')) as [Hl|Hl].
        + destruct (writeOutput_ok t (w ++ outs) lb') as (out & -> & Hout).
          cbn [bind]. exists (pieces ++ [lb']), (outs ++ [out]).
          rewrite <- app_assoc. split; [reflexivity|].
          split; [apply Forall2_app; [exact H2|now constructor]|].
          split; [rewrite concat_app; simpl; now rewrite app_nil_r|].
          apply Forall_app. split; [exact Hp|]. constructor; [|constructor].
          unfold isPiece. split; [destruct lb'; [simpl in Hl; lia|discriminate]|].
          split; [lia|now apply Forall_removelast].
        + exists pieces, outs. destruct lb'; [|simpl in Hl; lia].
          rewrite app_nil_r in Hcat. auto.
      - exists [], []. destruct data; [|simpl in Hd; lia].
        rewrite app_nil_r. repeat split; constructor. }
    destruct Hstep as (pieces & outs & -> & H2 & Hcat & Hp). cbn [bind].
    destruct err.
    + exists pieces, outs. rewrite app_nil_r. auto.
    + destruct (IH (w ++ outs)) as (pieces' & outs' & -> & H2' & Hcat' & Hp').
      exists (pieces ++ pieces'), (outs ++ outs'). rewrite <- app_assoc.
      split; [reflexivity|]. split; [now apply Forall2_app|].
      split; [now rewrite concat_app, Hcat, Hcat'|now apply Forall_app].
Qed.

Lemma Forall_removelast_any {A : Type} (P : A -> Prop) (s : list A) :
  Forall P s -> Forall P (removelast s).
Proof.
  induction 1 as [|x s Hx Hs IH]; [constructor|].
  simpl. destruct s; [constructor|]. now constructor.
Qed.

(** The bytes of one read, cut into pieces that were all flushed; what is
    left in the line buffer holds no newline and is within the flush
    limit. *)
Lemma feed_flushed (t : Terminal) :
  forall data lineBuf w,
    Forall (fun b => beq b LF = false) lineBuf -> length lineBuf <= lineFlushLimit ->
    exists pieces outs lineBuf',
      feed t data lineBuf w = Some (lineBuf', w ++ outs) /\
      Forall2 (written t) pieces outs /\
      lineBuf ++ data = concat pieces ++ lineBuf' /\
      Forall isPiece pieces /\ Forall isFlushed pieces /\
      Forall (fun b => beq b LF = false) lineBuf' /\
      length lineBuf' <= lineFlushLimit.
Proof.
  induction data as [|b data IH]; intros lineBuf w Hno Hlen.
  - exists [], [], lineBuf. rewrite !app_nil_r. simpl. repeat split; auto.
  - cbn [feed].
    assert (Hlb : length (lineBuf ++ [b]) = S (length lineBuf))
      by (rewrite length_app; simpl; lia).
    destruct (beq b LF || (lineFlushLimit <? length (lineBuf ++ [b]))) eqn:C.
    + destruct (writeOutput_ok t w (lineBuf ++ [b])) as (out & -> & Hout).
      cbn [bind].
      destruct (IH [] (w ++ [out]))
        as (pieces & outs & lb' & -> & H2 & Hcat & Hp & Hfl & Hno' & Hlen');
        [constructor|simpl; lia|].
      exists ((lineBuf ++ [b]) :: pieces), (out :: outs), lb'.
      rewrite <- app_assoc. split; [reflexivity|]. split; [now constructor|].
      split; [|split; [|split; [|auto]]].
      * cbn [concat]. rewrite <- !app_assoc. f_equal. simpl in *. now f_equal.
      * constructor; [|exact Hp]. unfold isPiece.
        split; [now destruct lineBuf|]. split; [lia|].
        now rewrite removelast_last.
      * constructor; [|exact Hfl]. unfold isFlushed. rewrite last_last.
        apply orb_true_iff in C as [C|C].
        -- left. now apply beq_eq.
        -- right. apply Nat.ltb_lt in C. lia.
    + apply orb_false_iff in C as [Cb Cl]. apply Nat.ltb_ge in Cl.
      destruct (IH (lineBuf ++ [b]) w)
        as (pieces & outs & lb' & -> & H2 & Hcat & Hp & Hfl & Hno' & Hlen');
        [apply Forall_app; split; [exact Hno|now constructor]|lia|].
      exists pieces, outs, lb'. split; [reflexivity|]. split; [exact H2|].
      split; [|auto]. rewrite <- Hcat, <- app_assoc. reflexivity.
Qed.

Lemma processOutput_groups (t : Terminal) :
  forall reads w,
    exists groups outs,
      processOutput t reads [] w = Some (w ++ outs) /\
      Forall2 (written t) (concat groups) outs /\
      Forall2 cutOf (consumedReads reads) groups.
Proof.
  induction reads as [|[data err] reads IH]; intros w.
  - exists [], []. rewrite app_nil_r. simpl. repeat split; constructor.
  - cbn [processOutput consumedReads].
    match goal with
    | |- exists _ _, bind ?m _ = _ /\ _ =>
        assert (Hstep : exists group outs,
                   m = Some ([], w ++ outs) /\
                   Forall2 (written t) group outs /\ cutOf data group)
    end.
    { destruct (Nat.ltb_spec 0 (length data)) as [Hd|Hd].
      - destruct (feed_flushed t data [] w)
          as (pieces & outs & lb' & -> & H2 & Hcat & Hp & Hfl & Hno' & Hlen');
          [constructor|simpl; lia|].
        cbn [bind]. simpl in Hcat.
        destruct (Nat.ltb_spec 0 (length lb')) as [Hl|Hl].
        + destruct (writeOutput_ok t (w ++ outs) lb') as (out & -> & Hout).
          cbn [bind]. exists (pieces ++ [lb']), (outs ++ [out]).
          rewrite <- app_assoc. split; [reflexivity|].
          split; [apply Forall2_app; [exact H2|now constructor]|].
          unfold cutOf. split; [rewrite concat_app; simpl; now rewrite app_nil_r|].
          split; [|now rewrite removelast_last].
          apply Forall_app. split; [exact Hp|]. constructor; [|constructor].
          unfold isPiece. split; [destruct lb'; [simpl in Hl; lia|discriminate]|].
          split; [lia|now apply Forall_removelast].
        + exists pieces, outs. destruct lb'; [|simpl in Hl; lia].
          rewrite app_nil_r in Hcat. split; [reflexivity|]. split; [exact H2|].
          unfold cutOf. split; [now symmetry|]. split; [exact Hp|].
          now apply Forall_removelast_any.
      - exists [], []. destruct data; [|simpl in Hd; lia].
        rewrite app_nil_r. unfold cutOf. repeat split; constructor. }
    destruct Hstep as (group & outs & -> & H2 & Hcut). cbn [bind].
    destruct err.
    + exists [group], outs. cbn [concat]. rewrite app_nil_r.
      split; [reflexivity|]. split; [exact H2|]. constructor; [exact Hcut|constructor].
    + destruct (IH (w ++ outs)) as (groups & outs' & -> & H2' & Hcut').
      exists (group :: groups), (outs ++ outs'). rewrite <- app_assoc.
      split; [reflexivity|]. cbn [concat].
      split; [now apply Forall2_app|now constructor].
Qed.

(** [X16] The terminal loop cuts each read into pieces.  Whatever the
    reads bring, [processOutput] returns.  Up to the first error, the bytes
    of each read are cut into the pieces of that read, so that no piece
    holds bytes of two reads: the pieces of a read put together are its
    bytes; no piece is empty, none is longer than 4001 bytes, and a newline
    is the last byte of its piece; every piece but the last of its read
    ends in a newline or is 4001 bytes long.  For each piece, in the order
    of the pieces, one string is written: the piece itself when the
    terminal is disabled, its forced highlighting otherwise. *)
Theorem processOutput_pieces (t : Terminal) (reads : list (gostring * bool)) :
  exists groups outs,
    processOutput t reads [] [] = Some outs /\
    Forall2 (written t) (concat groups) outs /\
    Forall2 cutOf (consumedReads reads) groups.
Proof.
  destruct (processOutput_groups t reads []) as (groups & outs & H).
  now exists groups, outs.
Qed.

Lemma written_disabled (t : Terminal) (pieces outs : list gostring) :
  enabled t = false -> Forall2 (written t) pieces outs -> outs = pieces.
Proof.
  intros He. unfold written. rewrite He.
  induction 1 as [|p out pieces outs Hp _ IH]; [reflexivity|]. now rewrite Hp, IH.
Qed.

(** [X17] A disabled terminal passes its input through: what
    [processOutput] writes, put together, is what the reads brought up to
    the first error, byte for byte. *)
Theorem processOutput_disabled (t : Terminal) (reads : list (gostring * bool)) :
  enabled t = false ->
  exists outs,
    processOutput t reads [] [] = Some outs /\ concat outs = consumed reads.
Proof.
  intros He. destruct (processOutput_cut t reads []) as (pieces & outs & H & H2 & Hcat & _).
  exists outs. split; [exact H|]. now rewrite (written_disabled t _ _ He H2).
Qed.

Lemma processOutput_disabled_witness :
  let t := runWithTerminal DefaultTheme true in
  let reads := [(str "set sys", false); (str "tem" ++ [LF] ++ str "show", true)] in
  enabled t = false /\
  exists outs,
    processOutput t reads [] [] = Some outs /\
    concat outs = str "set system" ++ [LF] ++ str "show".
Proof.
  intros t reads. split; [reflexivity|].
  apply (processOutput_disabled t reads). reflexivity.
Defined.

(** *** The filter on standard input *)

Lemma ReadString_split (s : gostring) :
  s = fst (ReadString s) ++ match snd (ReadString s) with
                            | Some rest => rest
                            | None => []
                            end /\
  match snd (ReadString s) with
  | Some rest => length rest < length s
  | None => True
  end.
Proof.
  induction s as [|b s [IH1 IH2]]; [split; [reflexivity|exact I]|].
  cbn [ReadString]. destruct (beq b LF).
  - simpl. split; [reflexivity|lia].
  - destruct (ReadString s) as [line rest]. cbn [fst snd] in *.
    split; [simpl; now rewrite <- IH1|].
    destruct rest; [simpl; lia|exact I].
Qed.

Lemma stdinLoop_ok (hl : Highlighter) (disabled force : bool) :
  forall fuel detected s out,
    length s < fuel ->
    exists res,
      stdinLoop fuel hl disabled force detected s out = Some res /\
      (disabled = true -> res = out ++ s).
Proof.
  induction fuel as [|fuel IH]; intros detected s out Hf; [lia|].
  cbn [stdinLoop]. destruct (ReadString_split s) as [Hs Hlen].
  destruct (ReadString s) as [line rest]. cbn [fst snd] in Hs, Hlen.
  match goal with
  | |- exists _, bind ?m _ = _ /\ _ =>
      assert (Hstep : exists detected' shown,
                 m = Some (detected', out ++ shown) /\
                 (disabled = true -> shown = line))
  end.
  { destruct (Nat.ltb_spec 0 (length line)) as [Hl|Hl].
    - destruct disabled; [eauto|].
      destruct (detected || force).
      + destruct (HighlightForced_ok hl line) as [o ->]. cbn [bind].
        do 2 eexists. split; [reflexivity|discriminate].
      + destruct (Highlight_ok hl line) as [o ->]. cbn [bind].
        do 2 eexists. split; [reflexivity|discriminate].
    - exists detected, []. rewrite app_nil_r. split; [reflexivity|].
      intros _. destruct line; [reflexivity|simpl in Hl; lia]. }
  destruct Hstep as (detected' & shown & -> & Hshown). cbn [bind].
  destruct rest as [rest|].
  - destruct (IH detected' rest (out ++ shown)) as (res & -> & Hres); [lia|].
    exists res. split; [reflexivity|]. intros Hd.
    rewrite (Hres Hd), (Hshown Hd), Hs, <- app_assoc. reflexivity.
  - exists (out ++ shown). split; [reflexivity|]. intros Hd.
    rewrite (Hshown Hd), Hs, app_nil_r. reflexivity.
Qed.

(** [X18] The filter returns for every input, and with highlighting
    disabled (the flag [-n]) it prints its input unchanged. *)
Theorem highlightStdin_passthrough (theme : Theme) (disabled force : bool)
        (stdin : gostring) :
  exists out,
    highlightStdin theme disabled force stdin = Some out /\
    (disabled = true -> out = stdin).
Proof.
  unfold highlightStdin.
  destruct (stdinLoop_ok (NewWithTheme theme) disabled force
              (S (length stdin)) force stdin []) as (res & H & Hres); [lia|].
  exists res. split; [exact H|]. exact Hres.
Qed.

End TerminalFacts.

(** ** Names of token types *)

Module TokenNameFacts.

Import Token TokenNames GoStringFacts.

(** [X19] The name tells the token type.  Two declared token types with
    the same [String()] are the same type, and no declared token type has
    the name ["Unknown"] of the [default] case. *)
Theorem String_names_the_type (t u : TokenType) :
  (String_ t = String_ u -> t = u) /\ String_ t <> Unknown.
Proof.
  split.
  - destruct t; destruct u; intros H; try reflexivity; discriminate H.
  - destruct t; discriminate.
Qed.

End TokenNameFacts.

(** ** How far the scanners go *)

Module MunchFacts.

Import Regexp Tables Lex Layout GoStringFacts LexFacts StepFacts.




Ltac unbind H :=
  match type of H with
  | bind ?m _ = Some _ =>
      let E := fresh "E" in
      destruct m eqn:E; [cbn [bind] in H|discriminate H]
  end.





(** [X21] A quoted string that is never closed is one token.  When the
    byte under the cursor is a quote and no byte after it is that quote,
    [nextToken] returns a single token whose value is all that is left of
    the input, and leaves the cursor at the end; the token is a
    [TokenString], or a [TokenValue] when a value was expected. *)
Theorem unterminated_string_is_absorbed (l : Lexer) (quote : byte) :
  at_ (input l) (pos l) = Some quote ->
  quote = DQUOTE \/ quote = "'"%char ->
  (forall j b, pos l < j -> at_ (input l) j = Some b -> beq b quote = false) ->
  exists tok l',
    nextToken l = Some (tok, l') /\
    Value tok = skipn (pos l) (input l) /\ pos l' = length (input l) /\
    Type_ tok = (if expectingValue l then TokenValue else TokenString).
Proof.
  intros E Hq Hno. pose proof (at_lt E) as Hlt.
  destruct (scanString_unterminated quote (setExpectingValue l false) Hlt Hno)
    as (tok & l' & Hs & Hend & Hv).
  assert (Hty : Type_ tok = TokenString).
  { unfold scanString in Hs.
    destruct (stringLoop _ _ _); [|discriminate]. cbn [bind] in Hs.
    destruct (substr _ _ _); [|discriminate]. cbn [bind] in Hs.
    now injection Hs as <- _. }
  cbn [setExpectingValue input pos] in Hend, Hv.
  exists (if expectingValue l then withType tok TokenValue else tok), l'.
  assert (Hquoted : scanQuoted quote l
                    = Some (if expectingValue l then withType tok TokenValue else tok, l')).
  { unfold scanQuoted. now rewrite Hs. }
  split.
  - unfold nextToken.
    destruct (Nat.leb_spec (length (input l)) (pos l)) as [Hge|_]; [lia|].
    assert (Hdiff : (if col l =? 1 then scanDiffLine l else Some None) = Some None).
    { destruct (col l =? 1); [|reflexivity]. unfold scanDiffLine. rewrite E.
      cbn [bind]. destruct Hq as [-> | ->]; reflexivity. }
    rewrite Hdiff, E. cbn [bind].
    destruct Hq as [-> | ->]; exact Hquoted.
  - destruct (expectingValue l); cbn [withType Value Type_]; auto.
Qed.

Lemma unterminated_string_is_absorbed_witness :
  let l := New (DQUOTE :: str "no end") in
  at_ (input l) (pos l) = Some DQUOTE /\
  exists tok l',
    nextToken l = Some (tok, l') /\
    Value tok = skipn (pos l) (input l) /\ pos l' = length (input l) /\
    Type_ tok = (if expectingValue l then TokenValue else TokenString).
Proof.
  intros l. split; [reflexivity|].
  apply (unterminated_string_is_absorbed l DQUOTE); [reflexivity|now left|].
  intros j b Hj Hb. unfold at_ in Hb. simpl in Hj, Hb.
  do 7 (destruct j as [|j]; [simpl in Hb; try lia; now injection Hb as <-|]).
  destruct j; discriminate.
Defined.

End MunchFacts.

(** ** The shape of the segments *)

Module SegmentFacts.

Import Escape StripPass Segments Lex Layout.
Import GoStringFacts EscapeFacts StripPassFacts StepFacts.












End SegmentFacts.

(** ** Which token types occur where *)

Module KindFacts.

Import Regexp Tables Lex Layout Kinds.
Import GoStringFacts LexFacts Totality StepFacts ScanFacts MunchFacts.

Lemma classifySharedPatterns_kind (word : gostring) :
  isSharedType (classifySharedPatterns word) = true.
Proof.
  unfold classifySharedPatterns. split_ifs; reflexivity.
Qed.

Lemma classifyConfigWord_kind (word lower : gostring) (l : Lexer) :
  let t := fst (classifyConfigWord word lower l) in
  (isConfigOnly t = true /\ t <> TokenValue) \/ isSharedType t = true.
Proof.
  unfold classifyConfigWord.
  pose proof (classifySharedPatterns_kind word).
  split_ifs; cbn [fst]; auto; left; split; (reflexivity || discriminate).
Qed.

Lemma classifyShowWord_kind (word lower : gostring) (l : Lexer) :
  let t := fst (classifyShowWord word lower l) in
  isShowOnly t = true \/ isSharedType t = true.
Proof.
  unfold classifyShowWord.
  pose proof (classifySharedPatterns_kind word).
  split_ifs; cbn [fst]; auto.
Qed.

(** The type of a classified word: of the configuration rules or of the
    show rules, as the mode of the lexer says once it is settled. *)
Lemma classifyWord_kind (word : gostring) (l : Lexer) :
  let t := fst (classifyWord word l) in
  ((isConfigOnly t = true /\ t <> TokenValue) \/ isShowOnly t = true
   \/ isSharedType t = true) /\
  (steady l -> isConfigOnly t = false) /\
  (settledConfig l -> isShowOnly t = false).
Proof.
  cbv zeta. split; [|split].
  - unfold classifyWord.
    destruct (isShow _).
    + destruct (classifyShowWord_kind word (ToLower word)
                  (if isAuto (parseMode l) && negb (detectedMode l)
                   then setMode l (detectParseMode l) true else l)); auto.
    + destruct (classifyConfigWord_kind word (ToLower word)
                  (if isAuto (parseMode l) && negb (detectedMode l)
                   then setMode l (detectParseMode l) true else l)); auto.
  - intros (Hm & Hd & _). rewrite (classifyWord_latched _ _ Hd), Hm. cbn [isShow].
    destruct (classifyShowWord_kind word (ToLower word) l) as [H|H];
      destruct (fst (classifyShowWord word (ToLower word) l)); try discriminate H;
      reflexivity.
  - intros (Hm & Hd). rewrite (classifyWord_latched _ _ Hd), Hm. cbn [isShow].
    destruct (classifyConfigWord_kind word (ToLower word) l) as [[H _]|H];
      destruct (fst (classifyConfigWord word (ToLower word) l)); try discriminate H;
      reflexivity.
Qed.

(** Where the type of the token of [nextToken] comes from. *)
Lemma nextToken_kind (l l' : Lexer) (tok : Token) :
  nextToken l = Some (tok, l') ->
  isScannerType (Type_ tok) = true \/
  (isDiffType (Type_ tok) = true /\ col l = 1) \/
  (Type_ tok = TokenValue /\ expectingValue l = true) \/
  (exists word l1,
     parseMode l1 = parseMode l /\ detectedMode l1 = detectedMode l /\
     expectingValue l1 = expectingValue l /\
     Type_ tok = fst (classifyWord word l1)).
Proof.
  unfold nextToken. intros H.
  destruct (length (input l) <=? pos l); [injection H as <- _; now left|].
  unbind H.
  destruct o as [r|].
  - injection H as ->. destruct (Nat.eqb_spec (col l) 1) as [Hc|]; [|discriminate E].
    right; left. split; [|exact Hc].
    unfold scanDiffLine in E. unbind E.
    destruct (_ && _ && _).
    + unbind E. unbind E. now injection E as <- _.
    + destruct (_ && _); [|discriminate E]. unbind E.
      destruct (_ || _); [|discriminate E]. injection E as <- _.
      cbn [Type_]. now destruct (beq b "-"%char).
  - clear E. unbind H.
    destruct (beq b "#"%char).
    { unfold scanComment in H. unbind H. unbind H. injection H as <- _.
      left. cbn [Type_]. now destruct (beq (peek l 1) "#"%char). }
    destruct (beq b "/"%char && beq (peek l 1) "*"%char).
    { unfold scanBlockComment in H. unbind H. unbind H. injection H as <- _. now left. }
    assert (Hq : forall quote,
               scanQuoted quote l = Some (tok, l') ->
               isScannerType (Type_ tok) = true \/
               (isDiffType (Type_ tok) = true /\ col l = 1) \/
               (Type_ tok = TokenValue /\ expectingValue l = true) \/
               (exists word l1,
                  parseMode l1 = parseMode l /\ detectedMode l1 = detectedMode l /\
                  expectingValue l1 = expectingValue l /\
                  Type_ tok = fst (classifyWord word l1))).
    { intros quote Hs. unfold scanQuoted in Hs. unbind Hs. destruct p as [token l0].
      unfold scanString in E0. unbind E0. unbind E0. injection E0 as <- _.
      injection Hs as <- _. destruct (expectingValue l); cbn [withType Type_]; auto. }
    destruct (beq b DQUOTE); [now apply (Hq DQUOTE)|].
    destruct (beq b "'"%char); [now apply (Hq "'"%char)|]. clear Hq.
    destruct (beq b "{"%char || beq b "}"%char).
    { unfold scanBrace in H. unbind H. injection H as <- _. now left. }
    destruct (beq b ";"%char).
    { unfold scanSemicolon in H. injection H as <- _. now left. }
    destruct (beq b "<"%char).
    { unfold scanWildcard in H. unbind H. unbind H. injection H as <- _. now left. }
    destruct (beq b "*"%char); [injection H as <- _; now left|].
    destruct (isWhitespace b).
    { unfold scanWhitespace in H. unbind H. unbind H. injection H as <- _. now left. }
    destruct (expectingValue l) eqn:Hv.
    { unfold scanUnquotedValue in H. unbind H. unbind H. injection H as <- _.
      right; right; left. auto. }
    unfold scanWord in H. unbind H. unbind H.
    pose proof (advanceWhile_went _ _ _ _ E0) as [(_ & Hm & Hd & He & _) _].
    destruct (classifyWord g l0) as [tokenType l''] eqn:Hc. injection H as <- _.
    right; right; right. exists g, l0. rewrite Hc. cbn [fst Type_].
    repeat split; congruence.
Qed.

(** What holds of every step of the scan holds of its tokens. *)
Lemma scanLoop_Forall (P : Token -> Prop) (Inv : Lexer -> Prop) :
  (forall l tok l',
     Inv l -> pos l < length (input l) -> nextToken l = Some (tok, l') ->
     P tok /\ Inv l') ->
  forall fuel l acc out,
    Inv l -> Forall P acc -> scanLoop fuel l acc = Some out -> Forall P out.
Proof.
  intros Hstep. induction fuel as [|fuel IH]; intros l acc out Hl Hacc H; simpl in H;
    destruct (Nat.ltb_spec (pos l) (length (input l))) as [Hlt|Hge];
    try discriminate; try (now injection H as <-).
  unbind H. destruct p as [tok l'].
  destruct (Hstep _ _ _ Hl Hlt E) as [Hp Hl'].
  apply (IH _ _ _ Hl') in H; [exact H|].
  destruct (keep tok); [|exact Hacc].
  apply Forall_app. split; [exact Hacc|now constructor].
Qed.

Lemma emit_Forall (P : Token -> Prop) (t : TokenType) (v : gostring) (step : nat)
      (st : list Token * nat) :
  (forall c, P (mkToken t v 1 c)) -> Forall P (fst st) -> Forall P (fst (emit t v step st)).
Proof.
  intros Ht Hst. destruct st as [tokens c]. cbn [emit fst].
  apply Forall_app. split; [exact Hst|]. constructor; [apply Ht|constructor].
Qed.

(** The tokens of the prompt path: those of the prompt, and those of the
    command behind it, whose columns are set anew. *)
Lemma tryTokenizePrompt_Forall (Q : TokenType -> Prop)
      (tokenize : Lexer -> option (list Token)) (input : gostring)
      (out : list Token) :
  Q TokenPromptEdit -> Q TokenText -> Q TokenPromptUser -> Q TokenPromptAt ->
  Q TokenPromptHostConf -> Q TokenPromptHostOper -> Q TokenPromptConf ->
  Q TokenPromptOper ->
  (forall l tokens, tokenize l = Some tokens ->
                    Forall (fun tok => Q (Type_ tok)) tokens) ->
  tryTokenizePrompt tokenize input = Some (Some out) ->
  Forall (fun tok => Q (Type_ tok)) out.
Proof.
  intros Q1 Q2 Q3 Q4 Q5 Q6 Q7 Q8 Htok H. unfold tryTokenizePrompt in H.
  destruct (FindStringSubmatch promptPattern input) as [matches|]; [|discriminate].
  cbv zeta in H.
  match type of H with
  | bind (if _ then _ else Some ?st) _ = _ =>
      assert (Hst : Forall (fun tok => Q (Type_ tok)) (fst st))
  end.
  { repeat first
      [ apply emit_Forall; [intros c; cbn [Type_]; try assumption|]
      | match goal with
        | |- Forall _ (fst (if ?c then _ else _)) => destruct c
        end
      | constructor ].
    all: match goal with
         | |- _ (if ?c then _ else _) => destruct c; assumption
         | _ => idtac
         end. }
  match type of H with
  | bind (if _ then _ else Some ?st) _ = _ => set (st0 := st) in *
  end.
  assert (Hfold : forall cmdTokens st,
             Forall (fun tok => Q (Type_ tok)) cmdTokens ->
             Forall (fun tok => Q (Type_ tok)) (fst st) ->
             Forall (fun tok => Q (Type_ tok))
                    (fst (fold_left
                            (fun (st : list Token * nat) tok =>
                               (fst st ++ [withColumn tok (snd st)],
                                snd st + length (Value tok)))
                            cmdTokens st))).
  { induction cmdTokens as [|tok cmdTokens IH]; intros st Hc Hs; [exact Hs|].
    inversion Hc; subst. cbn [fold_left]. apply IH; [assumption|].
    cbn [fst]. apply Forall_app. split; [exact Hs|]. now constructor. }
  unbind H. destruct p as [tokens c]. injection H as <-.
  assert (Ht : Forall (fun tok => Q (Type_ tok)) tokens).
  { destruct (nonEmpty (matches 8)).
    - unbind E. injection E as E. apply (f_equal fst) in E. cbn [fst] in E.
      rewrite <- E. apply Hfold; [eapply Htok; eassumption|exact Hst].
    - injection E as E. apply (f_equal fst) in E. cbn [fst] in E. now rewrite <- E. }
  destruct (HasSuffix input [LF]); [|exact Ht].
  apply Forall_app. split; [exact Ht|]. constructor; [exact Q2|constructor].
Qed.

Lemma TokenizeFuel_Forall (Q : TokenType -> Prop) :
  Q TokenPromptEdit -> Q TokenText -> Q TokenPromptUser -> Q TokenPromptAt ->
  Q TokenPromptHostConf -> Q TokenPromptHostOper -> Q TokenPromptConf ->
  Q TokenPromptOper ->
  (forall l tok l', nextToken l = Some (tok, l') -> Q (Type_ tok)) ->
  forall fuel l out,
    TokenizeFuel fuel l = Some out -> Forall (fun tok => Q (Type_ tok)) out.
Proof.
  intros Q1 Q2 Q3 Q4 Q5 Q6 Q7 Q8 Hnext.
  induction fuel as [|fuel IH]; intros l out H; [discriminate|].
  cbn [TokenizeFuel] in H. unbind H. destruct o as [tokens|].
  - injection H as <-.
    apply (tryTokenizePrompt_Forall Q (TokenizeFuel fuel) (input l)); auto.
  - refine (scanLoop_Forall (fun tok => Q (Type_ tok)) (fun _ => True)
              _ _ _ _ _ I (Forall_nil _) H).
    intros l0 tok l' _ _ Hn. split; [eapply Hnext; eassumption|exact I].
Qed.

Lemma nextToken_not_operator (l l' : Lexer) (tok : Token) :
  nextToken l = Some (tok, l') -> Type_ tok <> TokenOperator.
Proof.
  intros H. destruct (nextToken_kind _ _ _ H) as [Hk|[[Hk _]|[[Hk _]|Hk]]].
  - intros E. rewrite E in Hk. discriminate.
  - intros E. rewrite E in Hk. discriminate.
  - intros E. rewrite E in Hk. discriminate.
  - destruct Hk as (word & l1 & _ & _ & _ & ->).
    destruct (classifyWord_kind word l1) as [[[Hk _]|[Hk|Hk]] _];
      intros E; rewrite E in Hk; discriminate.
Qed.

Lemma Tokenize_not_operator (l : Lexer) (tokens : list Token) :
  Tokenize l = Some tokens ->
  Forall (fun tok => Type_ tok <> TokenOperator) tokens.
Proof.
  apply (TokenizeFuel_Forall (fun t => t <> TokenOperator));
    try discriminate. intros l0 tok l'. apply nextToken_not_operator.
Qed.

(** [X23] The lexer never gives an operator.  [Tokenize] returns for every
    lexer whose cursor is inside its input, on the prompt path and on the
    scan path, and no token it returns has the type [TokenOperator]: the
    themes give the type a colour, the lexer has no rule for it. *)
Theorem Tokenize_never_operator (l : Lexer) :
  pos l <= length (input l) ->
  exists tokens,
    Tokenize l = Some tokens /\
    Forall (fun tok => Type_ tok <> TokenOperator) tokens.
Proof.
  intros Hp. destruct (Tokenize_total l Hp) as [tokens H].
  exists tokens. split; [exact H|]. now apply (Tokenize_not_operator l).
Qed.

Lemma Tokenize_never_operator_witness :
  let l := New (str "a + b - c") in
  pos l <= length (input l) /\
  exists tokens,
    Tokenize l = Some tokens /\
    Forall (fun tok => Type_ tok <> TokenOperator) tokens.
Proof.
  intros l. assert (H : pos l <= length (input l)) by (simpl; lia).
  split; [exact H|]. apply (Tokenize_never_operator l H).
Defined.

Lemma nextToken_column (l l' : Lexer) (tok : Token) :
  pos l < length (input l) -> nextToken l = Some (tok, l') -> Column tok = col l.
Proof.
  intros Hlt H. destruct (nextToken_step l Hlt) as (tok0 & l0 & H0 & Hs & _).
  rewrite H in H0. injection H0 as <- <-.
  destruct Hs as (_ & _ & _ & Hlc & _). now injection Hlc.
Qed.

Lemma scan_in_place (l : Lexer) (tokens : list Token) :
  FindStringSubmatch promptPattern (input l) = None ->
  Tokenize l = Some tokens ->
  Forall (fun tok => isPromptType (Type_ tok) = false /\
                     (isDiffType (Type_ tok) = true -> Column tok = 1)) tokens.
Proof.
  intros Hno H. rewrite (Tokenize_scan l Hno) in H.
  refine (scanLoop_Forall _ (fun _ => True) _ _ _ _ _ I (Forall_nil _) H).
  intros l0 tok l' _ Hlt Hn. split; [|exact I].
  pose proof (nextToken_column _ _ _ Hlt Hn) as Hc.
  destruct (nextToken_kind _ _ _ Hn) as [Hk|[[Hk Hcol]|[[Hk _]|Hk]]].
  - destruct (Type_ tok); try discriminate Hk; split; (reflexivity || discriminate).
  - split; [destruct (Type_ tok); try discriminate Hk; reflexivity|].
    intros _. now rewrite Hc.
  - rewrite Hk. split; [reflexivity|discriminate].
  - destruct Hk as (word & l1 & _ & _ & _ & ->).
    destruct (classifyWord_kind word l1) as [[[Hk _]|[Hk|Hk]] _];
      destruct (fst (classifyWord word l1)); try discriminate Hk;
      split; (reflexivity || discriminate).
Qed.

(** [X24] Prompt and diff tokens in their place.  [Tokenize] returns for a
    text that is not a prompt, and among its tokens none has one of the
    prompt types, and a token of a diff type -- the context line
    [\[edit ...\]], the marks [+] and [-] -- stands at column 1. *)
Theorem scan_keeps_prompt_and_diff_in_place (l : Lexer) :
  pos l <= length (input l) ->
  FindStringSubmatch promptPattern (input l) = None ->
  exists tokens,
    Tokenize l = Some tokens /\
    Forall (fun tok => isPromptType (Type_ tok) = false /\
                       (isDiffType (Type_ tok) = true -> Column tok = 1)) tokens.
Proof.
  intros Hp Hno. destruct (Tokenize_total l Hp) as [tokens H].
  exists tokens. split; [exact H|]. now apply (scan_in_place l).
Qed.

Lemma scan_keeps_prompt_and_diff_in_place_witness :
  let l := New (str "+ set system" ++ [LF] ++ str "a + b") in
  pos l <= length (input l) /\
  FindStringSubmatch promptPattern (input l) = None /\
  exists tokens,
    Tokenize l = Some tokens /\
    Forall (fun tok => isPromptType (Type_ tok) = false /\
                       (isDiffType (Type_ tok) = true -> Column tok = 1)) tokens.
Proof.
  intros l. assert (Hp : pos l <= length (input l)) by (simpl; lia).
  assert (Hno : FindStringSubmatch promptPattern (input l) = None) by reflexivity.
  split; [exact Hp|]. split; [exact Hno|].
  apply (scan_keeps_prompt_and_diff_in_place l Hp Hno).
Defined.

Lemma nextToken_settledConfig (l l' : Lexer) (tok : Token) :
  pos l < length (input l) -> nextToken l = Some (tok, l') ->
  settledConfig l -> settledConfig l'.
Proof.
  intros Hlt H [Hm Hd].
  destruct (nextToken_ok l Hlt) as (tok0 & l0 & H0 & _ & _ & _ & Hp).
  rewrite H in H0. injection H0 as <- <-.
  destruct (Hp Hd) as [Hd' Hm']. split; congruence.
Qed.

Lemma nextToken_steady (l l' : Lexer) (tok : Token) :
  pos l < length (input l) -> nextToken l = Some (tok, l') ->
  steady l -> steady l'.
Proof.
  intros Hlt H Hs.
  destruct (nextToken_step l Hlt) as (tok0 & l0 & H0 & _ & Hst).
  rewrite H in H0. injection H0 as <- <-. auto.
Qed.

Lemma modes_apart (s : gostring) (tokens : list Token) :
  FindStringSubmatch promptPattern s = None ->
  (Tokenize (SetParseMode (New s) ParseModeShow) = Some tokens ->
   Forall (fun tok => isConfigOnly (Type_ tok) = false) tokens) /\
  (Tokenize (SetParseMode (New s) ParseModeConfig) = Some tokens ->
   Forall (fun tok => isShowOnly (Type_ tok) = false) tokens).
Proof.
  intros Hno. split; intros H.
  - rewrite (Tokenize_scan (SetParseMode (New s) ParseModeShow) Hno) in H.
    refine (scanLoop_Forall _ steady _ _ _ _ _ _ (Forall_nil _) H); [|repeat split].
    intros l tok l' Hs Hlt Hn. split; [|eapply nextToken_steady; eassumption].
    destruct (nextToken_kind _ _ _ Hn) as [Hk|[[Hk _]|[[_ Hk]|Hk]]].
    + destruct (Type_ tok); try discriminate Hk; reflexivity.
    + destruct (Type_ tok); try discriminate Hk; reflexivity.
    + destruct Hs as (_ & _ & Hs). congruence.
    + destruct Hk as (word & l1 & Hm & Hd & He & ->).
      apply classifyWord_kind. destruct Hs as (Hs1 & Hs2 & Hs3).
      repeat split; congruence.
  - rewrite (Tokenize_scan (SetParseMode (New s) ParseModeConfig) Hno) in H.
    refine (scanLoop_Forall _ settledConfig _ _ _ _ _ _ (Forall_nil _) H);
      [|split; reflexivity].
    intros l tok l' Hs Hlt Hn. split; [|eapply nextToken_settledConfig; eassumption].
    destruct (nextToken_kind _ _ _ Hn) as [Hk|[[Hk _]|[[Hk _]|Hk]]].
    + destruct (Type_ tok); try discriminate Hk; reflexivity.
    + destruct (Type_ tok); try discriminate Hk; reflexivity.
    + now rewrite Hk.
    + destruct Hk as (word & l1 & Hm & Hd & He & ->).
      apply classifyWord_kind. destruct Hs as (Hs1 & Hs2).
      split; congruence.
Qed.

(** [X25] The two modes keep their token types apart.  For a text that is
    not a prompt: tokenised in Show mode, no token has a type of the
    configuration rules (command, section, protocol, action, keyword, unit,
    AS number, value); tokenised in Config mode, no token has a type of the
    show rules (the states, column header, status symbol, duration,
    percentage, byte size, route protocol, table name). *)
Theorem modes_keep_their_types_apart (s : gostring) :
  FindStringSubmatch promptPattern s = None ->
  (exists tokens,
     Tokenize (SetParseMode (New s) ParseModeShow) = Some tokens /\
     Forall (fun tok => isConfigOnly (Type_ tok) = false) tokens) /\
  (exists tokens,
     Tokenize (SetParseMode (New s) ParseModeConfig) = Some tokens /\
     Forall (fun tok => isShowOnly (Type_ tok) = false) tokens).
Proof.
  intros Hno. split.
  - destruct (Tokenize_total (SetParseMode (New s) ParseModeShow)) as [tokens H];
      [simpl; lia|].
    exists tokens. split; [exact H|]. now apply (modes_apart s tokens Hno).
  - destruct (Tokenize_total (SetParseMode (New s) ParseModeConfig)) as [tokens H];
      [simpl; lia|].
    exists tokens. split; [exact H|]. now apply (modes_apart s tokens Hno).
Qed.

Lemma modes_keep_their_types_apart_witness :
  let s := str "show interfaces up" in
  FindStringSubmatch promptPattern s = None /\
  exists tokens,
    Tokenize (SetParseMode (New s) ParseModeShow) = Some tokens /\
    Forall (fun tok => isConfigOnly (Type_ tok) = false) tokens.
Proof.
  intros s.
  assert (Hno : FindStringSubmatch promptPattern s = None) by reflexivity.
  split; [exact Hno|].
  exact (proj1 (modes_keep_their_types_apart s Hno)).
Defined.

End KindFacts.
